(** * Score-to-label postprocessing of the hard-labeling tutorial

    A shallow embedding of the hard-labeling cells of
    [tutorials/gmm_postprocessing_and_hard_labeling.ipynb] and of the library
    calls they rely on ([str.rsplit], [DataFrame.idxmax], [np.histogram],
    [scipy.signal.argrelmin], [sklearn.metrics.f1_score]).

    Numbers.  The notebook works on finite float64 values and, on the
    labeling path, only compares them.  Every finite float64 is a rational
    and [<] on finite floats is the order of the rationals they denote, so
    scores, probabilities and thresholds are values of [Q].  Missing values
    (NaN) are outside the model.  The arithmetic of [np.histogram] is carried
    out exactly in [Q]; the rounding of the bin edges is not modelled. *)

From Stdlib Require Import List String Ascii Bool Arith ZArith QArith Qround Lia.
Import ListNotations.

Local Open Scope Q_scope.

(** ** Python: exceptions, indexing, strings *)

Module Py.

Inductive exn : Set :=
| KeyError
| IndexError
| ValueError
| UnboundLocalError.

Inductive result (A : Type) : Type :=
| Ok (a : A)
| Raise (e : exn).
Arguments Ok {A} a.
Arguments Raise {A} e.

Definition bind {A B : Type} (m : result A) (k : A -> result B) : result B :=
  match m with
  | Ok a => k a
  | Raise e => Raise e
  end.

Definition of_option {A : Type} (e : exn) (o : option A) : result A :=
  match o with
  | Some a => Ok a
  | None => Raise e
  end.

Fixpoint mapM {A B : Type} (f : A -> result B) (l : list A) : result (list B) :=
  match l with
  | [] => Ok []
  | a :: l' =>
      bind (f a) (fun b => bind (mapM f l') (fun bs => Ok (b :: bs)))
  end.

(** [l[i]] for a Python list or a numpy array and a Python integer: negative
    indices count from the end, anything else out of range raises. *)
Definition getitem {A : Type} (l : list A) (i : Z) : result A :=
  let n := Z.of_nat (List.length l) in
  if (0 <=? i)%Z then of_option IndexError (nth_error l (Z.to_nat i))
  else if (- n <=? i)%Z then of_option IndexError (nth_error l (Z.to_nat (n + i)))
  else Raise IndexError.

(** [l[i:j]] for [0 <= i]: slices never raise. *)
Definition slice {A : Type} (l : list A) (i j : nat) : list A :=
  firstn (j - i) (skipn i l).

(** [range(start, stop, step)] for a positive step. *)
Definition range (start stop step : nat) : list nat :=
  map (fun k => start + k * step)%nat
      (seq 0 ((stop - start + (step - 1)) / step)).

Definition chars (s : string) : list ascii := list_ascii_of_string s.
Definition str (l : list ascii) : string := string_of_list_ascii l.

(** [str.split(sep, maxsplit)] on a list of characters, for a separator of
    one character. *)
Fixpoint split_chars (sep : ascii) (maxsplit : nat) (l : list ascii)
  : list (list ascii) :=
  match maxsplit with
  | O => [l]
  | S m =>
      (fix scan (l : list ascii) : list (list ascii) :=
         match l with
         | [] => [[]]
         | c :: l' =>
             if Ascii.eqb c sep then [] :: split_chars sep m l'
             else match scan l' with
                  | p :: ps => (c :: p) :: ps
                  | [] => [[c]]
                  end
         end) l
  end.

(** [s.rsplit(sep, maxsplit)]: at most [maxsplit] splits, taken from the
    right; the pieces come back in left-to-right order. *)
Definition rsplit (sep : ascii) (maxsplit : nat) (s : string) : list string :=
  rev (map (fun p => str (rev p)) (split_chars sep maxsplit (rev (chars s)))).

(** [pat in s]. *)
Fixpoint contains (pat s : string) : bool :=
  String.prefix pat s ||
  match s with
  | EmptyString => false
  | String _ s' => contains pat s'
  end.

(** [p] occurs in [l] as a contiguous block. *)
Definition block (p l : list ascii) : Prop := exists a b, l = a ++ p ++ b.

End Py.

Import Py.

Notation "x <- m ;; k" := (bind m (fun x => k))
  (at level 61, m at next level, right associativity).

(** Strict comparison of two numbers, as a boolean. *)
Definition Qltb (x y : Q) : bool :=
  match x ?= y with
  | Lt => true
  | _ => false
  end.

(** ** pandas: the table [adata.obs]

    The operations of the table follow the documented behaviour of the
    library for columns without missing values, on tables with at least one
    entity.  A table is kept as the list of its entities, so a table without
    entities has no columns to miss: reading a column of it gives the empty
    column here, where the library raises [KeyError] for a name it does not
    know.  What is stated about failures is stated for tables with an
    entity. *)

Module Pandas.

(** A numeric column, one value per entity, in index order. *)
Definition Series := list Q.

(** One entity of a table: its entries, column name with value, in column
    order.  A table is the list of its entities in index order; a table
    without entities has no record of its columns. *)
Definition Row := list (string * Q).
Definition Frame := list Row.

Fixpoint lookup (name : string) (r : Row) : option Q :=
  match r with
  | [] => None
  | (n, v) :: r' => if String.eqb n name then Some v else lookup name r'
  end.

(** [obs[name]] *)
Definition column (obs : Frame) (name : string) : result Series :=
  mapM (fun r => of_option KeyError (lookup name r)) obs.

(** [obs[names]] for a list of names: the sub-table with these columns, in
    the order of [names]. *)
Definition select (names : list string) (r : Row) : result Row :=
  mapM (fun n => v <- of_option KeyError (lookup n r) ;; Ok (n, v)) names.

Definition columns (obs : Frame) (names : list string) : result Frame :=
  mapM (select names) obs.

(** [np.argmax] along a row: the scan keeps the entry seen first and replaces
    it only by a strictly larger one. *)
Fixpoint argmax_scan (best : string * Q) (l : Row) : string :=
  match l with
  | [] => fst best
  | c :: l' =>
      if Qltb (snd best) (snd c) then argmax_scan c l' else argmax_scan best l'
  end.

Definition idxmax_row (r : Row) : result string :=
  match r with
  | [] => Raise ValueError
  | c :: r' => Ok (argmax_scan c r')
  end.

(** [frame.idxmax(axis="columns")] *)
Definition idxmax (f : Frame) : result (list string) := mapM idxmax_row f.

(** [series.apply(f)] *)
Definition apply {A B : Type} (f : A -> result B) (s : list A) : result (list B) :=
  mapM f s.

(** [series < scalar] and [mask1 & mask2] *)
Definition lt_scalar (s : Series) (t : Q) : list bool :=
  map (fun x => Qltb x t) s.

Fixpoint mask_and (m1 m2 : list bool) : list bool :=
  match m1, m2 with
  | b1 :: m1', b2 :: m2' => (b1 && b2) :: mask_and m1' m2'
  | _, _ => []
  end.

(** [series.loc[mask] = v] *)
Fixpoint loc_set (s : list string) (mask : list bool) (v : string) : list string :=
  match s, mask with
  | x :: s', m :: mask' => (if m then v else x) :: loc_set s' mask' v
  | _, _ => s
  end.

End Pandas.

(** ** numpy: [np.histogram(a, bins=100, density=True)]

    The steps of the library for an integer number of bins, no range and no
    weights, in exact arithmetic: outer edges, [linspace] for the bin edges,
    the bin of each value, the counts, the division by widths and total.  The
    library's corrections for values within a rounding error of an edge have
    nothing to correct here.  For an empty array the library divides zero by
    zero and returns not-a-number heights; here the heights are zero, and in
    both cases no height is below another one.

    The library computes in float64: it rounds every bin edge, so that the
    edges of a column whose scores lie a few units in the last place apart
    coincide, and it raises [ValueError] when the range of the column
    overflows.  Neither is modelled: the histogram here is total and its
    arithmetic exact. *)

Module Numpy.

Definition qmin (x y : Q) : Q := if Qltb y x then y else x.
Definition qmax (x y : Q) : Q := if Qltb x y then y else x.

(** The range of the data; an empty array gets [(0, 1)] and a range of
    width zero is widened by a half on each side. *)
Definition outer_edges (a : list Q) : Q * Q :=
  match a with
  | [] => (0, 1)
  | x :: a' =>
      let first_edge := fold_left qmin a' x in
      let last_edge := fold_left qmax a' x in
      if Qeq_bool first_edge last_edge
      then (first_edge - (1 # 2), last_edge + (1 # 2))
      else (first_edge, last_edge)
  end.

(** [np.linspace(start, stop, n + 1)]: [n] steps, the last point set to
    [stop]. *)
Definition linspace (start stop : Q) (n : nat) : list Q :=
  let step := (stop - start) / inject_Z (Z.of_nat n) in
  map (fun i => inject_Z (Z.of_nat i) * step + start) (seq 0 n) ++ [stop].

(** The bin of a value: bins are closed on the left and open on the right,
    except the last one, which holds the right edge too. *)
Definition bin_index (first_edge last_edge : Q) (n : nat) (x : Q) : Z :=
  let i := Qfloor ((x - first_edge) / (last_edge - first_edge)
                   * inject_Z (Z.of_nat n)) in
  if (i =? Z.of_nat n)%Z then (i - 1)%Z else i.

(** [np.bincount(indices, minlength=n)[:n]] *)
Definition bincount (indices : list Z) (n : nat) : list Z :=
  map (fun b => Z.of_nat (count_occ Z.eq_dec indices (Z.of_nat b))) (seq 0 n).

(** [np.diff] *)
Fixpoint diff (l : list Q) : list Q :=
  match l with
  | x :: (y :: _) as l' => (y - x) :: diff l'
  | _ => []
  end.

Fixpoint div_each (n : list Z) (db : list Q) (total : Z) : list Q :=
  match n, db with
  | c :: n', w :: db' => (inject_Z c / w / inject_Z total) :: div_each n' db' total
  | _, _ => []
  end.

(** The pair [(hist, bin_edges)] for [nbins] equal bins with [density=True]:
    [hist = n / db / n.sum()]. *)
Definition histogram_bins (nbins : nat) (a : list Q) : list Q * list Q :=
  let '(first_edge, last_edge) := outer_edges a in
  let bin_edges := linspace first_edge last_edge nbins in
  let n := bincount (map (bin_index first_edge last_edge nbins) a) nbins in
  (div_each n (diff bin_edges) (fold_right Z.add 0%Z n), bin_edges).

(** The area under a histogram: heights times bin widths, added up. *)
Fixpoint area (hist widths : list Q) : Q :=
  match hist, widths with
  | h :: hist', w :: widths' => h * w + area hist' widths'
  | _, _ => 0
  end.

End Numpy.

(** ** scipy: [argrelmin(data, order)] with its default [mode='clip']

    The library compares every entry, for each shift from one to [order],
    with the entries [shift] positions to its right and to its left, taken
    with [mode='clip'], and keeps the positions where [np.less] held each
    time. *)

Module Scipy.

(** [data.take(i, mode='clip')]: an index beyond an end is the end. *)
Definition take_clip (data : list Q) (i : Z) : Q :=
  let last_index := (Z.of_nat (List.length data) - 1)%Z in
  nth (Z.to_nat (Z.max 0 (Z.min i last_index))) data 0.

(** [_boolrelextrema(data, np.less, order=order, mode='clip')] *)
Definition boolrelextrema (data : list Q) (order : nat) : list bool :=
  map (fun i =>
         forallb (fun shift =>
                    Qltb (take_clip data (Z.of_nat i))
                         (take_clip data (Z.of_nat i + Z.of_nat shift))
                    && Qltb (take_clip data (Z.of_nat i))
                            (take_clip data (Z.of_nat i - Z.of_nat shift)))
                 (seq 1 order))
      (seq 0 (List.length data)).

(** [np.nonzero] of a boolean array *)
Fixpoint nonzero_from (i : nat) (l : list bool) : list nat :=
  match l with
  | [] => []
  | b :: l' => if b then i :: nonzero_from (S i) l' else nonzero_from (S i) l'
  end.

(** [argrelmin(data, order=order)[0]]; an order below one is refused. *)
Definition argrelmin (data : list Q) (order : nat) : result (list nat) :=
  match order with
  | O => Raise ValueError
  | _ => Ok (nonzero_from 0 (boolrelextrema data order))
  end.

End Scipy.

(** ** scikit-learn: [f1_score(y_true, y_pred, average='weighted')]

    The documented computation for two vectors of class labels: per class
    precision and recall with zero for an undefined ratio, their harmonic
    mean, and the mean of the classes weighted by their number of true
    instances. *)

Module Sklearn.

(** The label space of an evaluation: every label of either vector (the
    library sorts them; the weighted mean does not depend on their order). *)
Definition unique_labels (y_true y_pred : list string) : list string :=
  nodup string_dec (y_true ++ y_pred).

Definition support (c : string) (y : list string) : Z :=
  Z.of_nat (count_occ string_dec y c).

(** Entities labelled [c] by both vectors. *)
Fixpoint tp_sum (c : string) (y_true y_pred : list string) : Z :=
  match y_true, y_pred with
  | t :: y_true', p :: y_pred' =>
      ((if String.eqb t c && String.eqb p c then 1 else 0)
       + tp_sum c y_true' y_pred')%Z
  | _, _ => 0%Z
  end.

(** A ratio with a zero denominator is replaced by zero (and a warning). *)
Definition prf_divide (numerator denominator : Z) : Q :=
  if (denominator =? 0)%Z then 0
  else inject_Z numerator / inject_Z denominator.

Definition precision (c : string) (y_true y_pred : list string) : Q :=
  prf_divide (tp_sum c y_true y_pred) (support c y_pred).

Definition recall (c : string) (y_true y_pred : list string) : Q :=
  prf_divide (tp_sum c y_true y_pred) (support c y_true).

Definition f_score (c : string) (y_true y_pred : list string) : Q :=
  let p := precision c y_true y_pred in
  let r := recall c y_true y_pred in
  if Qeq_bool (p + r) 0 then 0 else 2 * p * r / (p + r).

Definition weighted_sum (labels : list string) (y_true y_pred : list string) : Q :=
  fold_right (fun c acc => f_score c y_true y_pred * inject_Z (support c y_true) + acc)
             0 labels.

Definition total_support (labels : list string) (y_true : list string) : Z :=
  fold_right (fun c acc => (support c y_true + acc)%Z) 0%Z labels.

(** Vectors of different lengths are refused; no label is.  With no true
    instance at all the score is the zero-division value, zero; this is the
    behaviour of the releases up to 1.2, later ones return not-a-number or
    refuse the empty pair, so only the statements for a ground truth with an
    entity carry over to every release. *)
Definition f1_score (y_true y_pred : list string) : result Q :=
  if (List.length y_true =? List.length y_pred)%nat then
    let labels := unique_labels y_true y_pred in
    let weights := total_support labels y_true in
    if (weights =? 0)%Z then Ok 0
    else Ok (weighted_sum labels y_true y_pred / inject_Z weights)
  else Raise ValueError.

End Sklearn.

(** ** The notebook cells *)

Module Notebook.

Import Pandas.

(** The label the two-signature scenario gives to the remaining class. *)
Definition rest_label : string := "NK".

Definition underscore : ascii := "_"%char.

(** [x.rsplit('_', maxsplit)[k]] *)
Definition rsplit_item (maxsplit : nat) (k : Z) (x : string) : result string :=
  getitem (rsplit underscore maxsplit x) k.

(** The three statements shared by the labeling cells: select the columns,
    take the row-wise argmax, keep the signature part of the column name. *)
Definition hard_label (maxsplit : nat) (obs : Frame) (names : list string)
  : result (list string) :=
  sub <- columns obs names ;;
  curr_val <- idxmax sub ;;
  apply (rsplit_item maxsplit 1) curr_val.

(** Cells [ed4de15a], [8a78e2e2] and [1d82bde5]: one label column per group
    of three columns, named after the scoring method. *)
Definition HL_loop (maxsplit : nat) (suffix : string) (obs : Frame)
  (scoring_names : list string) : result (list (string * list string)) :=
  mapM (fun i =>
          name <- getitem scoring_names (Z.of_nat i) ;;
          method <- rsplit_item maxsplit 0 name ;;
          curr_val <- hard_label maxsplit obs (slice scoring_names i (i + 3)) ;;
          Ok (String.append method suffix, curr_val))
       (range 0 (List.length scoring_names) 3).

Definition scores_HL_3sigs := HL_loop 1 "_scores_HL_3sigs".
Definition probabilities_HL_3sigs := HL_loop 3 "_probabilities_HL_3sigs".
Definition probabilities_HL_2sigs := HL_loop 3 "_probabilities_HL_2sigs".

(** Cell [a108120d]: [[x for x in scoring_names_3_sigs if 'NK' not in x]] *)
Definition scoring_names_2_sigs (scoring_names_3_sigs : list string) : list string :=
  filter (fun x => negb (contains "NK" x)) scoring_names_3_sigs.

(** [np.histogram(scores.values, bins = 100, density=True)] *)
Definition histogram (scores : Series) : list Q * list Q :=
  Numpy.histogram_bins 100 scores.

(** [argrelmin(hist[0], order=3)[0]] *)
Definition density_minima (scores : Series) : result (list nat) :=
  Scipy.argrelmin (fst (histogram scores)) 3.

(** The neighbourhood rule in the words of the specification: bin [i] is
    strictly less than all bins within [order] positions on each side. *)
Definition strictly_below_neighbours (h : list Q) (order i : nat) : Prop :=
  (i < List.length h)%nat /\
  forall j, (j < List.length h)%nat -> j <> i ->
            (i - j <= order)%nat -> (j - i <= order)%nat ->
            nth i h 0 < nth j h 0.

Definition strictly_below_neighboursb (h : list Q) (order i : nat) : bool :=
  (i <? List.length h)%nat &&
  forallb (fun j => (j =? i)%nat || negb ((i - j <=? order)%nat && (j - i <=? order)%nat)
                    || Qltb (nth i h 0) (nth j h 0))
          (seq 0 (List.length h)).

(** What [plot_score_distributions] draws. *)
Inductive plot_cmd : Type :=
| figure
| plot (ys : list Q)
| axvline (x : nat) (c : string) (label : option string)
| text (x : nat) (y : Q) (s : nat)
| title (s : string)
| legend
| show.

(** [max(hist[0])] *)
Definition hist_max (h : list Q) : Q :=
  match h with
  | [] => 0
  | x :: h' => fold_left Numpy.qmax h' x
  end.

(** The body of [for e in x_min: axvline(e); text(e, top, e)] and the value
    the loop leaves in the local variable [e]: the last minimum, or what [e]
    was before (unbound, [None], at first) when there is none. *)
Definition draw_minima (c : string) (top : Q) (x_min : list nat) : list plot_cmd :=
  flat_map (fun e => [axvline e c None; text e top e]) x_min.

Definition loop_var (e : option nat) (x_min : list nat) : option nat :=
  fold_left (fun _ x => Some x) x_min e.

Definition plot_score_distributions (method : string) (scores_B scores_Mono : Series)
  : result (list plot_cmd) :=
  let hist_one := histogram scores_B in
  x_min_B <- Scipy.argrelmin (fst hist_one) 3 ;;
  let e := loop_var None x_min_B in
  e_B <- of_option UnboundLocalError e ;;
  let hist_two := histogram scores_Mono in
  x_min_Mono <- Scipy.argrelmin (fst hist_two) 3 ;;
  let e := loop_var e x_min_Mono in
  e_Mono <- of_option UnboundLocalError e ;;
  Ok ([figure; plot (fst hist_one)]
      ++ draw_minima "r" (hist_max (fst hist_one)) x_min_B
      ++ [axvline e_B "r" (Some "mins B scores dist"%string);
          plot (fst hist_two); title method]
      ++ draw_minima "g" (hist_max (fst hist_two)) x_min_Mono
      ++ [axvline e_Mono "g" (Some "mins Mono scores dist"%string);
          legend; show]).

(** The two thresholds, [[thresh_one, thresh_two]], as a pair. *)
Definition get_score_threshs (selected_thresh : list Z) (scores_B scores_Mono : Series)
  : result (Q * Q) :=
  let hist_one := histogram scores_B in
  let hist_two := histogram scores_Mono in
  i_one <- getitem selected_thresh 0 ;;
  thresh_one <- getitem (snd hist_one) i_one ;;
  i_two <- getitem selected_thresh 1 ;;
  thresh_two <- getitem (snd hist_two) i_two ;;
  Ok (thresh_one, thresh_two).

(** The last statements of cell [591f3435]: argmax label, then the remaining
    class where both scores are below their thresholds. *)
Definition label_with_rest (obs : Frame) (names : list string)
  (B_scores M_scores : Series) (B_thresh M_thresh : Q) : result (list string) :=
  curr_val <- hard_label 1 obs names ;;
  Ok (loc_set curr_val
        (mask_and (lt_scalar B_scores B_thresh) (lt_scalar M_scores M_thresh))
        rest_label).

(** One turn of the loop of cell [591f3435]: the thresholds and the label
    column. *)
Definition scores_HL_2sigs_step (obs : Frame) (scoring_names : list string)
  (i : nat) (threshs : list Z) : result (Q * Q * list string) :=
  name_B <- getitem scoring_names (Z.of_nat i) ;;
  B_scores <- column obs name_B ;;
  name_M <- getitem scoring_names (Z.of_nat i + 1) ;;
  M_scores <- column obs name_M ;;
  th <- get_score_threshs threshs B_scores M_scores ;;
  curr_val <- label_with_rest obs (slice scoring_names i (i + 2))
                              B_scores M_scores (fst th) (snd th) ;;
  Ok (th, curr_val).

(** Cell [591f3435]: the loop over [zip(selected_thresh.items(), range(...))]. *)
Definition scores_HL_2sigs (obs : Frame) (scoring_names : list string)
  (selected_thresh : list (string * list Z)) : result (list (string * list string)) :=
  mapM (fun mi =>
          let '((method, threshs), i) := mi in
          r <- scores_HL_2sigs_step obs scoring_names i threshs ;;
          Ok (String.append method "_scores_HL_2sigs", snd r))
       (combine selected_thresh (range 0 (List.length scoring_names) 2)).

(** Cells [88651a42] and [ba95202a]: the metric of one prediction column. *)
Definition evaluate (gt pred : list string) : result Q :=
  Sklearn.f1_score gt pred.

End Notebook.

Import Pandas Notebook.

(** ** Concrete tables *)

Module Examples.

Local Open Scope string_scope.

(** Four entities scored for the signatures B and Mono by the method ANS. *)
Definition names4 : list string := ["ANS_B"; "ANS_Mono"].

Definition obs4 : Frame :=
  [ [("ANS_B", 9 # 10); ("ANS_Mono", 1 # 10)];
    [("ANS_B", 1 # 10); ("ANS_Mono", 9 # 10)];
    [("ANS_B", 5 # 100); ("ANS_Mono", 5 # 100)];
    [("ANS_B", 8 # 10); ("ANS_Mono", 75 # 100)] ].

(** The first turn of cell [591f3435] with the two thresholds given instead
    of converted from selected indices. *)
Definition policy_B_given (obs : Frame) (names : list string) (B_thresh M_thresh : Q)
  : result (list string) :=
  name_B <- getitem names 0 ;;
  B_scores <- column obs name_B ;;
  name_M <- getitem names 1 ;;
  M_scores <- column obs name_M ;;
  label_with_rest obs (slice names 0 2) B_scores M_scores B_thresh M_thresh.

(** Three entities scored for three signatures; the second one ties B and
    Mono, the third one ties Mono and NK. *)
Definition names3 : list string := ["ANS_B"; "ANS_Mono"; "ANS_NK"].

Definition obs3 : Frame :=
  [ [("ANS_B", 1 # 10); ("ANS_Mono", 2 # 10); ("ANS_NK", 7 # 10)];
    [("ANS_B", 1 # 2); ("ANS_Mono", 2 # 4); ("ANS_NK", 1 # 10)];
    [("ANS_B", 0); ("ANS_Mono", 3 # 10); ("ANS_NK", 3 # 10)] ].

(** The same four entities in a table that also carries probability
    columns, as a mixture fit with some random start would leave them. *)
Definition obs4_gmm : Frame :=
  [ [("ANS_B_gmm_2sigs", 97 # 100); ("ANS_B", 9 # 10); ("ANS_Mono", 1 # 10)];
    [("ANS_B_gmm_2sigs", 2 # 100); ("ANS_B", 1 # 10); ("ANS_Mono", 9 # 10)];
    [("ANS_B_gmm_2sigs", 11 # 100); ("ANS_B", 5 # 100); ("ANS_Mono", 5 # 100)];
    [("ANS_B_gmm_2sigs", 58 # 100); ("ANS_B", 8 # 10); ("ANS_Mono", 75 # 100)] ].

(** One entity at 0, a valley at bin 3 between full bins, one entity at
    100: the bins are one unit wide. *)
Definition valley_scores : Series :=
  [0; 0; 0; 15 # 10; 15 # 10; 15 # 10; 25 # 10; 25 # 10; 25 # 10; 35 # 10;
   45 # 10; 45 # 10; 45 # 10; 55 # 10; 55 # 10; 55 # 10; 65 # 10; 65 # 10;
   65 # 10; 100].

(** One entity in the first bin and two in each of the next three. *)
Definition low_edge_scores : Series :=
  [0; 15 # 10; 15 # 10; 25 # 10; 25 # 10; 35 # 10; 35 # 10; 100].

(** All entities with the same score: the histogram is one spike. *)
Definition spike_scores : Series := [1; 1].

End Examples.

Import Examples.

(** ** More of Python's strings *)

Module PyText.

(** [s.split(sep)] on a list of characters: a split at every separator. *)
Fixpoint split_all_chars (sep : ascii) (l : list ascii) : list (list ascii) :=
  match l with
  | [] => [[]]
  | c :: l' =>
      if Ascii.eqb c sep then [] :: split_all_chars sep l'
      else match split_all_chars sep l' with
           | p :: ps => (c :: p) :: ps
           | [] => [[c]]
           end
  end.

Definition split (sep : ascii) (s : string) : list string :=
  map str (split_all_chars sep (chars s)).

(** [sep.join(l)] *)
Fixpoint join (sep : string) (l : list string) : string :=
  match l with
  | [] => EmptyString
  | x :: l' =>
      match l' with
      | [] => x
      | _ => String.append x (String.append sep (join sep l'))
      end
  end.

(** [s.lower()] for the letters A to Z; other characters are kept. *)
Definition lower_char (c : ascii) : ascii :=
  let n := nat_of_ascii c in
  if ((65 <=? n) && (n <=? 90))%nat then ascii_of_nat (n + 32) else c.

Fixpoint lower (s : string) : string :=
  match s with
  | EmptyString => EmptyString
  | String c s' => String (lower_char c) (lower s')
  end.

(** A text without the separator. *)
Definition sep_free (sep : ascii) (t : string) : Prop := ~ In sep (chars t).

Definition sep_freeb (sep : ascii) (t : string) : bool :=
  forallb (fun c => negb (Ascii.eqb c sep)) (chars t).

End PyText.

Import PyText.

(** ** The cells around the labeling *)

Module Cells.

Local Open Scope string_scope.

(** Cell [cf3ce7fd]: ['_'.join(name.split('_')[0:-1])] *)
Definition curr_name (name : string) : string :=
  join "_" (removelast (split underscore name)).

(** The names the cells take apart.  A score column is named method,
    underscore, signature; cells [fbfe5384] and [cf3ce7fd] copy the
    probability column matched to the score column [key] under the name
    [key+'_gmm_'+scenario]. *)
Definition score_name (method sig : string) : string :=
  String.append method (String underscore sig).

Definition probability_name (scen method sig : string) : string :=
  String.append (score_name method sig)
    (String underscore (String.append "gmm" (String underscore scen))).

(** A column that carries the signature [sig], a name without underscore, as
    a score column and as a copied probability column. *)
Definition score_column (c sig : string) : Prop :=
  sep_free underscore sig /\ exists method, c = score_name method sig.

Definition probability_column (c sig : string) : Prop :=
  sep_free underscore sig /\
  exists scen method, sep_free underscore scen /\ c = probability_name scen method sig.

(** What an argmax cell that splits the names [maxsplit] times takes as
    input: the scores cell splits once, the probability cells three times. *)
Definition carries_signature (maxsplit : nat) (c sig : string) : Prop :=
  (maxsplit = 1%nat /\ score_column c sig) \/
  (maxsplit = 3%nat /\ probability_column c sig).




End Cells.

Import Cells.

(** ** Writing columns into the table *)

Module Store.

Local Open Scope string_scope.

(** One entity of [obs[name] = values]: an entry of that name is replaced
    where it stands, a new name becomes the last column. *)
Fixpoint row_set (name : string) (v : Q) (r : Row) : Row :=
  match r with
  | [] => [(name, v)]
  | (n, x) :: r' =>
      if String.eqb n name then (n, v) :: r' else (n, x) :: row_set name v r'
  end.

(** [obs[name] = values]: one value per entity, or [ValueError]. *)
Fixpoint setitem (obs : Frame) (name : string) (values : Series) : result Frame :=
  match obs, values with
  | [], [] => Ok []
  | r :: obs', v :: values' =>
      rest <- setitem obs' name values' ;; Ok (row_set name v r :: rest)
  | _, _ => Raise ValueError
  end.

(** [obs[new] = obs[src].copy()] *)
Definition copy_column (obs : Frame) (new src : string) : result Frame :=
  values <- column obs src ;; setitem obs new values.

(** The dictionary [assignments] that the postprocessor of the package
    returns is taken as it is read here: its entries, in order, each with a
    score column as key and a probability column as value.

    The inner loop of cell [fbfe5384]: every entry is copied under the name
    key, suffix, and that name is appended to the list of names. *)
Fixpoint store_assignments (suffix : string) (assignments : list (string * string))
  (st : Frame * list string) : result (Frame * list string) :=
  match assignments with
  | [] => Ok st
  | (key, val) :: rest =>
      obs' <- copy_column (fst st) (String.append key suffix) val ;;
      store_assignments suffix rest (obs', (snd st ++ [String.append key suffix])%list)
  end.

(** The inner loop of cell [cf3ce7fd]: the same with the key ['rest'] left
    out. *)
Fixpoint store_signatures (suffix : string) (assignments : list (string * string))
  (st : Frame * list string) : result (Frame * list string) :=
  match assignments with
  | [] => Ok st
  | (key, val) :: rest =>
      if String.eqb key "rest" then store_signatures suffix rest st
      else
        obs' <- copy_column (fst st) (String.append key suffix) val ;;
        store_signatures suffix rest (obs', (snd st ++ [String.append key suffix])%list)
  end.

(** One turn of the loop of cell [cf3ce7fd] after the assignment: the copies
    of the signatures, then the copy of the remaining component, named after
    the method of the first score column of the turn.  [rest_col] is the
    column [next(iter(assignments['rest']))]. *)
Definition store_2sigs (scoring_names : list string) (i : nat)
  (assignments : list (string * string)) (rest_col : string)
  (st : Frame * list string) : result (Frame * list string) :=
  st' <- store_signatures "_gmm_2sigs" assignments st ;;
  name <- getitem scoring_names (Z.of_nat i) ;;
  let rest_name := String.append (curr_name name) "_NK_gmm_2sigs" in
  obs' <- copy_column (fst st') rest_name rest_col ;;
  Ok (obs', (snd st' ++ [rest_name])%list).

(** Cell [893b5cf0]: the columns with gmm and without sigs in their
    lower-case name are dropped. *)
Definition unused (x : string) : bool :=
  contains "gmm" (lower x) && negb (contains "sigs" (lower x)).

Definition drop_unused (obs : Frame) : Frame :=
  map (filter (fun c => negb (unused (fst c)))) obs.

(** What the copies of a dictionary leave in each entity. *)
Definition copied (suffix : string) (assignments : list (string * string))
  (row row' : Row) : Prop :=
  (forall n, ~ In n (map (fun kv => String.append (fst kv) suffix) assignments) ->
             lookup n row' = lookup n row) /\
  (NoDup (map (fun kv => String.append (fst kv) suffix) assignments) ->
   (forall kv, In kv assignments ->
               ~ In (snd kv) (map (fun kv => String.append (fst kv) suffix) assignments)) ->
   forall kv, In kv assignments ->
              exists v, lookup (snd kv) row = Some v /\
                        lookup (String.append (fst kv) suffix) row' = Some v).

End Store.

Import Store.

(** ** More concrete tables *)

Module MoreExamples.

Local Open Scope string_scope.

(** Two entities scored by a method whose name has an underscore. *)
Definition names_ag : list string :=
  ["Seurat_AG_B"; "Seurat_AG_Mono"; "Seurat_AG_NK"].

Definition obs_ag : Frame :=
  [ [("Seurat_AG_B", 6 # 10); ("Seurat_AG_Mono", 3 # 10); ("Seurat_AG_NK", 1 # 10)];
    [("Seurat_AG_B", 2 # 10); ("Seurat_AG_Mono", 2 # 10); ("Seurat_AG_NK", 5 # 10)] ].

(** Two entities after a mixture fit with three components, and the
    dictionary that matches the score columns to the components. *)
Definition obs_gmm : Frame :=
  [ [("ANS_B", 6 # 10); ("ANS_Mono", 3 # 10); ("ANS_NK", 1 # 10);
     ("ANS_GMM_0", 2 # 10); ("ANS_GMM_1", 1 # 10); ("ANS_GMM_2", 7 # 10)];
    [("ANS_B", 2 # 10); ("ANS_Mono", 2 # 10); ("ANS_NK", 5 # 10);
     ("ANS_GMM_0", 4 # 10); ("ANS_GMM_1", 4 # 10); ("ANS_GMM_2", 2 # 10)] ].

Definition assignments3 : list (string * string) :=
  [("ANS_B", "ANS_GMM_2"); ("ANS_Mono", "ANS_GMM_0"); ("ANS_NK", "ANS_GMM_1")].

(** The entries of a two-signature dictionary other than ['rest'], whose
    first column is ["ANS_GMM_1"]. *)
Definition assignments2 : list (string * string) :=
  [("ANS_B", "ANS_GMM_2"); ("ANS_Mono", "ANS_GMM_0")].

(** Two entities scored by two methods for three signatures each; the
    second entity ties Mono and NK under the first method, B and Mono under
    the second. *)
Definition names_two : list string :=
  ["ANS_B"; "ANS_Mono"; "ANS_NK"; "UCell_B"; "UCell_Mono"; "UCell_NK"].

Definition obs_two : Frame :=
  [ [("ANS_B", 6 # 10); ("ANS_Mono", 3 # 10); ("ANS_NK", 1 # 10);
     ("UCell_B", 1 # 10); ("UCell_Mono", 2 # 10); ("UCell_NK", 7 # 10)];
    [("ANS_B", 2 # 10); ("ANS_Mono", 5 # 10); ("ANS_NK", 5 # 10);
     ("UCell_B", 4 # 10); ("UCell_Mono", 4 # 10); ("UCell_NK", 1 # 10)] ].

(** The same two entities with the probability columns as cell [fbfe5384]
    copies them. *)
Definition names_prob3 : list string :=
  ["ANS_B_gmm_3sigs"; "ANS_Mono_gmm_3sigs"; "ANS_NK_gmm_3sigs"].

Definition obs_prob3 : Frame :=
  [ [("ANS_B_gmm_3sigs", 7 # 10); ("ANS_Mono_gmm_3sigs", 2 # 10);
     ("ANS_NK_gmm_3sigs", 1 # 10)];
    [("ANS_B_gmm_3sigs", 2 # 10); ("ANS_Mono_gmm_3sigs", 4 # 10);
     ("ANS_NK_gmm_3sigs", 4 # 10)] ].



(** One entity scored for a signature whose name has an underscore. *)
Definition names_tcell : list string := ["ANS_T_cell"; "ANS_B"; "ANS_NK"].

Definition obs_tcell : Frame :=
  [ [("ANS_T_cell", 8 # 10); ("ANS_B", 1 # 10); ("ANS_NK", 1 # 10)] ].

(** One entity whose score columns are named by the signature alone, after
    the copies of cell [fbfe5384]. *)
Definition names_bare_gmm : list string :=
  map (fun key => String.append key "_gmm_3sigs") ["B"; "Mono"; "NK"].

Definition obs_bare_gmm : Frame :=
  [ [("B", 6 # 10); ("Mono", 3 # 10); ("NK", 1 # 10);
     ("B_gmm_3sigs", 7 # 10); ("Mono_gmm_3sigs", 2 # 10); ("NK_gmm_3sigs", 1 # 10)] ].

End MoreExamples.

Import MoreExamples.

(** * Properties *)

(** ** The comparison and the error monad *)

Lemma Qltb_lt (x y : Q) : Qltb x y = true <-> x < y.
Proof.
  unfold Qltb. rewrite Qlt_alt.
  destruct (x ?= y); split; intro H; congruence.
Qed.

Lemma Qltb_ge (x y : Q) : Qltb x y = false <-> y <= x.
Proof.
  split; intro H.
  - apply Qnot_lt_le. intro Hlt. apply Qltb_lt in Hlt. congruence.
  - destruct (Qltb x y) eqn:E; [|reflexivity].
    apply Qltb_lt in E. exfalso. exact (Qle_not_lt _ _ H E).
Qed.

Lemma Qltb_irrefl (x y : Q) : x == y -> Qltb x y = false.
Proof.
  intro H. apply Qltb_ge. rewrite H. apply Qle_refl.
Qed.

Lemma inject_Z_nonzero (n : Z) : n <> 0%Z -> ~ inject_Z n == 0.
Proof.
  intros Hn H. unfold Qeq in H. simpl in H. lia.
Qed.

Lemma bind_Ok {A B : Type} (m : result A) (k : A -> result B) (b : B) :
  bind m k = Ok b -> exists a, m = Ok a /\ k a = Ok b.
Proof.
  destruct m as [a|e]; simpl; intro H; [eauto | discriminate].
Qed.

Ltac inv_bind H :=
  let x := fresh "x" in
  let Hx := fresh "Hx" in
  apply bind_Ok in H; destruct H as (x & Hx & H).

Lemma mapM_Forall2 {A B : Type} (f : A -> result B) (l : list A) (bs : list B) :
  mapM f l = Ok bs <-> Forall2 (fun a b => f a = Ok b) l bs.
Proof.
  revert bs. induction l as [|a l IH]; intros bs; simpl.
  - split; intro H.
    + injection H as <-. constructor.
    + inversion H. reflexivity.
  - split; intro H.
    + inv_bind H. inv_bind H. injection H as <-.
      constructor; [assumption | now apply IH].
    + inversion H as [|? b ? bs' Hab Hrest]; subst.
      rewrite Hab. simpl. apply IH in Hrest. rewrite Hrest. reflexivity.
Qed.

Lemma mapM_length {A B : Type} (f : A -> result B) (l : list A) (bs : list B) :
  mapM f l = Ok bs -> List.length bs = List.length l.
Proof.
  intro H. apply mapM_Forall2 in H. symmetry. exact (Forall2_length H).
Qed.

Lemma Forall2_nth_error_l {A B : Type} (R : A -> B -> Prop) (l : list A) (bs : list B) :
  Forall2 R l bs ->
  forall i a, nth_error l i = Some a -> exists b, nth_error bs i = Some b /\ R a b.
Proof.
  induction 1 as [|a0 b0 l bs Hab _ IH]; intros i a Hi.
  - destruct i; discriminate.
  - destruct i as [|i]; simpl in *.
    + injection Hi as <-. eauto.
    + eauto.
Qed.

Lemma Forall2_nth_error_r {A B : Type} (R : A -> B -> Prop) (l : list A) (bs : list B) :
  Forall2 R l bs ->
  forall i b, nth_error bs i = Some b -> exists a, nth_error l i = Some a /\ R a b.
Proof.
  induction 1 as [|a0 b0 l bs Hab _ IH]; intros i b Hi.
  - destruct i; discriminate.
  - destruct i as [|i]; simpl in *.
    + injection Hi as <-. eauto.
    + eauto.
Qed.

Lemma mapM_nth_error {A B : Type} (f : A -> result B) (l : list A) (bs : list B) :
  mapM f l = Ok bs ->
  forall i a, nth_error l i = Some a -> exists b, nth_error bs i = Some b /\ f a = Ok b.
Proof.
  intro H. apply mapM_Forall2 in H. exact (Forall2_nth_error_l _ _ _ H).
Qed.



(** ** The row-wise argmax *)

(** The scan returns the name of an entry that is strictly above everything
    before it and not below anything after it. *)
Lemma argmax_scan_first_max (l pre mid : Row) (best : string * Q) :
  (forall x, In x pre -> snd x < snd best) ->
  (forall x, In x mid -> snd x <= snd best) ->
  exists pre' c post,
    pre ++ best :: mid ++ l = pre' ++ c :: post /\
    argmax_scan best l = fst c /\
    (forall x, In x pre' -> snd x < snd c) /\
    (forall x, In x post -> snd x <= snd c).
Proof.
  revert pre mid best.
  induction l as [|c0 l IH]; intros pre mid best Hpre Hmid; simpl.
  - exists pre, best, mid. rewrite app_nil_r. auto.
  - destruct (Qltb (snd best) (snd c0)) eqn:E.
    + apply Qltb_lt in E.
      destruct (IH (pre ++ best :: mid) [] c0) as (pre' & c & post & Heq & Hres & H1 & H2).
      * intros x Hx. apply in_app_or in Hx. destruct Hx as [Hx|[<-|Hx]].
        -- eapply Qlt_trans; eauto.
        -- assumption.
        -- eapply Qle_lt_trans; eauto.
      * intros x [].
      * exists pre', c, post. repeat split; try assumption.
        rewrite <- Heq. simpl. rewrite <- app_assoc. reflexivity.
    + apply Qltb_ge in E.
      destruct (IH pre (mid ++ [c0]) best) as (pre' & c & post & Heq & Hres & H1 & H2).
      * assumption.
      * intros x Hx. apply in_app_or in Hx. destruct Hx as [Hx|[<-|[]]]; auto.
      * exists pre', c, post. repeat split; try assumption.
        rewrite <- Heq. rewrite <- app_assoc. reflexivity.
Qed.

Lemma idxmax_row_first_max (r : Row) (name : string) :
  idxmax_row r = Ok name ->
  exists pre c post,
    r = pre ++ c :: post /\ name = fst c /\
    (forall x, In x pre -> snd x < snd c) /\
    (forall x, In x post -> snd x <= snd c).
Proof.
  destruct r as [|c0 r]; simpl; intro H; [discriminate|].
  injection H as <-.
  destruct (argmax_scan_first_max r [] [] c0) as (pre & c & post & Heq & Hres & H1 & H2).
  - intros x [].
  - intros x [].
  - exists pre, c, post. simpl in Heq. auto.
Qed.

Lemma select_spec (names : list string) (row r : Row) :
  select names row = Ok r ->
  map fst r = names /\ Forall (fun e => lookup (fst e) row = Some (snd e)) r.
Proof.
  unfold select. intro H. apply mapM_Forall2 in H.
  induction H as [|n e names r Hne _ [IH1 IH2]]; simpl.
  - split; constructor.
  - inv_bind Hne. injection Hne as <-. simpl.
    destruct (lookup n row) as [v|] eqn:E; simpl in Hx; [|discriminate].
    injection Hx as <-.
    split; [now rewrite IH1 | constructor; assumption].
Qed.

(** What [hard_label] computes for the entity at position [i]. *)
Lemma hard_label_nth (maxsplit : nat) (obs : Frame) (names : list string)
  (labels : list string) :
  hard_label maxsplit obs names = Ok labels ->
  forall i row, nth_error obs i = Some row ->
  exists r name label,
    select names row = Ok r /\ idxmax_row r = Ok name /\
    rsplit_item maxsplit 1 name = Ok label /\ nth_error labels i = Some label.
Proof.
  unfold hard_label, columns, idxmax, apply. intros H i row Hi.
  inv_bind H. rename x into sub. inv_bind H. rename x into curr.
  destruct (mapM_nth_error _ _ _ Hx i row Hi) as (r & Hr & Hsel).
  destruct (mapM_nth_error _ _ _ Hx0 i r Hr) as (name & Hname & Hmax).
  destruct (mapM_nth_error _ _ _ H i name Hname) as (label & Hlabel & Hsig).
  exists r, name, label. auto.
Qed.

Lemma hard_label_length (maxsplit : nat) (obs : Frame) (names : list string)
  (labels : list string) :
  hard_label maxsplit obs names = Ok labels -> List.length labels = List.length obs.
Proof.
  unfold hard_label, columns, idxmax, apply. intro H.
  inv_bind H. inv_bind H.
  apply mapM_length in Hx, Hx0, H. congruence.
Qed.

Lemma getitem_nat {A : Type} (l : list A) (i : nat) (a : A) :
  getitem l (Z.of_nat i) = Ok a <-> nth_error l i = Some a.
Proof.
  unfold getitem.
  destruct (Z.leb_spec 0 (Z.of_nat i)) as [_|Hneg]; [|lia].
  rewrite Nat2Z.id.
  destruct (nth_error l i); simpl; split; intro E; congruence.
Qed.

Lemma nth_error_seq0 (n j : nat) : (j < n)%nat -> nth_error (seq 0 n) j = Some j.
Proof.
  intro H. rewrite (nth_error_nth' _ 0%nat) by (now rewrite length_seq).
  now rewrite seq_nth.
Qed.

Lemma range_nth (stop step k i : nat) :
  nth_error (range 0 stop step) k = Some i -> i = (k * step)%nat.
Proof.
  unfold range. rewrite nth_error_map.
  destruct (nth_error (seq 0 _) k) as [j|] eqn:E; [|discriminate].
  cbn [option_map]. intro H. injection H as <-.
  assert (Hlt : (k < List.length (seq 0 ((stop - 0 + (step - 1)) / step)))%nat).
  { apply nth_error_Some. congruence. }
  rewrite length_seq in Hlt. rewrite nth_error_seq0 in E by exact Hlt.
  injection E as <-. lia.
Qed.

Lemma combine_nth_error {A B : Type} (l : list A) (l' : list B) (k : nat) (a : A) (b : B) :
  nth_error (combine l l') k = Some (a, b) ->
  nth_error l k = Some a /\ nth_error l' k = Some b.
Proof.
  revert l' k. induction l as [|x l IH]; intros [|y l'] [|k] H; simpl in *;
    try discriminate.
  - injection H as <- <-. auto.
  - auto.
Qed.

Lemma range_length (stop step : nat) :
  List.length (range 0 stop step) = ((stop + (step - 1)) / step)%nat.
Proof.
  unfold range. rewrite length_map, length_seq. now rewrite Nat.sub_0_r.
Qed.

Lemma hard_label_first_max (maxsplit : nat) (obs : Frame) (names : list string)
  (labels : list string) :
  hard_label maxsplit obs names = Ok labels ->
  forall e row, nth_error obs e = Some row ->
  exists pre c post v label,
    names = pre ++ c :: post /\
    lookup c row = Some v /\
    rsplit_item maxsplit 1 c = Ok label /\
    nth_error labels e = Some label /\
    (forall x, In x pre -> exists w, lookup x row = Some w /\ w < v) /\
    (forall x, In x post -> exists w, lookup x row = Some w /\ w <= v).
Proof.
  intros H e row He.
  destruct (hard_label_nth _ _ _ _ H e row He) as (r & name & label & Hsel & Hmax & Hsig & Hlab).
  apply select_spec in Hsel. destruct Hsel as [Hnames Hvals].
  apply idxmax_row_first_max in Hmax.
  destruct Hmax as (pre & c & post & -> & -> & Hpre & Hpost).
  rewrite map_app in Hnames. simpl in Hnames.
  apply Forall_app in Hvals. destruct Hvals as [Vpre Vpost].
  inversion Vpost as [|? ? Vc Vpost']; subst.
  exists (map fst pre), (fst c), (map fst post), (snd c), label.
  repeat split; auto.
  - intros x Hx. apply in_map_iff in Hx. destruct Hx as (y & <- & Hy).
    exists (snd y). split; [|auto].
    rewrite Forall_forall in Vpre. auto.
  - intros x Hx. apply in_map_iff in Hx. destruct Hx as (y & <- & Hy).
    exists (snd y). split; [|auto].
    rewrite Forall_forall in Vpost'. auto.
Qed.

(** The k-th column an argmax cell writes: named after the method of the
    column at position 3k, with the labels of the group that starts there. *)
Lemma HL_loop_nth (maxsplit : nat) (suffix : string) (obs : Frame)
  (scoring_names : list string) (cols : list (string * list string)) :
  HL_loop maxsplit suffix obs scoring_names = Ok cols ->
  forall k col labels, nth_error cols k = Some (col, labels) ->
  exists name method,
    nth_error scoring_names (k * 3) = Some name /\
    rsplit_item maxsplit 0 name = Ok method /\
    col = String.append method suffix /\
    hard_label maxsplit obs (slice scoring_names (k * 3) (k * 3 + 3)) = Ok labels.
Proof.
  unfold HL_loop. intros H k col labels Hk. apply mapM_Forall2 in H.
  destruct (Forall2_nth_error_r _ _ _ H k _ Hk) as (i & Hi & Hbody).
  apply range_nth in Hi. subst i.
  inv_bind Hbody. rename x into name, Hx into Hname.
  inv_bind Hbody. rename x into method, Hx into Hmethod.
  inv_bind Hbody. injection Hbody as <- <-.
  apply getitem_nat in Hname.
  exists name, method. auto.
Qed.

(** ** The rest-gated labels *)

Lemma column_nth (obs : Frame) (name : string) (s : Series) :
  column obs name = Ok s ->
  forall e row, nth_error obs e = Some row ->
  exists v, nth_error s e = Some v /\ lookup name row = Some v.
Proof.
  unfold column. intros H e row He.
  destruct (mapM_nth_error _ _ _ H e row He) as (v & Hv & Hl).
  exists v. split; [assumption|].
  destruct (lookup name row); simpl in Hl; congruence.
Qed.

Lemma mask_and_nth (m1 m2 : list bool) (e : nat) (b1 b2 : bool) :
  nth_error m1 e = Some b1 -> nth_error m2 e = Some b2 ->
  nth_error (mask_and m1 m2) e = Some (b1 && b2).
Proof.
  revert m2 e. induction m1 as [|x m1 IH]; intros [|y m2] [|e] H1 H2;
    simpl in *; try discriminate.
  - injection H1 as ->. injection H2 as ->. reflexivity.
  - auto.
Qed.

Lemma loc_set_nth (s : list string) (mask : list bool) (v : string) (e : nat)
  (a : string) (m : bool) :
  nth_error s e = Some a -> nth_error mask e = Some m ->
  nth_error (loc_set s mask v) e = Some (if m then v else a).
Proof.
  revert mask e. induction s as [|x s IH]; intros [|y mask] [|e] H1 H2;
    simpl in *; try discriminate.
  - injection H1 as ->. injection H2 as ->. reflexivity.
  - auto.
Qed.

Lemma loc_set_length (s : list string) (mask : list bool) (v : string) :
  List.length (loc_set s mask v) = List.length s.
Proof.
  revert mask. induction s as [|x s IH]; intros [|y mask]; simpl; auto.
Qed.

Lemma loc_set_In (s : list string) (mask : list bool) (v x : string) :
  In x (loc_set s mask v) -> x = v \/ In x s.
Proof.
  revert mask. induction s as [|y s IH]; intros [|m mask]; simpl;
    try (intros []; fail); auto.
  intros [H|H].
  - destruct m; auto.
  - destruct (IH _ H); auto.
Qed.

(** The label of one entity after [label_with_rest]: the remaining class
    when both scores are below their thresholds, the argmax label if not. *)
Lemma label_with_rest_nth (obs : Frame) (names : list string) (name_B name_M : string)
  (B_scores M_scores : Series) (B_thresh M_thresh : Q) (labels : list string) :
  column obs name_B = Ok B_scores ->
  column obs name_M = Ok M_scores ->
  label_with_rest obs names B_scores M_scores B_thresh M_thresh = Ok labels ->
  exists curr_val,
    hard_label 1 obs names = Ok curr_val /\
    forall e row, nth_error obs e = Some row ->
    exists b m a,
      lookup name_B row = Some b /\ lookup name_M row = Some m /\
      nth_error curr_val e = Some a /\
      nth_error labels e
      = Some (if Qltb b B_thresh && Qltb m M_thresh then rest_label else a).
Proof.
  intros HB HM H. unfold label_with_rest in H.
  inv_bind H. rename x into curr_val. injection H as <-.
  exists curr_val. split; [assumption|].
  intros e row He.
  destruct (column_nth _ _ _ HB e row He) as (b & Hb & Lb).
  destruct (column_nth _ _ _ HM e row He) as (m & Hm & Lm).
  destruct (hard_label_nth _ _ _ _ Hx e row He) as (r & name & a & _ & _ & _ & Ha).
  exists b, m, a. repeat split; try assumption.
  apply loc_set_nth; [assumption|].
  apply mask_and_nth; unfold lt_scalar.
  - rewrite nth_error_map, Hb. reflexivity.
  - rewrite nth_error_map, Hm. reflexivity.
Qed.

Lemma step_inv (obs : Frame) (scoring_names : list string) (i : nat) (threshs : list Z)
  (B_thresh M_thresh : Q) (labels : list string) :
  scores_HL_2sigs_step obs scoring_names i threshs = Ok (B_thresh, M_thresh, labels) ->
  exists name_B name_M B_scores M_scores,
    nth_error scoring_names i = Some name_B /\
    nth_error scoring_names (S i) = Some name_M /\
    column obs name_B = Ok B_scores /\
    column obs name_M = Ok M_scores /\
    get_score_threshs threshs B_scores M_scores = Ok (B_thresh, M_thresh) /\
    label_with_rest obs (slice scoring_names i (i + 2)) B_scores M_scores
                    B_thresh M_thresh = Ok labels.
Proof.
  unfold scores_HL_2sigs_step. intro H.
  inv_bind H. rename x into name_B, Hx into HnB.
  inv_bind H. rename x into B_scores, Hx into HB.
  inv_bind H. rename x into name_M, Hx into HnM.
  inv_bind H. rename x into M_scores, Hx into HM.
  inv_bind H. rename x into th, Hx into Hth.
  inv_bind H. rename x into curr, Hx into Hcurr.
  injection H as Hth' <-. subst th. simpl in Hcurr.
  apply getitem_nat in HnB.
  replace (Z.of_nat i + 1)%Z with (Z.of_nat (S i)) in HnM by lia.
  apply getitem_nat in HnM.
  exists name_B, name_M, B_scores, M_scores. auto 10.
Qed.

(** C2.  In one turn of the two-signature scores loop, an entity with B score
    [b] and Mono score [m] keeps its argmax label [a] unless [b] is strictly
    below the B threshold and [m] strictly below the Mono threshold at once,
    and then it gets the label of the remaining class.  A score equal to its
    threshold is not below it. *)
Theorem policy_B_rest_iff_below_every_threshold
  (obs : Frame) (scoring_names : list string) (i : nat) (threshs : list Z)
  (B_thresh M_thresh : Q) (labels : list string) :
  scores_HL_2sigs_step obs scoring_names i threshs = Ok (B_thresh, M_thresh, labels) ->
  exists name_B name_M curr_val,
    nth_error scoring_names i = Some name_B /\
    nth_error scoring_names (S i) = Some name_M /\
    hard_label 1 obs (slice scoring_names i (i + 2)) = Ok curr_val /\
    forall e row, nth_error obs e = Some row ->
    exists b m a l,
      lookup name_B row = Some b /\ lookup name_M row = Some m /\
      nth_error curr_val e = Some a /\ nth_error labels e = Some l /\
      (b < B_thresh /\ m < M_thresh -> l = rest_label) /\
      (~ (b < B_thresh /\ m < M_thresh) -> l = a) /\
      (b == B_thresh \/ m == M_thresh -> l = a).
Proof.
  intro H. apply step_inv in H.
  destruct H as (name_B & name_M & B_scores & M_scores & HnB & HnM & HB & HM & _ & H).
  destruct (label_with_rest_nth _ _ _ _ _ _ _ _ _ HB HM H) as (curr_val & Hcurr & Hnth).
  exists name_B, name_M, curr_val. repeat split; try assumption.
  intros e row He.
  destruct (Hnth e row He) as (b & m & a & Lb & Lm & Ha & Hl).
  exists b, m, a, (if Qltb b B_thresh && Qltb m M_thresh then rest_label else a).
  repeat split; try assumption.
  - intros [Hb Hm]. apply Qltb_lt in Hb, Hm. rewrite Hb, Hm. reflexivity.
  - intro Hn. destruct (Qltb b B_thresh) eqn:Eb; [|reflexivity].
    destruct (Qltb m M_thresh) eqn:Em; [|reflexivity].
    apply Qltb_lt in Eb, Em. tauto.
  - intros [Hb|Hm].
    + rewrite (Qltb_irrefl _ _ Hb). reflexivity.
    + rewrite (Qltb_irrefl _ _ Hm), andb_false_r. reflexivity.
Qed.

Lemma policy_B_rest_iff_below_every_threshold_witness :
  exists name_B name_M curr_val,
    nth_error names4 0 = Some name_B /\
    nth_error names4 1 = Some name_M /\
    hard_label 1 obs4 (slice names4 0 (0 + 2)) = Ok curr_val /\
    forall e row, nth_error obs4 e = Some row ->
    exists b m a l,
      lookup name_B row = Some b /\ lookup name_M row = Some m /\
      nth_error curr_val e = Some a /\
      nth_error ["B"; "Mono"; "NK"; "B"]%string e = Some l /\
      (b < 1945000 # 10000000 /\ m < 2030000 # 10000000 -> l = rest_label) /\
      (~ (b < 1945000 # 10000000 /\ m < 2030000 # 10000000) -> l = a) /\
      (b == 1945000 # 10000000 \/ m == 2030000 # 10000000 -> l = a).
Proof.
  apply (policy_B_rest_iff_below_every_threshold obs4 names4 0 [17%Z; 18%Z]).
  vm_compute. reflexivity.
Defined.

(** C3.  On the four entities with B scores 0.9, 0.1, 0.05, 0.8, Mono scores
    0.1, 0.9, 0.05, 0.75 and both thresholds 0.2, the rest-gated labels are
    B, Mono, the remaining class, B; the fourth entity is above both
    thresholds and its argmax label is B because 0.75 is strictly below
    0.8. *)
Theorem literal_scenario_labels :
  policy_B_given obs4 names4 (2 # 10) (2 # 10)
  = Ok ["B"; "Mono"; rest_label; "B"]%string
  /\ hard_label 1 obs4 names4 = Ok ["B"; "Mono"; "B"; "B"]%string
  /\ Qltb (8 # 10) (2 # 10) = false /\ Qltb (75 # 100) (2 # 10) = false
  /\ 75 # 100 < 8 # 10.
Proof.
  repeat split.
Qed.

(** ** Label columns are total and stay in the label space *)

Lemma hard_label_In (maxsplit : nat) (obs : Frame) (names : list string)
  (labels : list string) :
  hard_label maxsplit obs names = Ok labels ->
  forall l, In l labels ->
  exists c, In c names /\ rsplit_item maxsplit 1 c = Ok l.
Proof.
  intros H l Hl.
  apply In_nth_error in Hl. destruct Hl as [e He].
  assert (Hlen := hard_label_length _ _ _ _ H).
  assert (Hlt : (e < List.length obs)%nat).
  { rewrite <- Hlen. apply nth_error_Some. congruence. }
  apply nth_error_Some in Hlt.
  destruct (nth_error obs e) as [row|] eqn:Hrow; [|congruence].
  destruct (hard_label_first_max _ _ _ _ H e row Hrow)
    as (pre & c & post & v & label & -> & _ & Hsig & Hlab & _).
  exists c. split.
  - apply in_or_app. right. left. reflexivity.
  - congruence.
Qed.


(** ** Pieces of a split name *)

Lemma block_cons (c : ascii) (p l : list ascii) : block p l -> block p (c :: l).
Proof.
  intros (a & b & ->). exists (c :: a), b. reflexivity.
Qed.

Lemma split_chars_cons (sep : ascii) (m : nat) (c : ascii) (l : list ascii) :
  split_chars sep (S m) (c :: l)
  = if Ascii.eqb c sep then [] :: split_chars sep m l
    else match split_chars sep (S m) l with
         | p :: ps => (c :: p) :: ps
         | [] => [[c]]
         end.
Proof. reflexivity. Qed.

(** The first piece of a split is a prefix and every other piece a block. *)
Lemma split_chars_shape (sep : ascii) (m : nat) (l : list ascii) :
  exists q qs,
    split_chars sep m l = q :: qs /\ (exists b, l = q ++ b) /\
    Forall (fun p => block p l) qs.
Proof.
  revert l. induction m as [|m IHm]; intro l.
  - exists l, []. simpl. repeat split.
    + exists []. now rewrite app_nil_r.
    + constructor.
  - induction l as [|c l IHl].
    + exists [], []. repeat split; [now exists [] | constructor].
    + rewrite split_chars_cons. destruct (Ascii.eqb c sep).
      * destruct (IHm l) as (q & qs & Hq & [b Hb] & Hqs).
        exists [], (split_chars sep m l). repeat split.
        -- now exists (c :: l).
        -- rewrite Hq. constructor.
           ++ exists [c], b. simpl. now rewrite Hb.
           ++ eapply Forall_impl; [|exact Hqs].
              intros p Hp. now apply block_cons.
      * destruct IHl as (q & qs & Hq & [b Hb] & Hqs). rewrite Hq.
        exists (c :: q), qs. repeat split.
        -- exists b. simpl. now rewrite Hb.
        -- eapply Forall_impl; [|exact Hqs].
           intros p Hp. now apply block_cons.
Qed.

Lemma split_chars_block (sep : ascii) (m : nat) (l p : list ascii) :
  In p (split_chars sep m l) -> block p l.
Proof.
  destruct (split_chars_shape sep m l) as (q & qs & -> & [b Hb] & Hqs).
  intros [<-|Hin].
  - exists [], b. exact Hb.
  - rewrite Forall_forall in Hqs. auto.
Qed.

Lemma str_app (a b : list ascii) : str (a ++ b) = String.append (str a) (str b).
Proof.
  induction a as [|c a IH]; simpl; [reflexivity|].
  unfold str in *. simpl. now rewrite IH.
Qed.

Lemma split_chars_prefix (sep : ascii) (m : nat) (p l : list ascii) :
  ~ In sep p ->
  split_chars sep (S m) (p ++ sep :: l) = p :: split_chars sep m l.
Proof.
  induction p as [|c p IH]; intro Hp.
  - simpl app. rewrite split_chars_cons, Ascii.eqb_refl. reflexivity.
  - simpl app. rewrite split_chars_cons.
    destruct (Ascii.eqb_spec c sep) as [->|_].
    + exfalso. apply Hp. now left.
    + rewrite IH; [reflexivity|]. intro H. apply Hp. now right.
Qed.

Lemma split_chars_free (sep : ascii) (m : nat) (p : list ascii) :
  ~ In sep p -> split_chars sep m p = [p].
Proof.
  destruct m as [|m]; [reflexivity|].
  induction p as [|c p IH]; intro Hp; [reflexivity|].
  rewrite split_chars_cons.
  destruct (Ascii.eqb_spec c sep) as [->|_].
  - exfalso. apply Hp. now left.
  - rewrite IH; [reflexivity|]. intro H. apply Hp. now right.
Qed.

Lemma chars_app (s t : string) : chars (String.append s t) = chars s ++ chars t.
Proof.
  unfold chars. induction s as [|c s IH]; simpl; [reflexivity|]. now rewrite IH.
Qed.

Lemma str_chars (s : string) : str (chars s) = s.
Proof. apply string_of_list_ascii_of_string. Qed.

Lemma chars_str (l : list ascii) : chars (str l) = l.
Proof. apply list_ascii_of_string_of_list_ascii. Qed.

(** Splitting once more from the right takes off a last part without
    separator. *)
Lemma rsplit_append (sep : ascii) (m : nat) (s t : string) :
  sep_free sep t ->
  rsplit sep (S m) (String.append s (String sep t)) = rsplit sep m s ++ [t].
Proof.
  intro Ht. unfold rsplit.
  rewrite chars_app. change (chars (String sep t)) with (sep :: chars t).
  rewrite rev_app_distr. cbn [rev]. rewrite <- app_assoc. cbn [app].
  rewrite split_chars_prefix.
  - cbn [map rev]. rewrite rev_involutive, str_chars. reflexivity.
  - intro H. apply in_rev in H. exact (Ht H).
Qed.

Lemma rsplit_free (sep : ascii) (m : nat) (t : string) :
  sep_free sep t -> rsplit sep m t = [t].
Proof.
  intro Ht. unfold rsplit. rewrite split_chars_free.
  - simpl. now rewrite rev_involutive, str_chars.
  - intro H. apply in_rev in H. exact (Ht H).
Qed.

Lemma sep_freeb_spec (sep : ascii) (t : string) :
  sep_freeb sep t = true -> sep_free sep t.
Proof.
  unfold sep_freeb, sep_free. rewrite forallb_forall. intros H Hin.
  specialize (H sep Hin). rewrite Ascii.eqb_refl in H. discriminate.
Qed.

Lemma rsplit_zero (sep : ascii) (s : string) : rsplit sep 0 s = [s].
Proof.
  unfold rsplit. cbn [split_chars map rev app]. now rewrite rev_involutive, str_chars.
Qed.

Lemma str_append_assoc (a b c : string) :
  String.append (String.append a b) c = String.append a (String.append b c).
Proof.
  induction a as [|x a IH]; simpl; [reflexivity|]. now rewrite IH.
Qed.

(** A name made of a method, a mode, a tag and a scenario reads back as these
    four parts, whatever underscores the method has. *)
Lemma rsplit_four_parts (method mode tag scen : string) :
  sep_free underscore mode -> sep_free underscore tag -> sep_free underscore scen ->
  rsplit underscore 3
    (String.append method
       (String underscore
          (String.append mode
             (String underscore (String.append tag (String underscore scen))))))
  = [method; mode; tag; scen].
Proof.
  intros Hm Ht Hs.
  replace (String.append method
             (String underscore
                (String.append mode
                   (String underscore (String.append tag (String underscore scen))))))
    with (String.append
            (String.append (String.append method (String underscore mode))
                           (String underscore tag))
            (String underscore scen)).
  - rewrite (rsplit_append underscore 2 _ scen Hs).
    rewrite (rsplit_append underscore 1 _ tag Ht).
    rewrite (rsplit_append underscore 0 _ mode Hm).
    rewrite rsplit_zero. reflexivity.
  - rewrite !str_append_assoc. cbn [String.append].
    rewrite ?str_append_assoc. reflexivity.
Qed.

(** Every piece of [s.rsplit(sep, maxsplit)] occurs in [s]. *)
Lemma rsplit_piece (sep : ascii) (m : nat) (s p : string) :
  In p (rsplit sep m s) ->
  exists a b, s = String.append a (String.append p b).
Proof.
  unfold rsplit. intro H. apply in_rev in H.
  apply in_map_iff in H. destruct H as (q & <- & Hq).
  apply split_chars_block in Hq. destruct Hq as (a & b & Hab).
  exists (str (rev b)), (str (rev a)).
  rewrite <- !str_app.
  assert (E : chars s = rev b ++ rev q ++ rev a).
  { rewrite <- (rev_involutive (chars s)), Hab, !rev_app_distr, <- app_assoc.
    reflexivity. }
  rewrite <- E. unfold str, chars. symmetry.
  apply string_of_list_ascii_of_string.
Qed.

Lemma prefix_append (p b : string) : String.prefix p (String.append p b) = true.
Proof.
  induction p as [|c p IH]; simpl.
  - destruct b; reflexivity.
  - destruct (ascii_dec c c); [assumption | congruence].
Qed.

Lemma contains_append (p a b : string) :
  contains p (String.append a (String.append p b)) = true.
Proof.
  induction a as [|c a IH]; simpl.
  - assert (H := prefix_append p b).
    destruct (String.append p b); cbn [contains]; rewrite H; reflexivity.
  - rewrite IH. apply orb_true_r.
Qed.

Lemma getitem_In {A : Type} (l : list A) (i : Z) (a : A) :
  getitem l i = Ok a -> In a l.
Proof.
  unfold getitem.
  destruct (0 <=? i)%Z; [|destruct (- Z.of_nat (List.length l) <=? i)%Z];
    try discriminate;
    match goal with
    | |- of_option _ (nth_error l ?k) = _ -> _ =>
        destruct (nth_error l k) eqn:E; simpl; intro H; [|discriminate];
        injection H as <-; exact (nth_error_In _ _ E)
    end.
Qed.

(** A column kept for the two-signature scenario never yields the label of
    the remaining class as a piece of its name. *)
Lemma two_sigs_name_not_rest (scoring_names_3_sigs : list string)
  (maxsplit : nat) (k : Z) (x label : string) :
  In x (scoring_names_2_sigs scoring_names_3_sigs) ->
  rsplit_item maxsplit k x = Ok label -> label <> rest_label.
Proof.
  unfold scoring_names_2_sigs, rsplit_item. intros Hin Hget ->.
  apply filter_In in Hin. destruct Hin as [_ Hno].
  apply getitem_In, rsplit_piece in Hget. destruct Hget as (a & b & E).
  rewrite E in Hno. unfold rest_label in Hno.
  rewrite contains_append in Hno. discriminate.
Qed.

Lemma slice_In {A : Type} (l : list A) (i j : nat) (x : A) :
  In x (slice l i j) -> In x l.
Proof.
  unfold slice. intro H.
  rewrite <- (firstn_skipn i l). apply in_or_app. right.
  rewrite <- (firstn_skipn (j - i) (skipn i l)). apply in_or_app. left.
  exact H.
Qed.

Lemma slice_two {A : Type} (l : list A) (i : nat) (a b : A) :
  nth_error l i = Some a -> nth_error l (S i) = Some b ->
  slice l i (i + 2) = [a; b].
Proof.
  unfold slice. replace (i + 2 - i)%nat with 2%nat by lia.
  revert l. induction i as [|i IH]; intros [|x l] Ha Hb; simpl in *;
    try discriminate.
  - destruct l; simpl in *; [discriminate|]. congruence.
  - auto.
Qed.

Lemma get_score_threshs_inv (selected_thresh : list Z) (scores_B scores_Mono : Series)
  (thresh_one thresh_two : Q) :
  get_score_threshs selected_thresh scores_B scores_Mono = Ok (thresh_one, thresh_two) ->
  exists i_one i_two,
    nth_error selected_thresh 0 = Some i_one /\
    nth_error selected_thresh 1 = Some i_two /\
    getitem (snd (histogram scores_B)) i_one = Ok thresh_one /\
    getitem (snd (histogram scores_Mono)) i_two = Ok thresh_two.
Proof.
  unfold get_score_threshs. intro H.
  inv_bind H. rename x into i_one, Hx into H0.
  inv_bind H. rename x into t1, Hx into H1.
  inv_bind H. rename x into i_two, Hx into H2.
  inv_bind H. rename x into t2, Hx into H3.
  injection H as <- <-.
  exists i_one, i_two.
  apply (getitem_nat selected_thresh 0) in H0.
  apply (getitem_nat selected_thresh 1) in H2. auto.
Qed.

(** C5.  In one turn of the two-signature scores loop the thresholds are the
    entries of the two bin-edge arrays at the selected indices, and the
    entities that end with the label of the remaining class are exactly those
    whose B score is below the B threshold and whose Mono score is below the
    Mono threshold. *)
Theorem rest_set_equals_threshold_comparison
  (obs : Frame) (scoring_names_3_sigs : list string) (i : nat) (threshs : list Z)
  (B_thresh M_thresh : Q) (labels : list string) :
  scores_HL_2sigs_step obs (scoring_names_2_sigs scoring_names_3_sigs) i threshs
  = Ok (B_thresh, M_thresh, labels) ->
  exists name_B name_M B_scores M_scores i_one i_two,
    nth_error (scoring_names_2_sigs scoring_names_3_sigs) i = Some name_B /\
    nth_error (scoring_names_2_sigs scoring_names_3_sigs) (S i) = Some name_M /\
    column obs name_B = Ok B_scores /\
    column obs name_M = Ok M_scores /\
    nth_error threshs 0 = Some i_one /\
    nth_error threshs 1 = Some i_two /\
    getitem (snd (histogram B_scores)) i_one = Ok B_thresh /\
    getitem (snd (histogram M_scores)) i_two = Ok M_thresh /\
    List.length labels = List.length obs /\
    forall e row, nth_error obs e = Some row ->
    exists b m l,
      lookup name_B row = Some b /\ lookup name_M row = Some m /\
      nth_error labels e = Some l /\
      (l = rest_label <-> b < B_thresh /\ m < M_thresh).
Proof.
  intro H. apply step_inv in H.
  destruct H as (name_B & name_M & B_scores & M_scores & HnB & HnM & HB & HM & Hth & H).
  destruct (get_score_threshs_inv _ _ _ _ _ Hth) as (i_one & i_two & H0 & H1 & E1 & E2).
  destruct (label_with_rest_nth _ _ _ _ _ _ _ _ _ HB HM H) as (curr_val & Hcurr & Hnth).
  exists name_B, name_M, B_scores, M_scores, i_one, i_two.
  do 8 (split; [assumption|]).
  split.
  - unfold label_with_rest in H. inv_bind H. injection H as <-.
    rewrite loc_set_length. exact (hard_label_length _ _ _ _ Hx).
  - intros e row He.
    destruct (Hnth e row He) as (b & m & a & Lb & Lm & Ha & Hl).
    exists b, m, (if Qltb b B_thresh && Qltb m M_thresh then rest_label else a).
    do 3 (split; [assumption|]).
    assert (Hne : a <> rest_label).
    { destruct (hard_label_In _ _ _ _ Hcurr a (nth_error_In _ _ Ha)) as (c & Hc & Hsig).
      apply slice_In in Hc.
      exact (two_sigs_name_not_rest _ _ _ _ _ Hc Hsig). }
    destruct (Qltb b B_thresh) eqn:Eb; simpl.
    + apply Qltb_lt in Eb. destruct (Qltb m M_thresh) eqn:Em.
      * apply Qltb_lt in Em. tauto.
      * apply Qltb_ge in Em. split; [tauto|].
        intros [_ Hm]. exfalso. exact (Qle_not_lt _ _ Em Hm).
    + apply Qltb_ge in Eb. split; [tauto|].
      intros [Hb _]. exfalso. exact (Qle_not_lt _ _ Eb Hb).
Qed.

Lemma rest_set_equals_threshold_comparison_witness :
  exists name_B name_M B_scores M_scores i_one i_two,
    nth_error (scoring_names_2_sigs names3) 0 = Some name_B /\
    nth_error (scoring_names_2_sigs names3) 1 = Some name_M /\
    column obs4 name_B = Ok B_scores /\
    column obs4 name_M = Ok M_scores /\
    nth_error [17%Z; 18%Z] 0 = Some i_one /\
    nth_error [17%Z; 18%Z] 1 = Some i_two /\
    getitem (snd (histogram B_scores)) i_one = Ok (1945000 # 10000000) /\
    getitem (snd (histogram M_scores)) i_two = Ok (2030000 # 10000000) /\
    List.length ["B"; "Mono"; "NK"; "B"]%string = List.length obs4 /\
    forall e row, nth_error obs4 e = Some row ->
    exists b m l,
      lookup name_B row = Some b /\ lookup name_M row = Some m /\
      nth_error ["B"; "Mono"; "NK"; "B"]%string e = Some l /\
      (l = rest_label <-> b < 1945000 # 10000000 /\ m < 2030000 # 10000000).
Proof.
  apply (rest_set_equals_threshold_comparison obs4 names3 0 [17%Z; 18%Z]).
  vm_compute. reflexivity.
Defined.

(** ** Labels and signature names *)

Lemma rsplit_score_name (method sig : string) :
  sep_free underscore sig ->
  rsplit underscore 1 (score_name method sig) = [method; sig].
Proof.
  intro H. unfold score_name.
  rewrite (rsplit_append underscore 0 method sig H), rsplit_zero. reflexivity.
Qed.

Lemma rsplit_probability_name (scen method sig : string) :
  sep_free underscore sig -> sep_free underscore scen ->
  rsplit underscore 3 (probability_name scen method sig)
  = [method; sig; "gmm"%string; scen].
Proof.
  intros Hsig Hscen. unfold probability_name, score_name.
  rewrite str_append_assoc.
  exact (rsplit_four_parts method sig "gmm" scen Hsig
           ltac:(apply sep_freeb_spec; reflexivity) Hscen).
Qed.

Lemma score_column_signature (c sig : string) :
  score_column c sig -> rsplit_item 1 1 c = Ok sig.
Proof.
  intros [Hsig [method ->]]. unfold rsplit_item.
  rewrite (rsplit_score_name method sig Hsig). reflexivity.
Qed.

Lemma probability_column_signature (c sig : string) :
  probability_column c sig -> rsplit_item 3 1 c = Ok sig.
Proof.
  intros [Hsig (scen & method & Hscen & ->)]. unfold rsplit_item.
  rewrite (rsplit_probability_name scen method sig Hsig Hscen). reflexivity.
Qed.

(** When every selected column carries a signature, the labels are among
    these signatures. *)
Lemma labels_among_signatures (R : string -> string -> Prop) (maxsplit : nat)
  (obs : Frame) (names labels sigs : list string) :
  (forall c sig, R c sig -> rsplit_item maxsplit 1 c = Ok sig) ->
  hard_label maxsplit obs names = Ok labels ->
  Forall2 R names sigs ->
  forall l, In l labels -> In l sigs.
Proof.
  intros HR H HF l Hl.
  destruct (hard_label_In _ _ _ _ H l Hl) as (c & Hc & Hsig).
  apply In_nth_error in Hc. destruct Hc as [n Hn].
  destruct (Forall2_nth_error_l _ _ _ HF n c Hn) as (sig & Hs & HRc).
  rewrite (HR _ _ HRc) in Hsig. injection Hsig as <-.
  exact (nth_error_In _ _ Hs).
Qed.

Lemma HL_loop_labels_among_signatures (R : string -> string -> Prop)
  (maxsplit : nat) (suffix : string) (obs : Frame) (scoring_names : list string)
  (cols : list (string * list string)) :
  (forall c sig, R c sig -> rsplit_item maxsplit 1 c = Ok sig) ->
  HL_loop maxsplit suffix obs scoring_names = Ok cols ->
  forall k col labels, nth_error cols k = Some (col, labels) ->
  List.length labels = List.length obs /\
  forall sigs,
    Forall2 R (slice scoring_names (k * 3) (k * 3 + 3)) sigs ->
    forall l, In l labels -> In l sigs.
Proof.
  intros HR H k col labels Hk.
  destruct (HL_loop_nth _ _ _ _ _ H k col labels Hk) as (_ & _ & _ & _ & _ & Hlab).
  split.
  - exact (hard_label_length _ _ _ _ Hlab).
  - intros sigs HF. exact (labels_among_signatures R _ _ _ _ _ HR Hlab HF).
Qed.

(** The k-th column of the two-signature scores cell: named after the k-th
    key of the selection, labelled by the turn at position 2k. *)
Lemma scores_HL_2sigs_nth (obs : Frame) (scoring_names : list string)
  (selected_thresh : list (string * list Z)) (cols : list (string * list string)) :
  scores_HL_2sigs obs scoring_names selected_thresh = Ok cols ->
  forall k col labels, nth_error cols k = Some (col, labels) ->
  exists method threshs B_thresh M_thresh,
    nth_error selected_thresh k = Some (method, threshs) /\
    col = String.append method "_scores_HL_2sigs" /\
    scores_HL_2sigs_step obs scoring_names (k * 2) threshs
    = Ok (B_thresh, M_thresh, labels).
Proof.
  unfold scores_HL_2sigs. intros H k col labels Hk. apply mapM_Forall2 in H.
  destruct (Forall2_nth_error_r _ _ _ H k _ Hk) as ([[method threshs] i] & Hi & Hstep).
  apply combine_nth_error in Hi. destruct Hi as [Hsel Hrange].
  apply range_nth in Hrange. subst i.
  inv_bind Hstep. destruct x as [[B_thresh M_thresh] labels'].
  injection Hstep as <- <-.
  exists method, threshs, B_thresh, M_thresh. auto.
Qed.

Lemma carries_signature_label (maxsplit : nat) (c sig : string) :
  carries_signature maxsplit c sig -> rsplit_item maxsplit 1 c = Ok sig.
Proof.
  intros [[-> H]|[-> H]].
  - exact (score_column_signature c sig H).
  - exact (probability_column_signature c sig H).
Qed.

(** C1, as the code has it.  The k-th label column written by an argmax cell
    (scores or probabilities, three or two signatures) is named after the
    method of the column at position 3k of the list of names, and it labels
    the entities from its own group [scoring_names[3k:3k+3]]: each entity
    gets the part that the cell reads as the signature from the name of a
    column of that group whose entry is the largest of the entity's entries
    in the group; every column listed before it in the group holds a
    strictly smaller value, every column listed after it a value that is not
    larger, so among tied columns the first listed one names the label.
    When that column is named method, signature (for probabilities method,
    signature, gmm, scenario) with a signature without underscore, the label
    is this signature. *)
Theorem policy_A_label_is_first_argmax
  (maxsplit : nat) (suffix : string) (obs : Frame) (scoring_names : list string)
  (cols : list (string * list string)) :
  HL_loop maxsplit suffix obs scoring_names = Ok cols ->
  forall k col labels, nth_error cols k = Some (col, labels) ->
  (exists name method,
      nth_error scoring_names (k * 3) = Some name /\
      rsplit_item maxsplit 0 name = Ok method /\
      col = String.append method suffix) /\
  forall e row, nth_error obs e = Some row ->
  exists pre c post v label,
    slice scoring_names (k * 3) (k * 3 + 3) = pre ++ c :: post /\
    lookup c row = Some v /\
    rsplit_item maxsplit 1 c = Ok label /\
    nth_error labels e = Some label /\
    (forall sig, carries_signature maxsplit c sig -> label = sig) /\
    (forall x, In x pre -> exists w, lookup x row = Some w /\ w < v) /\
    (forall x, In x post -> exists w, lookup x row = Some w /\ w <= v).
Proof.
  intros H k col labels Hk.
  destruct (HL_loop_nth _ _ _ _ _ H k col labels Hk)
    as (name & method & Hname & Hmethod & Hcol & Hlab).
  split.
  - exists name, method. auto.
  - intros e row He.
    destruct (hard_label_first_max _ _ _ _ Hlab e row He)
      as (pre & c & post & v & label & Hsplit & Hv & Hsig & Hl & Hpre & Hpost).
    exists pre, c, post, v, label. do 4 (split; [assumption|]).
    split; [|split; assumption].
    intros sig Hc. apply carries_signature_label in Hc. congruence.
Qed.

(** The second of two methods: its column is named after it and labels the
    entities from its own three columns, the tie going to the first one. *)
Lemma policy_A_label_is_first_argmax_witness :
  (exists name method,
      nth_error names_two (1 * 3) = Some name /\
      rsplit_item 1 0 name = Ok method /\
      "UCell_scores_HL_3sigs"%string = String.append method "_scores_HL_3sigs") /\
  forall e row, nth_error obs_two e = Some row ->
  exists pre c post v label,
    slice names_two (1 * 3) (1 * 3 + 3) = pre ++ c :: post /\
    lookup c row = Some v /\
    rsplit_item 1 1 c = Ok label /\
    nth_error ["NK"; "B"]%string e = Some label /\
    (forall sig, carries_signature 1 c sig -> label = sig) /\
    (forall x, In x pre -> exists w, lookup x row = Some w /\ w < v) /\
    (forall x, In x post -> exists w, lookup x row = Some w /\ w <= v).
Proof.
  apply (policy_A_label_is_first_argmax 1 "_scores_HL_3sigs" obs_two names_two
           [("ANS_scores_HL_3sigs", ["B"; "Mono"]);
            ("UCell_scores_HL_3sigs", ["NK"; "B"])]%string).
  - vm_compute. reflexivity.
  - reflexivity.
Defined.

(** A label that is not the signature name of the argmax column.  The score
    column of the signature T_cell under the method ANS holds the largest
    entry of the entity, and the entity is labelled cell, in a column named
    after a method ANS_T. *)
Lemma argmax_label_cuts_signature_name :
  names_tcell = map (score_name "ANS") ["T_cell"; "B"; "NK"]%string /\
  (exists row v,
      nth_error obs_tcell 0 = Some row /\
      lookup (score_name "ANS" "T_cell") row = Some v /\
      forall c w, In c names_tcell -> lookup c row = Some w -> w <= v) /\
  scores_HL_3sigs obs_tcell names_tcell
  = Ok [("ANS_T_scores_HL_3sigs", ["cell"])]%string /\
  "cell"%string <> "T_cell"%string.
Proof.
  split; [reflexivity|]. split; [|split; [vm_compute; reflexivity | discriminate]].
  eexists. exists (8 # 10). split; [reflexivity|]. split; [reflexivity|].
  intros c w [<-|[<-|[<-|[]]]] Hw; vm_compute in Hw; injection Hw as <-; discriminate.
Qed.

(** C9, as the code has it.  The k-th label column of every labeling cell has
    one label per entity of the table.  When the columns of its own group
    (positions 3k to 3k+2 for the argmax cells, 2k and 2k+1 for the
    two-signature scores cell) are named method, signature for scores, or
    method, signature, gmm, scenario for probabilities, with signatures that
    have no underscore, every label of the column is one of the signatures
    of that group, or, in the two-signature scores cell, the label of the
    remaining class. *)
Theorem label_columns_cover_entities_within_label_space
  (obs : Frame) (scoring_names : list string) :
  (forall cols,
      scores_HL_3sigs obs scoring_names = Ok cols ->
      forall k col labels, nth_error cols k = Some (col, labels) ->
      List.length labels = List.length obs /\
      forall sigs,
        Forall2 score_column (slice scoring_names (k * 3) (k * 3 + 3)) sigs ->
        forall l, In l labels -> In l sigs)
  /\
  (forall cols,
      probabilities_HL_3sigs obs scoring_names = Ok cols ->
      forall k col labels, nth_error cols k = Some (col, labels) ->
      List.length labels = List.length obs /\
      forall sigs,
        Forall2 probability_column (slice scoring_names (k * 3) (k * 3 + 3)) sigs ->
        forall l, In l labels -> In l sigs)
  /\
  (forall cols,
      probabilities_HL_2sigs obs scoring_names = Ok cols ->
      forall k col labels, nth_error cols k = Some (col, labels) ->
      List.length labels = List.length obs /\
      forall sigs,
        Forall2 probability_column (slice scoring_names (k * 3) (k * 3 + 3)) sigs ->
        forall l, In l labels -> In l sigs)
  /\
  (forall selected_thresh cols,
      scores_HL_2sigs obs scoring_names selected_thresh = Ok cols ->
      forall k col labels, nth_error cols k = Some (col, labels) ->
      List.length labels = List.length obs /\
      forall sigs,
        Forall2 score_column (slice scoring_names (k * 2) (k * 2 + 2)) sigs ->
        forall l, In l labels -> l = rest_label \/ In l sigs).
Proof.
  split; [|split; [|split]].
  - intros cols H.
    exact (HL_loop_labels_among_signatures score_column 1 _ obs scoring_names cols
             score_column_signature H).
  - intros cols H.
    exact (HL_loop_labels_among_signatures probability_column 3 _ obs scoring_names cols
             probability_column_signature H).
  - intros cols H.
    exact (HL_loop_labels_among_signatures probability_column 3 _ obs scoring_names cols
             probability_column_signature H).
  - intros selected_thresh cols H k col labels Hk.
    destruct (scores_HL_2sigs_nth _ _ _ _ H k col labels Hk)
      as (method & threshs & B_thresh & M_thresh & _ & _ & Hstep).
    apply step_inv in Hstep.
    destruct Hstep as (_ & _ & B_scores & M_scores & _ & _ & _ & _ & _ & Hl).
    unfold label_with_rest in Hl. inv_bind Hl. injection Hl as <-.
    split.
    + rewrite loc_set_length. exact (hard_label_length _ _ _ _ Hx).
    + intros sigs HF l Hin. apply loc_set_In in Hin. destruct Hin as [->|Hin].
      * left. reflexivity.
      * right.
        exact (labels_among_signatures score_column _ _ _ _ _
                 score_column_signature Hx HF l Hin).
Qed.

(** The column of the second of two methods, the column of a probability
    cell, and the column of the two-signature scores cell with an entity of
    the remaining class. *)
Lemma label_columns_cover_entities_within_label_space_witness :
  (List.length ["NK"; "B"]%string = List.length obs_two /\
   forall l, In l ["NK"; "B"]%string -> In l ["B"; "Mono"; "NK"]%string)
  /\
  (List.length ["B"; "Mono"]%string = List.length obs_prob3 /\
   forall l, In l ["B"; "Mono"]%string -> In l ["B"; "Mono"; "NK"]%string)
  /\
  (List.length ["B"; "Mono"; "NK"; "B"]%string = List.length obs4 /\
   forall l, In l ["B"; "Mono"; "NK"; "B"]%string ->
             l = rest_label \/ In l ["B"; "Mono"]%string).
Proof.
  assert (Hfree : forall sig : string,
             sep_freeb underscore sig = true -> sep_free underscore sig).
  { intro sig. apply sep_freeb_spec. }
  split; [|split].
  - destruct (proj1 (label_columns_cover_entities_within_label_space obs_two names_two)
                [("ANS_scores_HL_3sigs", ["B"; "Mono"]);
                 ("UCell_scores_HL_3sigs", ["NK"; "B"])]%string
                ltac:(vm_compute; reflexivity)
                1%nat "UCell_scores_HL_3sigs"%string ["NK"; "B"]%string eq_refl)
      as [Hlen Hin].
    split; [exact Hlen|]. apply Hin.
    repeat constructor; try (apply Hfree; reflexivity);
      exists "UCell"%string; reflexivity.
  - destruct (proj1 (proj2 (label_columns_cover_entities_within_label_space
                              obs_prob3 names_prob3))
                [("ANS_probabilities_HL_3sigs", ["B"; "Mono"])]%string
                ltac:(vm_compute; reflexivity)
                0%nat "ANS_probabilities_HL_3sigs"%string ["B"; "Mono"]%string eq_refl)
      as [Hlen Hin].
    split; [exact Hlen|]. apply Hin.
    repeat constructor; try (apply Hfree; reflexivity);
      exists "3sigs"%string, "ANS"%string;
      (split; [apply Hfree; reflexivity | reflexivity]).
  - destruct (proj2 (proj2 (proj2 (label_columns_cover_entities_within_label_space
                                     obs4 names4)))
                [("ANS", [17%Z; 18%Z])]%string
                [("ANS_scores_HL_2sigs", ["B"; "Mono"; "NK"; "B"])]%string
                ltac:(vm_compute; reflexivity)
                0%nat "ANS_scores_HL_2sigs"%string ["B"; "Mono"; "NK"; "B"]%string eq_refl)
      as [Hlen Hin].
    split; [exact Hlen|]. apply Hin.
    repeat constructor; try (apply Hfree; reflexivity);
      exists "ANS"%string; reflexivity.
Defined.

(** Labels that are no signature names.  A signature with an underscore in
    its name is cut at it: the column of T_cell gives the label cell.  Score
    columns named by the signature alone give, after the copies of cell
    [fbfe5384], the label gmm to every entity. *)
Lemma label_outside_signature_names :
  (names_tcell = map (score_name "ANS") ["T_cell"; "B"; "NK"]%string /\
   scores_HL_3sigs obs_tcell names_tcell
   = Ok [("ANS_T_scores_HL_3sigs", ["cell"])]%string /\
   ~ In "cell"%string ["T_cell"; "B"; "NK"]%string /\
   "cell"%string <> rest_label)
  /\
  (probabilities_HL_3sigs obs_bare_gmm names_bare_gmm
   = Ok [("B_probabilities_HL_3sigs", ["gmm"])]%string /\
   ~ In "gmm"%string ["B"; "Mono"; "NK"]%string /\
   "gmm"%string <> rest_label).
Proof.
  split; [split; [reflexivity|]|]; (split; [vm_compute; reflexivity|]); split.
  - simpl. intros [H|[H|[H|[]]]]; discriminate.
  - discriminate.
  - simpl. intros [H|[H|[H|[]]]]; discriminate.
  - discriminate.
Qed.

(** ** The scores path reads the two score columns only *)

Lemma mapM_map {A B C : Type} (f : B -> result C) (g : A -> B) (l : list A) :
  mapM f (map g l) = mapM (fun a => f (g a)) l.
Proof.
  induction l as [|a l IH]; simpl; [reflexivity|]. now rewrite IH.
Qed.

Lemma column_ext (obs1 obs2 : Frame) (name : string) :
  map (lookup name) obs1 = map (lookup name) obs2 ->
  column obs1 name = column obs2 name.
Proof.
  intro H. unfold column.
  rewrite <- (mapM_map (of_option KeyError) (lookup name) obs1).
  rewrite <- (mapM_map (of_option KeyError) (lookup name) obs2).
  now rewrite H.
Qed.

Lemma select_ext (names : list string) (r1 r2 : Row) :
  (forall n, In n names -> lookup n r1 = lookup n r2) ->
  select names r1 = select names r2.
Proof.
  unfold select. induction names as [|n names IH]; intro H; simpl; [reflexivity|].
  rewrite (H n (or_introl eq_refl)), IH; [reflexivity|].
  intros n' Hn'. apply H. now right.
Qed.

Lemma columns_ext (names : list string) (obs1 obs2 : Frame) :
  names <> [] ->
  (forall n, In n names -> map (lookup n) obs1 = map (lookup n) obs2) ->
  columns obs1 names = columns obs2 names.
Proof.
  intros Hne. destruct names as [|n0 names]; [congruence|]. clear Hne.
  revert obs2. induction obs1 as [|r1 obs1 IH]; intros obs2 H.
  - specialize (H n0 (or_introl eq_refl)). simpl in H.
    symmetry in H. apply map_eq_nil in H. now subst.
  - destruct obs2 as [|r2 obs2].
    + specialize (H n0 (or_introl eq_refl)). discriminate.
    + unfold columns in *. simpl.
      rewrite (select_ext (n0 :: names) r1 r2).
      * rewrite (IH obs2); [reflexivity|].
        intros n Hn. specialize (H n Hn). simpl in H. now injection H.
      * intros n Hn. specialize (H n Hn). simpl in H. now injection H.
Qed.

(** C10.  One turn of the two-signature scores loop is a function of the
    selected indices and of the two score columns it reads: on two tables
    that hold the same entries in these two columns, whatever their other
    columns hold, it ends the same way, with the same thresholds and the
    same labels.  Two runs on the same table are the case of equal tables. *)
Theorem scores_path_is_deterministic
  (obs1 obs2 : Frame) (scoring_names : list string) (i : nat) (threshs : list Z) :
  (forall n, nth_error scoring_names i = Some n \/ nth_error scoring_names (S i) = Some n ->
             map (lookup n) obs1 = map (lookup n) obs2) ->
  scores_HL_2sigs_step obs1 scoring_names i threshs
  = scores_HL_2sigs_step obs2 scoring_names i threshs.
Proof.
  intro H. unfold scores_HL_2sigs_step.
  destruct (getitem scoring_names (Z.of_nat i)) as [name_B|] eqn:EB; simpl; [|reflexivity].
  apply getitem_nat in EB.
  rewrite (column_ext obs1 obs2 name_B) by (apply H; now left).
  destruct (column obs2 name_B) as [B_scores|]; simpl; [|reflexivity].
  replace (Z.of_nat i + 1)%Z with (Z.of_nat (S i)) by lia.
  destruct (getitem scoring_names (Z.of_nat (S i))) as [name_M|] eqn:EM; simpl; [|reflexivity].
  apply getitem_nat in EM.
  rewrite (column_ext obs1 obs2 name_M) by (apply H; now right).
  destruct (column obs2 name_M) as [M_scores|]; simpl; [|reflexivity].
  destruct (get_score_threshs threshs B_scores M_scores) as [th|]; simpl; [|reflexivity].
  unfold label_with_rest, hard_label.
  rewrite (slice_two _ _ _ _ EB EM).
  rewrite (columns_ext [name_B; name_M] obs1 obs2); [reflexivity|discriminate|].
  intros n [<-|[<-|[]]]; apply H; auto.
Qed.

Lemma scores_path_is_deterministic_witness :
  scores_HL_2sigs_step obs4 names4 0 [17%Z; 18%Z]
  = scores_HL_2sigs_step obs4_gmm names4 0 [17%Z; 18%Z].
Proof.
  apply (scores_path_is_deterministic obs4 obs4_gmm names4 0 [17%Z; 18%Z]).
  intros n [H|H]; injection H as <-; reflexivity.
Defined.

(** ** The histogram and its local minima *)

Lemma linspace_length (a b : Q) (n : nat) :
  List.length (Numpy.linspace a b n) = S n.
Proof.
  unfold Numpy.linspace. rewrite length_app, length_map, length_seq. simpl. lia.
Qed.

Lemma diff_length (x : Q) (l : list Q) :
  List.length (Numpy.diff (x :: l)) = List.length l.
Proof.
  revert x. induction l as [|y l IH]; intro x; [reflexivity|].
  change (Numpy.diff (x :: y :: l)) with ((y - x) :: Numpy.diff (y :: l)).
  cbn [List.length]. now rewrite IH.
Qed.

Lemma div_each_length (n : list Z) (db : list Q) (total : Z) :
  List.length n = List.length db ->
  List.length (Numpy.div_each n db total) = List.length n.
Proof.
  revert db. induction n as [|c n IH]; intros [|w db] H; simpl in *;
    try discriminate; auto.
Qed.

Lemma histogram_bins_length (nbins : nat) (a : list Q) :
  List.length (fst (Numpy.histogram_bins nbins a)) = nbins /\
  List.length (snd (Numpy.histogram_bins nbins a)) = S nbins.
Proof.
  unfold Numpy.histogram_bins. destruct (Numpy.outer_edges a) as [lo hi]. simpl.
  split; [|apply linspace_length].
  assert (Hb : forall idx, List.length (Numpy.bincount idx nbins) = nbins).
  { intro idx. unfold Numpy.bincount. now rewrite length_map, length_seq. }
  rewrite div_each_length; [apply Hb|].
  rewrite Hb.
  assert (Hl := linspace_length lo hi nbins).
  destruct (Numpy.linspace lo hi nbins) as [|x l]; [discriminate|].
  rewrite diff_length. simpl in Hl. lia.
Qed.

Lemma getitem_in_range {A : Type} (l : list A) (i : Z) :
  (- Z.of_nat (List.length l) <= i < Z.of_nat (List.length l))%Z ->
  exists a, getitem l i = Ok a.
Proof.
  intro H. unfold getitem.
  destruct (Z.leb_spec 0 i) as [Hi|Hi].
  - destruct (nth_error l (Z.to_nat i)) as [a|] eqn:E; [simpl; eauto|].
    apply nth_error_None in E. lia.
  - destruct (Z.leb_spec (- Z.of_nat (List.length l)) i) as [Hj|Hj]; [|lia].
    destruct (nth_error l (Z.to_nat (Z.of_nat (List.length l) + i))) as [a|] eqn:E;
      [simpl; eauto|].
    apply nth_error_None in E. lia.
Qed.

Lemma nonzero_from_In (l : list bool) (k i : nat) :
  In i (Scipy.nonzero_from k l) <->
  exists j, i = (k + j)%nat /\ nth_error l j = Some true.
Proof.
  revert k. induction l as [|b l IH]; intro k; simpl.
  - split; [intros [] | intros (j & _ & Hj); destruct j; discriminate].
  - split.
    + intro H. assert (Hcase : (b = true /\ i = k) \/ In i (Scipy.nonzero_from (S k) l)).
      { destruct b; [destruct H as [<-|H]|]; auto. }
      destruct Hcase as [[-> ->]|Hin].
      * exists 0%nat. split; [lia | reflexivity].
      * apply IH in Hin. destruct Hin as (j & -> & Hj).
        exists (S j). split; [lia | exact Hj].
    + intros (j & -> & Hj). destruct j as [|j]; simpl in Hj.
      * injection Hj as ->. left. lia.
      * assert (Hin : In (k + S j)%nat (Scipy.nonzero_from (S k) l)).
        { apply IH. exists j. split; [lia | exact Hj]. }
        destruct b; [right|]; exact Hin.
Qed.

(** [argrelmin] as the library states it: at every shift up to [order], the
    entry is strictly below the clipped entries on both sides. *)
Lemma argrelmin_clip (data : list Q) (order : nat) (i : nat) :
  (1 <= order)%nat ->
  exists x_min,
    Scipy.argrelmin data order = Ok x_min /\
    (In i x_min <->
     (i < List.length data)%nat /\
     forall shift, (1 <= shift <= order)%nat ->
       Scipy.take_clip data (Z.of_nat i)
       < Scipy.take_clip data (Z.of_nat i + Z.of_nat shift) /\
       Scipy.take_clip data (Z.of_nat i)
       < Scipy.take_clip data (Z.of_nat i - Z.of_nat shift)).
Proof.
  intro Ho. unfold Scipy.argrelmin. destruct order as [|o] eqn:E; [lia|].
  rewrite <- E in *. clear E o.
  eexists. split; [reflexivity|].
  rewrite nonzero_from_In. unfold Scipy.boolrelextrema. split.
  - intros (j & Hj & Hnth). simpl in Hj. subst j.
    assert (Hlt : (i < List.length data)%nat).
    { rewrite <- (length_seq (List.length data) 0) at 1.
      erewrite <- length_map. apply nth_error_Some. rewrite Hnth. discriminate. }
    split; [exact Hlt|].
    rewrite nth_error_map, (nth_error_seq0 _ _ Hlt) in Hnth. cbn [option_map] in Hnth.
    cbv beta in Hnth.
    injection Hnth as Hall. rewrite forallb_forall in Hall.
    intros shift Hs. specialize (Hall shift).
    rewrite in_seq in Hall. specialize (Hall ltac:(lia)).
    apply andb_prop in Hall. destruct Hall as [H1 H2].
    split; now apply Qltb_lt.
  - intros [Hlt Hall]. exists i. split; [reflexivity|].
    rewrite nth_error_map, (nth_error_seq0 _ _ Hlt). cbn [option_map]. cbv beta. f_equal.
    apply forallb_forall. intros shift Hs. rewrite in_seq in Hs.
    destruct (Hall shift ltac:(lia)) as [H1 H2].
    apply andb_true_intro. split; now apply Qltb_lt.
Qed.

Lemma take_clip_nth (data : list Q) (z : Z) (k : nat) :
  k = Z.to_nat (Z.max 0 (Z.min z (Z.of_nat (List.length data) - 1))) ->
  Scipy.take_clip data z = nth k data 0.
Proof.
  intros ->. reflexivity.
Qed.

(** With clipped ends, the first and the last entry are compared with
    themselves and are never minima; elsewhere the clipped rule is the
    neighbourhood rule. *)
Lemma clip_rule_interior (data : list Q) (order i : nat) :
  (1 <= order)%nat ->
  ((i < List.length data)%nat /\
   forall shift, (1 <= shift <= order)%nat ->
     Scipy.take_clip data (Z.of_nat i)
     < Scipy.take_clip data (Z.of_nat i + Z.of_nat shift) /\
     Scipy.take_clip data (Z.of_nat i)
     < Scipy.take_clip data (Z.of_nat i - Z.of_nat shift))
  <->
  ((0 < i)%nat /\ (S i < List.length data)%nat /\
   strictly_below_neighbours data order i).
Proof.
  intro Ho. split.
  - intros [Hlt Hall].
    assert (Hpos : (0 < i)%nat).
    { destruct i as [|i]; [|lia]. exfalso.
      destruct (Hall 1%nat ltac:(lia)) as [_ H].
      rewrite (take_clip_nth data (Z.of_nat 0) 0) in H by lia.
      rewrite (take_clip_nth data (Z.of_nat 0 - Z.of_nat 1) 0) in H by lia.
      exact (Qlt_irrefl _ H). }
    assert (Hlast : (S i < List.length data)%nat).
    { destruct (Nat.lt_ge_cases (S i) (List.length data)) as [H|H]; [exact H|].
      exfalso. destruct (Hall 1%nat ltac:(lia)) as [H1 _].
      rewrite (take_clip_nth data (Z.of_nat i) i) in H1 by lia.
      rewrite (take_clip_nth data (Z.of_nat i + Z.of_nat 1) i) in H1 by lia.
      exact (Qlt_irrefl _ H1). }
    repeat split; try assumption.
    intros j Hj Hne Hl Hr.
    destruct (Nat.lt_ge_cases i j) as [Hij|Hij].
    + destruct (Hall (j - i)%nat ltac:(lia)) as [H1 _].
      rewrite (take_clip_nth data (Z.of_nat i) i) in H1 by lia.
      rewrite (take_clip_nth data (Z.of_nat i + Z.of_nat (j - i)) j) in H1 by lia.
      exact H1.
    + destruct (Hall (i - j)%nat ltac:(lia)) as [_ H2].
      rewrite (take_clip_nth data (Z.of_nat i) i) in H2 by lia.
      rewrite (take_clip_nth data (Z.of_nat i - Z.of_nat (i - j)) j) in H2 by lia.
      exact H2.
  - intros (Hpos & Hlast & Hlt & Hall). split; [exact Hlt|].
    intros shift Hs.
    rewrite (take_clip_nth data (Z.of_nat i) i) by lia.
    split.
    + rewrite (take_clip_nth data (Z.of_nat i + Z.of_nat shift)
                 (Nat.min (i + shift) (List.length data - 1))) by lia.
      apply Hall; lia.
    + rewrite (take_clip_nth data (Z.of_nat i - Z.of_nat shift) (i - shift)) by lia.
      apply Hall; lia.
Qed.

Lemma strictly_below_neighboursb_spec (h : list Q) (order i : nat) :
  strictly_below_neighboursb h order i = true <-> strictly_below_neighbours h order i.
Proof.
  unfold strictly_below_neighboursb, strictly_below_neighbours.
  rewrite andb_true_iff, Nat.ltb_lt, forallb_forall.
  split; intros [Hlt Hall]; (split; [exact Hlt|]).
  - intros j Hj Hne Hl Hr.
    specialize (Hall j). rewrite in_seq in Hall. specialize (Hall ltac:(lia)).
    apply Qltb_lt.
    destruct (Nat.eqb_spec j i) as [|_]; [contradiction|].
    destruct (Nat.leb_spec (i - j) order) as [_|]; [|lia].
    destruct (Nat.leb_spec (j - i) order) as [_|]; [|lia].
    exact Hall.
  - intros j Hj. rewrite in_seq in Hj.
    destruct (Nat.eqb_spec j i) as [|Hne]; [reflexivity|].
    destruct (Nat.leb_spec (i - j) order) as [Hl|]; [|reflexivity].
    destruct (Nat.leb_spec (j - i) order) as [Hr|]; [|reflexivity].
    simpl. apply Qltb_lt. apply Hall; lia.
Qed.

Lemma density_minima_interior (scores : Series) (i : nat) :
  exists x_min,
    density_minima scores = Ok x_min /\
    (In i x_min <->
     (0 < i)%nat /\ (S i < 100)%nat /\
     strictly_below_neighbours (fst (histogram scores)) 3 i).
Proof.
  unfold density_minima.
  destruct (argrelmin_clip (fst (histogram scores)) 3 i ltac:(lia)) as (x_min & Hx & Hin).
  exists x_min. split; [exact Hx|].
  rewrite Hin, (clip_rule_interior _ 3 i) by lia.
  unfold histogram. rewrite (proj1 (histogram_bins_length 100 scores)).
  reflexivity.
Qed.

(** ** The histogram is a density *)

Lemma qmin_le_l (x y : Q) : Numpy.qmin x y <= x.
Proof.
  unfold Numpy.qmin. destruct (Qltb y x) eqn:E.
  - apply Qltb_lt in E. now apply Qlt_le_weak.
  - apply Qle_refl.
Qed.

Lemma qmin_le_r (x y : Q) : Numpy.qmin x y <= y.
Proof.
  unfold Numpy.qmin. destruct (Qltb y x) eqn:E.
  - apply Qle_refl.
  - now apply Qltb_ge in E.
Qed.

Lemma qmax_ge_l (x y : Q) : x <= Numpy.qmax x y.
Proof.
  unfold Numpy.qmax. destruct (Qltb x y) eqn:E.
  - apply Qltb_lt in E. now apply Qlt_le_weak.
  - apply Qle_refl.
Qed.

Lemma qmax_ge_r (x y : Q) : y <= Numpy.qmax x y.
Proof.
  unfold Numpy.qmax. destruct (Qltb x y) eqn:E.
  - apply Qle_refl.
  - now apply Qltb_ge in E.
Qed.

Lemma fold_qmin_le (l : list Q) (x : Q) :
  fold_left Numpy.qmin l x <= x /\
  forall y, In y l -> fold_left Numpy.qmin l x <= y.
Proof.
  revert x. induction l as [|z l IH]; intro x; simpl.
  - split; [apply Qle_refl | intros y []].
  - destruct (IH (Numpy.qmin x z)) as [H1 H2]. split.
    + eapply Qle_trans; [exact H1 | apply qmin_le_l].
    + intros y [<-|Hy]; [|auto].
      eapply Qle_trans; [exact H1 | apply qmin_le_r].
Qed.

Lemma fold_qmax_ge (l : list Q) (x : Q) :
  x <= fold_left Numpy.qmax l x /\
  forall y, In y l -> y <= fold_left Numpy.qmax l x.
Proof.
  revert x. induction l as [|z l IH]; intro x; simpl.
  - split; [apply Qle_refl | intros y []].
  - destruct (IH (Numpy.qmax x z)) as [H1 H2]. split.
    + eapply Qle_trans; [apply qmax_ge_l | exact H1].
    + intros y [<-|Hy]; [|auto].
      eapply Qle_trans; [apply qmax_ge_r | exact H1].
Qed.

(** The outer edges enclose the data and are apart. *)
Lemma outer_edges_enclose (a : list Q) (first_edge last_edge : Q) :
  Numpy.outer_edges a = (first_edge, last_edge) ->
  first_edge < last_edge /\
  forall x, In x a -> first_edge <= x /\ x <= last_edge.
Proof.
  unfold Numpy.outer_edges. destruct a as [|x0 a].
  - intro H. injection H as <- <-. split; [reflexivity | intros x []].
  - destruct (fold_qmin_le a x0) as [Hm0 Hm].
    destruct (fold_qmax_ge a x0) as [HM0 HM].
    set (lo := fold_left Numpy.qmin a x0) in *.
    set (hi := fold_left Numpy.qmax a x0) in *.
    assert (Hin : forall x, In x (x0 :: a) -> lo <= x /\ x <= hi).
    { intros x [<-|Hx]; split; auto. }
    destruct (Qeq_bool lo hi) eqn:E; intro H; injection H as <- <-.
    + apply Qeq_bool_iff in E. split.
      * rewrite E. apply Qplus_lt_l with (z := 1 # 2). ring_simplify.
        apply Qplus_lt_r with (z := - hi). ring_simplify. reflexivity.
      * intros x Hx. destruct (Hin x Hx) as [H1 H2]. split.
        -- apply Qle_trans with lo; [|exact H1].
           apply Qplus_le_l with (z := 1 # 2). ring_simplify.
           apply Qplus_le_r with (z := - lo). ring_simplify. discriminate.
        -- apply Qle_trans with hi; [exact H2|].
           apply Qplus_le_r with (z := - hi). ring_simplify. discriminate.
    + split; [|exact Hin].
      apply Qeq_bool_neq in E.
      destruct (Hin x0 (or_introl eq_refl)) as [H1 H2].
      apply Qle_lt_or_eq in H1. 
      assert (Hle : lo <= hi) by (eapply Qle_trans; eauto using Qlt_le_weak).
      apply Qle_lt_or_eq in Hle. tauto.
Qed.

Lemma bin_index_range (first_edge last_edge : Q) (n : nat) (x : Q) :
  (0 < n)%nat -> first_edge < last_edge -> first_edge <= x -> x <= last_edge ->
  (0 <= Numpy.bin_index first_edge last_edge n x < Z.of_nat n)%Z.
Proof.
  intros Hn Hlt Hlo Hhi. unfold Numpy.bin_index.
  set (t := (x - first_edge) / (last_edge - first_edge) * inject_Z (Z.of_nat n)).
  assert (Hw : 0 < last_edge - first_edge).
  { apply Qplus_lt_l with (z := first_edge). ring_simplify. exact Hlt. }
  assert (Hn0 : 0 <= inject_Z (Z.of_nat n)).
  { change 0 with (inject_Z 0). rewrite <- Zle_Qle. lia. }
  assert (Hr0 : 0 <= (x - first_edge) / (last_edge - first_edge)).
  { apply Qle_shift_div_l; [exact Hw|]. ring_simplify.
    apply Qplus_le_l with (z := first_edge). ring_simplify. exact Hlo. }
  assert (Hr1 : (x - first_edge) / (last_edge - first_edge) <= 1).
  { apply Qle_shift_div_r; [exact Hw|]. ring_simplify.
    apply Qplus_le_l with (z := first_edge). ring_simplify. exact Hhi. }
  assert (Ht0 : 0 <= t) by (apply Qmult_le_0_compat; assumption).
  assert (Ht1 : t <= inject_Z (Z.of_nat n)).
  { unfold t. rewrite <- (Qmult_1_l (inject_Z (Z.of_nat n))) at 2.
    apply Qmult_le_compat_r; assumption. }
  apply Qfloor_resp_le in Ht0, Ht1.
  rewrite Qfloor_Z in Ht1. change (Qfloor 0) with 0%Z in Ht0.
  destruct (Z.eqb_spec (Qfloor t) (Z.of_nat n)); lia.
Qed.

Lemma count_sum_in_range (indices : list Z) (n : nat) :
  Forall (fun k => (0 <= k < Z.of_nat n)%Z) indices ->
  fold_right Z.add 0%Z (Numpy.bincount indices n) = Z.of_nat (List.length indices).
Proof.
  unfold Numpy.bincount. induction 1 as [|k indices Hk _ IH].
  - simpl. induction (seq 0 n) as [|b l IHl]; [reflexivity | exact IHl].
  - cbn [List.length]. rewrite Nat2Z.inj_succ, <- IH. clear IH.
    assert (Hsplit : forall l,
               fold_right Z.add 0%Z
                 (map (fun b => Z.of_nat (count_occ Z.eq_dec (k :: indices) (Z.of_nat b))) l)
               = (fold_right Z.add 0%Z
                    (map (fun b => if Z.eq_dec k (Z.of_nat b) then 1%Z else 0%Z) l)
                  + fold_right Z.add 0%Z
                      (map (fun b => Z.of_nat (count_occ Z.eq_dec indices (Z.of_nat b))) l))%Z).
    { induction l as [|b l IHl]; [reflexivity|].
      cbn [map fold_right]. rewrite IHl. cbn [count_occ].
      destruct (Z.eq_dec k (Z.of_nat b)); lia. }
    rewrite Hsplit.
    assert (Hone : forall start len,
               (Z.of_nat start <= k < Z.of_nat (start + len))%Z ->
               fold_right Z.add 0%Z
                 (map (fun b => if Z.eq_dec k (Z.of_nat b) then 1%Z else 0%Z) (seq start len))
               = 1%Z).
    { intros start len. revert start.
      induction len as [|len IHlen]; intros start Hr; [lia|].
      cbn [seq map fold_right].
      destruct (Z.eq_dec k (Z.of_nat start)) as [E|E].
      - assert (Hz : forall len' start', (k < Z.of_nat start')%Z ->
                   fold_right Z.add 0%Z
                     (map (fun b => if Z.eq_dec k (Z.of_nat b) then 1%Z else 0%Z)
                          (seq start' len')) = 0%Z).
        { induction len' as [|len' IH']; intros start' Hs; [reflexivity|].
          cbn [seq map fold_right].
          destruct (Z.eq_dec k (Z.of_nat start')); [lia|].
          rewrite IH'; lia. }
        rewrite Hz; lia.
      - rewrite IHlen; lia. }
    rewrite (Hone 0%nat n); lia.
Qed.

Lemma diff_nth (l : list Q) (b : nat) :
  (S b < List.length l)%nat ->
  nth b (Numpy.diff l) 0 = nth (S b) l 0 - nth b l 0.
Proof.
  revert b. induction l as [|x l IH]; intros b Hb; [simpl in Hb; lia|].
  destruct l as [|y l]; [simpl in Hb; lia|].
  change (Numpy.diff (x :: y :: l)) with ((y - x) :: Numpy.diff (y :: l)).
  destruct b as [|b]; [reflexivity|].
  cbn [nth]. rewrite IH; [reflexivity|]. simpl in *. lia.
Qed.

Lemma map_seq_nth (f : nat -> Q) (n i : nat) :
  (i < n)%nat -> nth i (map f (seq 0 n)) 0 = f i.
Proof.
  intro H. rewrite (nth_indep _ 0 (f 0%nat)) by (rewrite length_map, length_seq; lia).
  rewrite (map_nth f), seq_nth by lia. reflexivity.
Qed.

Lemma linspace_nth (start stop : Q) (n i : nat) :
  (i <= n)%nat -> (0 < n)%nat ->
  nth i (Numpy.linspace start stop n) 0
  == inject_Z (Z.of_nat i) * ((stop - start) / inject_Z (Z.of_nat n)) + start.
Proof.
  intros Hi Hn. unfold Numpy.linspace.
  destruct (Nat.eq_dec i n) as [->|Hne].
  - rewrite app_nth2 by (rewrite length_map, length_seq; lia).
    rewrite length_map, length_seq, Nat.sub_diag. simpl nth.
    field. apply inject_Z_nonzero. lia.
  - rewrite app_nth1 by (rewrite length_map, length_seq; lia).
    rewrite map_seq_nth by lia. reflexivity.
Qed.

(** Every bin has the same positive width. *)
Lemma linspace_widths (start stop : Q) (n : nat) :
  (0 < n)%nat -> start < stop ->
  Forall (fun w => 0 < w) (Numpy.diff (Numpy.linspace start stop n)).
Proof.
  intros Hn Hlt. apply Forall_forall. intros w Hw.
  apply (In_nth _ _ 0) in Hw. destruct Hw as (b & Hb & <-).
  assert (Hlen := linspace_length start stop n).
  assert (Hdl : List.length (Numpy.diff (Numpy.linspace start stop n)) = n).
  { destruct (Numpy.linspace start stop n) as [|x l]; [discriminate|].
    rewrite diff_length. simpl in Hlen. lia. }
  rewrite Hdl in Hb.
  rewrite diff_nth by lia.
  rewrite (linspace_nth start stop n (S b)), (linspace_nth start stop n b) by lia.
  assert (Hstep : 0 < (stop - start) / inject_Z (Z.of_nat n)).
  { apply Qlt_shift_div_l.
    - change 0 with (inject_Z 0). rewrite <- Zlt_Qlt. lia.
    - ring_simplify. apply Qplus_lt_l with (z := start). ring_simplify. exact Hlt. }
  rewrite Nat2Z.inj_succ. unfold Z.succ. rewrite inject_Z_plus.
  ring_simplify. exact Hstep.
Qed.

Lemma area_div_each (n : list Z) (db : list Q) (total : Z) :
  total <> 0%Z -> Forall (fun w => 0 < w) db -> List.length n = List.length db ->
  Numpy.area (Numpy.div_each n db total) db
  == inject_Z (fold_right Z.add 0%Z n) / inject_Z total.
Proof.
  intros Ht Hdb. revert n.
  induction Hdb as [|w db Hw _ IH]; intros [|c n] Hlen; simpl in Hlen;
    try discriminate.
  - simpl. unfold Qdiv. ring.
  - cbn [Numpy.div_each Numpy.area fold_right].
    rewrite IH by lia. rewrite inject_Z_plus.
    field. split.
    + apply inject_Z_nonzero. exact Ht.
    + intro E. rewrite E in Hw. exact (Qlt_irrefl _ Hw).
Qed.

(** The heights of the histogram of a column with at least one entity are
    counts of the whole column, scaled so that the area is one. *)
Lemma histogram_is_density (scores : Series) :
  scores <> [] ->
  Numpy.area (fst (histogram scores)) (Numpy.diff (snd (histogram scores))) == 1.
Proof.
  intro Hne. unfold histogram, Numpy.histogram_bins.
  destruct (Numpy.outer_edges scores) as [lo hi] eqn:E.
  destruct (outer_edges_enclose scores lo hi E) as [Hlt Hin].
  cbn [fst snd].
  assert (Htotal : fold_right Z.add 0%Z
                     (Numpy.bincount (map (Numpy.bin_index lo hi 100) scores) 100)
                   = Z.of_nat (List.length scores)).
  { rewrite count_sum_in_range; [now rewrite length_map|].
    apply Forall_forall. intros k Hk. apply in_map_iff in Hk.
    destruct Hk as (x & <- & Hx). destruct (Hin x Hx).
    apply bin_index_range; auto. lia. }
  assert (Hpos : (0 < Z.of_nat (List.length scores))%Z).
  { destruct scores; [congruence | simpl; lia]. }
  rewrite area_div_each.
  - rewrite Htotal. unfold Qdiv. apply Qmult_inv_r. apply inject_Z_nonzero. lia.
  - lia.
  - apply linspace_widths; [lia | exact Hlt].
  - assert (Hl := linspace_length lo hi 100).
    destruct (Numpy.linspace lo hi 100) as [|x l]; [discriminate|].
    rewrite diff_length. unfold Numpy.bincount.
    rewrite length_map, length_seq. simpl in Hl. lia.
Qed.

Lemma get_score_threshs_in_range (i_one i_two : Z) (scores_B scores_Mono : Series) :
  (-101 <= i_one <= 100)%Z -> (-101 <= i_two <= 100)%Z ->
  exists thresh_one thresh_two,
    get_score_threshs [i_one; i_two] scores_B scores_Mono = Ok (thresh_one, thresh_two) /\
    getitem (snd (histogram scores_B)) i_one = Ok thresh_one /\
    getitem (snd (histogram scores_Mono)) i_two = Ok thresh_two.
Proof.
  intros H1 H2.
  destruct (getitem_in_range (snd (histogram scores_B)) i_one) as [t1 Ht1].
  { unfold histogram. rewrite (proj2 (histogram_bins_length 100 scores_B)). lia. }
  destruct (getitem_in_range (snd (histogram scores_Mono)) i_two) as [t2 Ht2].
  { unfold histogram. rewrite (proj2 (histogram_bins_length 100 scores_Mono)). lia. }
  exists t1, t2. unfold get_score_threshs.
  change (getitem [i_one; i_two] 0) with (Ok i_one).
  change (getitem [i_one; i_two] 1) with (Ok i_two).
  simpl. rewrite Ht1. simpl. rewrite Ht2. simpl. auto.
Qed.

Lemma density_minima_candidates (scores : Series) :
  exists x_min,
    density_minima scores = Ok x_min /\
    forall i, In i x_min <->
              (0 < i)%nat /\ (S i < 100)%nat /\
              strictly_below_neighbours (fst (histogram scores)) 3 i.
Proof.
  exists (Scipy.nonzero_from 0 (Scipy.boolrelextrema (fst (histogram scores)) 3)).
  split; [reflexivity|].
  intro i. destruct (density_minima_interior scores i) as (x_min & Hx & Hin).
  unfold density_minima, Scipy.argrelmin in Hx. injection Hx as <-. exact Hin.
Qed.

(** C4, as the code has it.  The histogram of a score column has 100 heights
    and 101 bin edges, and the area under it is one when the column has an
    entity.  The candidate minima are exactly the bins, other than
    the first and the last one, whose height is strictly less than the height
    of every bin within three positions on each side; the first and the last
    bin are never candidates.  The conversion step returns, for selected
    indices within the edge arrays, the entries of the two bin-edge arrays
    at these indices. *)
Theorem density_minima_are_interior_local_minima (scores : Series) :
  List.length (fst (histogram scores)) = 100%nat /\
  List.length (snd (histogram scores)) = 101%nat /\
  (scores <> [] ->
   Numpy.area (fst (histogram scores)) (Numpy.diff (snd (histogram scores))) == 1) /\
  (exists x_min,
      density_minima scores = Ok x_min /\
      forall i, In i x_min <->
                (0 < i)%nat /\ (S i < 100)%nat /\
                strictly_below_neighbours (fst (histogram scores)) 3 i) /\
  (forall i_one i_two scores_Mono,
      (-101 <= i_one <= 100)%Z -> (-101 <= i_two <= 100)%Z ->
      exists thresh_one thresh_two,
        get_score_threshs [i_one; i_two] scores scores_Mono
        = Ok (thresh_one, thresh_two) /\
        getitem (snd (histogram scores)) i_one = Ok thresh_one /\
        getitem (snd (histogram scores_Mono)) i_two = Ok thresh_two).
Proof.
  split; [exact (proj1 (histogram_bins_length 100 scores))|].
  split; [exact (proj2 (histogram_bins_length 100 scores))|].
  split; [exact (histogram_is_density scores)|].
  split.
  - exact (density_minima_candidates scores).
  - intros i_one i_two scores_Mono H1 H2.
    exact (get_score_threshs_in_range i_one i_two scores scores_Mono H1 H2).
Qed.

Lemma density_minima_are_interior_local_minima_witness :
  Numpy.area (fst (histogram valley_scores)) (Numpy.diff (snd (histogram valley_scores)))
  == 1 /\
  exists thresh_one thresh_two,
    get_score_threshs [3%Z; (-1)%Z] valley_scores low_edge_scores
    = Ok (thresh_one, thresh_two) /\
    getitem (snd (histogram valley_scores)) 3 = Ok thresh_one /\
    getitem (snd (histogram low_edge_scores)) (-1) = Ok thresh_two.
Proof.
  destruct (density_minima_are_interior_local_minima valley_scores)
    as (_ & _ & Harea & _ & Hthresh).
  split.
  - apply Harea. discriminate.
  - apply Hthresh; lia.
Defined.

(** The first bin of [low_edge_scores] is strictly less than every bin within
    three positions of it, and it is not among the candidates. *)
Lemma first_bin_below_neighbours_is_no_candidate :
  exists x_min,
    density_minima low_edge_scores = Ok x_min /\
    strictly_below_neighbours (fst (histogram low_edge_scores)) 3 0 /\
    ~ In 0%nat x_min.
Proof.
  exists []. split; [vm_compute; reflexivity|]. split.
  - apply strictly_below_neighboursb_spec. vm_compute. reflexivity.
  - intros [].
Qed.

(** ** A column without minima *)

Lemma no_minimum_by_scan (h : list Q) (order : nat) :
  forallb (fun i => negb (strictly_below_neighboursb h order i))
          (seq 0 (List.length h)) = true ->
  forall i, ~ strictly_below_neighbours h order i.
Proof.
  intros H i Hi. rewrite forallb_forall in H.
  assert (Hlt : (i < List.length h)%nat) by exact (proj1 Hi).
  specialize (H i). rewrite in_seq in H. specialize (H ltac:(lia)).
  apply strictly_below_neighboursb_spec in Hi. rewrite Hi in H. discriminate.
Qed.

(** C6.  When no bin of the histogram of a score column satisfies the
    neighbourhood rule, the search for minima returns the empty sequence: it
    raises nothing and returns no index that could be read as a threshold.
    The search returns the empty sequence exactly when no bin other than the
    first and the last one satisfies the rule. *)
Theorem no_minimum_gives_empty_sequence (scores : Series) :
  ((forall i, ~ strictly_below_neighbours (fst (histogram scores)) 3 i) ->
   density_minima scores = Ok []) /\
  (density_minima scores = Ok [] <->
   forall i, (0 < i)%nat -> (S i < 100)%nat ->
             ~ strictly_below_neighbours (fst (histogram scores)) 3 i).
Proof.
  destruct (density_minima_candidates scores) as (x_min & Hx & Hin).
  assert (Hiff : density_minima scores = Ok [] <->
                 forall i, (0 < i)%nat -> (S i < 100)%nat ->
                           ~ strictly_below_neighbours (fst (histogram scores)) 3 i).
  { rewrite Hx. split.
    - intros E i H0 H1 Hi. injection E as ->.
      exact (proj2 (Hin i) (conj H0 (conj H1 Hi))).
    - intro Hnone. destruct x_min as [|i x_min]; [reflexivity|].
      exfalso. destruct (proj1 (Hin i) (or_introl eq_refl)) as (H0 & H1 & Hi).
      exact (Hnone i H0 H1 Hi). }
  split; [|exact Hiff].
  intro Hnone. apply Hiff. intros i _ _. exact (Hnone i).
Qed.

Lemma no_minimum_gives_empty_sequence_witness :
  density_minima spike_scores = Ok [].
Proof.
  apply (proj1 (no_minimum_gives_empty_sequence spike_scores)).
  apply no_minimum_by_scan. vm_compute. reflexivity.
Defined.

(** A valley is found, and drawn; with minima in the B histogram and none in
    the Mono histogram nothing is raised, and the labelled green line is
    drawn at the last B minimum. *)
Example valley_is_found :
  density_minima valley_scores = Ok [3%nat] /\
  exists cmds,
    plot_score_distributions "ANS" valley_scores spike_scores = Ok cmds /\
    In (axvline 3 "r" None) cmds /\
    In (axvline 3 "g" (Some "mins Mono scores dist"%string)) cmds.
Proof.
  split; [vm_compute; reflexivity|].
  eexists. split; [vm_compute; reflexivity|].
  split; simpl; auto 10.
Qed.

(** ** The weighted F1 score *)

Lemma support_nonneg (c : string) (y : list string) : (0 <= Sklearn.support c y)%Z.
Proof. unfold Sklearn.support. lia. Qed.

Lemma support_pos (c : string) (y : list string) :
  In c y <-> (0 < Sklearn.support c y)%Z.
Proof.
  unfold Sklearn.support. rewrite (count_occ_In string_dec). lia.
Qed.

Lemma support_zero (c : string) (y : list string) :
  ~ In c y <-> Sklearn.support c y = 0%Z.
Proof.
  unfold Sklearn.support. rewrite (count_occ_not_In string_dec). lia.
Qed.

Lemma tp_sum_same (c : string) (y : list string) :
  Sklearn.tp_sum c y y = Sklearn.support c y.
Proof.
  unfold Sklearn.support. induction y as [|t y IH]; [reflexivity|].
  cbn [Sklearn.tp_sum]. rewrite IH.
  destruct (String.eqb_spec t c) as [->|Hne].
  - rewrite count_occ_cons_eq by reflexivity. cbn [andb]. lia.
  - rewrite count_occ_cons_neq by exact Hne. cbn [andb]. lia.
Qed.

Lemma tp_sum_bounds (c : string) (y_true y_pred : list string) :
  (0 <= Sklearn.tp_sum c y_true y_pred <= Sklearn.support c y_pred)%Z.
Proof.
  unfold Sklearn.support. revert y_pred.
  induction y_true as [|t y_true IH]; intros [|p y_pred]; cbn [Sklearn.tp_sum];
    try lia.
  specialize (IH y_pred).
  destruct (String.eqb_spec p c) as [->|Hne].
  - rewrite count_occ_cons_eq by reflexivity.
    destruct (String.eqb t c); cbn [andb]; lia.
  - rewrite count_occ_cons_neq by exact Hne.
    rewrite andb_false_r. lia.
Qed.

Lemma prf_divide_same (n : Z) : (0 < n)%Z -> Sklearn.prf_divide n n == 1.
Proof.
  intro Hn. unfold Sklearn.prf_divide.
  destruct (Z.eqb_spec n 0) as [|_]; [lia|].
  unfold Qdiv. apply Qmult_inv_r. apply inject_Z_nonzero. lia.
Qed.

Lemma prf_divide_zero (d : Z) : Sklearn.prf_divide 0 d == 0.
Proof.
  unfold Sklearn.prf_divide. destruct (d =? 0)%Z; [reflexivity|].
  unfold Qdiv. apply Qmult_0_l.
Qed.

Lemma f_score_same (c : string) (y : list string) :
  In c y -> Sklearn.f_score c y y == 1.
Proof.
  intro Hc. apply support_pos in Hc.
  assert (Hp : Sklearn.precision c y y == 1).
  { unfold Sklearn.precision. rewrite tp_sum_same. now apply prf_divide_same. }
  assert (Hr : Sklearn.recall c y y == 1).
  { unfold Sklearn.recall. rewrite tp_sum_same. now apply prf_divide_same. }
  unfold Sklearn.f_score.
  destruct (Qeq_bool (Sklearn.precision c y y + Sklearn.recall c y y) 0) eqn:E.
  - apply Qeq_bool_iff in E. rewrite Hp, Hr in E. discriminate.
  - rewrite Hp, Hr. reflexivity.
Qed.

(** A class that is never predicted has an F1 of zero. *)
Lemma f_score_unpredicted (c : string) (y_true y_pred : list string) :
  ~ In c y_pred -> Sklearn.f_score c y_true y_pred == 0.
Proof.
  intro Hc. apply support_zero in Hc.
  assert (Htp : Sklearn.tp_sum c y_true y_pred = 0%Z).
  { assert (H := tp_sum_bounds c y_true y_pred). lia. }
  assert (Hp : Sklearn.precision c y_true y_pred == 0).
  { unfold Sklearn.precision. rewrite Htp. apply prf_divide_zero. }
  unfold Sklearn.f_score.
  destruct (Qeq_bool _ 0); [reflexivity|].
  rewrite Hp. unfold Qdiv. ring.
Qed.

Lemma weighted_sum_same (labels : list string) (y : list string) :
  Forall (fun c => In c y) labels ->
  Sklearn.weighted_sum labels y y == inject_Z (Sklearn.total_support labels y).
Proof.
  induction 1 as [|c labels Hc _ IH]; simpl; [reflexivity|].
  rewrite IH, (f_score_same c y Hc), inject_Z_plus. ring.
Qed.

Lemma total_support_lower (labels : list string) (y : list string) (c : string) :
  In c labels ->
  (Sklearn.support c y <= Sklearn.total_support labels y)%Z.
Proof.
  assert (Hge : forall l, (0 <= Sklearn.total_support l y)%Z).
  { induction l as [|x l IH]; simpl; [lia|].
    assert (H := support_nonneg x y). lia. }
  induction labels as [|x labels IH]; intros Hin; [destruct Hin|].
  simpl. destruct Hin as [->|Hin].
  - specialize (Hge labels). lia.
  - specialize (IH Hin). assert (H := support_nonneg x y). lia.
Qed.

Lemma indicator_sum (labels : list string) (t : string) :
  NoDup labels -> In t labels ->
  fold_right (fun c acc => ((if string_dec t c then 1 else 0) + acc)%Z) 0%Z labels = 1%Z.
Proof.
  induction 1 as [|x labels Hx Hnd IH]; intros Hin; [destruct Hin|].
  simpl. destruct Hin as [->|Hin].
  - destruct (string_dec t t) as [_|]; [|congruence].
    assert (Hz : fold_right (fun c acc => ((if string_dec t c then 1 else 0) + acc)%Z)
                            0%Z labels = 0%Z).
    { clear IH Hnd. induction labels as [|y labels IHl]; [reflexivity|].
      simpl. destruct (string_dec t y) as [->|_].
      - exfalso. apply Hx. now left.
      - rewrite IHl; [reflexivity|]. intro H. apply Hx. now right. }
    rewrite Hz. reflexivity.
  - destruct (string_dec t x) as [->|_]; [contradiction|].
    rewrite (IH Hin). reflexivity.
Qed.

(** The supports of the label space add up to the number of entities. *)
Lemma total_support_all (labels y : list string) :
  NoDup labels -> (forall c, In c y -> In c labels) ->
  Sklearn.total_support labels y = Z.of_nat (List.length y).
Proof.
  intros Hnd. induction y as [|t y IH]; intro Hall.
  - unfold Sklearn.total_support, Sklearn.support. simpl.
    induction labels as [|x labels IHl]; [reflexivity|].
    simpl. apply IHl; [now inversion Hnd | intros c []].
  - assert (Hsplit : forall l,
               Sklearn.total_support l (t :: y)
               = (fold_right (fun c acc => ((if string_dec t c then 1 else 0) + acc)%Z)
                             0%Z l
                  + Sklearn.total_support l y)%Z).
    { induction l as [|x l IHl]; [reflexivity|].
      cbn [Sklearn.total_support fold_right] in *.
      fold (Sklearn.total_support l (t :: y)). fold (Sklearn.total_support l y).
      rewrite IHl. unfold Sklearn.support. cbn [count_occ].
      destruct (string_dec t x); lia. }
    rewrite Hsplit, (indicator_sum labels t Hnd), IH.
    + cbn [List.length]. lia.
    + intros c Hc. apply Hall. now right.
    + apply Hall. now left.
Qed.

(** C8, as the code has it.  A label column identical to a ground truth with
    at least one entity scores exactly one. *)
Theorem identical_labels_score_one (gt : list string) :
  gt <> [] -> exists q, evaluate gt gt = Ok q /\ q == 1.
Proof.
  intro Hne. unfold evaluate, Sklearn.f1_score. rewrite Nat.eqb_refl.
  set (labels := Sklearn.unique_labels gt gt).
  assert (Hall : Forall (fun c => In c gt) labels).
  { apply Forall_forall. intros c Hc. unfold labels, Sklearn.unique_labels in Hc.
    apply nodup_In, in_app_or in Hc. tauto. }
  assert (Hpos : (0 < Sklearn.total_support labels gt)%Z).
  { destruct gt as [|c gt]; [congruence|].
    assert (Hc : In c labels).
    { unfold labels, Sklearn.unique_labels. apply nodup_In. now left. }
    assert (H1 := total_support_lower labels (c :: gt) c Hc).
    assert (H2 : (0 < Sklearn.support c (c :: gt))%Z).
    { apply support_pos. now left. }
    lia. }
  destruct (Z.eqb_spec (Sklearn.total_support labels gt) 0) as [|_]; [lia|].
  eexists. split; [reflexivity|].
  rewrite (weighted_sum_same labels gt Hall).
  unfold Qdiv. apply Qmult_inv_r. apply inject_Z_nonzero. lia.
Qed.

Lemma identical_labels_score_one_witness :
  exists q, evaluate ["B"; "Mono"; "NK"; "B"]%string ["B"; "Mono"; "NK"; "B"]%string = Ok q
            /\ q == 1.
Proof.
  apply (identical_labels_score_one ["B"; "Mono"; "NK"; "B"]%string).
  discriminate.
Defined.

(** Without any entity the score is zero, not one. *)
Lemma empty_ground_truth_scores_zero :
  evaluate [] [] = Ok 0 /\ ~ 0 == 1.
Proof.
  split; [reflexivity | discriminate].
Qed.

(** C7, as the code has it.  The evaluator refuses vectors of different
    lengths and nothing else: whatever labels the two vectors hold, it
    returns a score.  The weights of the classes add up to the number of
    entities.  A predicted category that the ground truth lacks has no
    support, hence no weight in the score; a ground-truth class that is never
    predicted has an F1 of zero, so it adds nothing to the weighted sum, while
    its support still counts in the total the sum is divided by. *)
Theorem evaluator_accepts_any_label_space :
  (forall gt pred,
      List.length gt = List.length pred -> exists q, evaluate gt pred = Ok q) /\
  (forall gt pred,
      List.length gt <> List.length pred -> evaluate gt pred = Raise ValueError) /\
  (forall gt pred,
      Sklearn.total_support (Sklearn.unique_labels gt pred) gt
      = Z.of_nat (List.length gt)) /\
  (forall gt pred c,
      ~ In c gt ->
      Sklearn.support c gt = 0%Z /\
      Sklearn.f_score c gt pred * inject_Z (Sklearn.support c gt) == 0) /\
  (forall gt pred c,
      ~ In c pred ->
      Sklearn.f_score c gt pred * inject_Z (Sklearn.support c gt) == 0).
Proof.
  split; [|split; [|split; [|split]]].
  - intros gt pred Hlen. unfold evaluate, Sklearn.f1_score.
    rewrite Hlen, Nat.eqb_refl.
    destruct (_ =? 0)%Z; eauto.
  - intros gt pred Hlen. unfold evaluate, Sklearn.f1_score.
    destruct (Nat.eqb_spec (List.length gt) (List.length pred));
      [contradiction|reflexivity].
  - intros gt pred. apply total_support_all.
    + apply NoDup_nodup.
    + intros c Hc. apply nodup_In, in_or_app. now left.
  - intros gt pred c Hc. apply support_zero in Hc. split; [exact Hc|].
    rewrite Hc. ring.
  - intros gt pred c Hc. rewrite (f_score_unpredicted c gt pred Hc). ring.
Qed.

Lemma evaluator_accepts_any_label_space_witness :
  (exists q, evaluate ["B"; "B"; "Mono"]%string ["B"; "NK"; "Mono"]%string = Ok q) /\
  evaluate ["B"; "B"; "Mono"]%string ["B"; "NK"]%string = Raise ValueError /\
  (Sklearn.support "NK" ["B"; "B"; "Mono"]%string = 0%Z /\
   Sklearn.f_score "NK" ["B"; "B"; "Mono"]%string ["B"; "NK"; "Mono"]%string
   * inject_Z (Sklearn.support "NK" ["B"; "B"; "Mono"]%string) == 0) /\
  Sklearn.f_score "Mono" ["B"; "Mono"; "Mono"]%string ["B"; "B"; "B"]%string
  * inject_Z (Sklearn.support "Mono" ["B"; "Mono"; "Mono"]%string) == 0.
Proof.
  destruct evaluator_accepts_any_label_space as (H1 & H2 & _ & H3 & H4).
  split; [|split; [|split]].
  - apply H1. reflexivity.
  - apply H2. simpl. lia.
  - apply H3. simpl. intros [H|[H|[H|[]]]]; discriminate.
  - apply H4. simpl. intros [H|[H|[H|[]]]]; discriminate.
Defined.

(** A class that is never predicted keeps its weight: with one B and two
    Mono entities all predicted B, the score is a sixth, the F1 of B (a half)
    weighted by a third. *)
Example unpredicted_class_keeps_its_weight :
  exists q,
    evaluate ["B"; "Mono"; "Mono"]%string ["B"; "B"; "B"]%string = Ok q /\ q == 1 # 6.
Proof.
  eexists. split; [vm_compute; reflexivity | reflexivity].
Qed.

(** A predicted category that the ground truth lacks is scored, not
    refused. *)
Lemma unseen_predicted_label_is_scored :
  In "NK"%string ["B"; "NK"; "Mono"]%string /\
  ~ In "NK"%string ["B"; "B"; "Mono"]%string /\
  evaluate ["B"; "B"; "Mono"]%string ["B"; "NK"; "Mono"]%string = Ok (28 # 36).
Proof.
  split; [simpl; auto|]. split.
  - simpl. intros [H|[H|[H|[]]]]; discriminate.
  - vm_compute. reflexivity.
Qed.

(** * Further properties of the notebook *)

(** ** Column names, written and read back *)



(** ** Two ways to take the method out of a column name *)

Lemma split_all_chars_nonempty (sep : ascii) (l : list ascii) :
  exists p ps, split_all_chars sep l = p :: ps.
Proof.
  induction l as [|c l (p & ps & IH)]; simpl; [eauto|].
  destruct (Ascii.eqb c sep); [eauto|]. rewrite IH. eauto.
Qed.

Lemma split_all_chars_app (sep : ascii) (a b : list ascii) :
  split_all_chars sep (a ++ sep :: b)
  = split_all_chars sep a ++ split_all_chars sep b.
Proof.
  induction a as [|c a IH]; cbn [app split_all_chars].
  - now rewrite Ascii.eqb_refl.
  - destruct (Ascii.eqb c sep); [now rewrite IH|].
    rewrite IH. destruct (split_all_chars_nonempty sep a) as (p & ps & ->).
    reflexivity.
Qed.

Lemma split_all_chars_free (sep : ascii) (b : list ascii) :
  ~ In sep b -> split_all_chars sep b = [b].
Proof.
  induction b as [|c b IH]; intro Hb; [reflexivity|].
  cbn [split_all_chars]. destruct (Ascii.eqb_spec c sep) as [->|_].
  - exfalso. apply Hb. now left.
  - rewrite IH; [reflexivity|]. intro H. apply Hb. now right.
Qed.

(** Joining what was split gives the text back. *)
Lemma join_split_all (sep : ascii) (a : list ascii) :
  join (String sep EmptyString) (map str (split_all_chars sep a)) = str a.
Proof.
  induction a as [|c a IH]; [reflexivity|].
  cbn [split_all_chars]. destruct (Ascii.eqb_spec c sep) as [->|_].
  - destruct (split_all_chars_nonempty sep a) as (p & ps & E).
    rewrite E in *. cbn [map join] in *. rewrite IH. reflexivity.
  - destruct (split_all_chars_nonempty sep a) as (p & ps & E).
    rewrite E in *. cbn [map join] in *.
    change (str (c :: p)) with (String c (str p)).
    change (str (c :: a)) with (String c (str a)).
    destruct ps as [|q ps]; cbn [map] in *.
    + rewrite IH. reflexivity.
    + cbn [String.append] in *. rewrite IH. reflexivity.
Qed.

Lemma last_sep (sep : ascii) (l : list ascii) :
  In sep l -> exists a b, l = a ++ sep :: b /\ ~ In sep b.
Proof.
  induction l as [|c l IH]; intro H; [destruct H|].
  destruct (in_dec ascii_dec sep l) as [Hin|Hout].
  - destruct (IH Hin) as (a & b & -> & Hb). exists (c :: a), b. auto.
  - destruct H as [->|H]; [|contradiction]. exists [], l. auto.
Qed.

(** X2.  For a column name with an underscore, the text before its last
    underscore is what both cells take as the method: the join of all parts
    but the last, and the first part of one split from the right.  For a name
    without underscore the two differ: the join is empty, the split gives the
    whole name. *)
Theorem curr_name_is_rsplit_method (name : string) :
  (In underscore (chars name) ->
   exists sig,
     name = String.append (curr_name name) (String underscore sig) /\
     sep_free underscore sig /\
     rsplit underscore 1 name = [curr_name name; sig]) /\
  (~ In underscore (chars name) ->
   curr_name name = EmptyString /\ rsplit underscore 1 name = [name]).
Proof.
  split; intro H.
  - destruct (last_sep _ _ H) as (a & b & E & Hb).
    assert (Hname : name = String.append (str a) (String underscore (str b))).
    { rewrite <- (str_chars name), E, str_app. reflexivity. }
    assert (Hcurr : curr_name name = str a).
    { unfold curr_name, split. rewrite E, split_all_chars_app.
      rewrite (split_all_chars_free _ b Hb), map_app. cbn [map].
      rewrite removelast_last. apply join_split_all. }
    assert (Hfree : sep_free underscore (str b)).
    { unfold sep_free. now rewrite chars_str. }
    exists (str b). rewrite Hcurr. repeat split; try assumption.
    rewrite Hname at 1. rewrite (rsplit_append underscore 0 _ _ Hfree), rsplit_zero.
    reflexivity.
  - split.
    + unfold curr_name, split. rewrite (split_all_chars_free _ _ H). reflexivity.
    + now apply rsplit_free.
Qed.

Lemma curr_name_is_rsplit_method_witness :
  (exists sig,
      "Seurat_AG_B"%string
      = String.append (curr_name "Seurat_AG_B") (String underscore sig) /\
      sep_free underscore sig /\
      rsplit underscore 1 "Seurat_AG_B" = [curr_name "Seurat_AG_B"; sig]) /\
  (curr_name "B" = EmptyString /\ rsplit underscore 1 "B" = ["B"%string]).
Proof.
  split.
  - apply (proj1 (curr_name_is_rsplit_method "Seurat_AG_B")).
    vm_compute. auto 10.
  - apply (proj2 (curr_name_is_rsplit_method "B")).
    vm_compute. intros [H|[]]. discriminate.
Defined.

(** ** Thresholds from selected indices *)

Lemma getitem_out_of_range {A : Type} (l : list A) (i : Z) :
  ~ (- Z.of_nat (List.length l) <= i < Z.of_nat (List.length l))%Z ->
  getitem l i = Raise IndexError.
Proof.
  intro H. unfold getitem.
  destruct (Z.leb_spec 0 i) as [Hi|Hi].
  - destruct (nth_error l (Z.to_nat i)) as [a|] eqn:E; [|reflexivity].
    exfalso. apply H. assert (Hlt : (Z.to_nat i < List.length l)%nat).
    { apply nth_error_Some. congruence. }
    lia.
  - destruct (Z.leb_spec (- Z.of_nat (List.length l)) i) as [Hj|Hj]; [|reflexivity].
    exfalso. apply H. lia.
Qed.

Lemma edges_length (scores : Series) :
  Z.of_nat (List.length (snd (histogram scores))) = 101%Z.
Proof.
  unfold histogram. rewrite (proj2 (histogram_bins_length 100 scores)). reflexivity.
Qed.

Lemma getitem_Ok_range {A : Type} (l : list A) (i : Z) (a : A) :
  getitem l i = Ok a -> (- Z.of_nat (List.length l) <= i < Z.of_nat (List.length l))%Z.
Proof.
  intro H.
  destruct (Z_le_dec (- Z.of_nat (List.length l)) i) as [H1|H1];
    [destruct (Z_lt_dec i (Z.of_nat (List.length l))) as [H2|H2]; [lia|]|];
    rewrite getitem_out_of_range in H by lia; discriminate.
Qed.

(** X3.  [get_score_threshs] returns thresholds only for a selection with at
    least two entries whose first two entries lie between -101 and 100, and
    the thresholds are then the bin edges of the two columns at these
    indices.  Entries after the second change nothing, neither the
    thresholds nor the exception. *)
Theorem get_score_threshs_reads_two_indices
  (selected_thresh : list Z) (scores_B scores_Mono : Series) :
  (forall thresh_one thresh_two,
      get_score_threshs selected_thresh scores_B scores_Mono
      = Ok (thresh_one, thresh_two) ->
      exists i_one i_two,
        nth_error selected_thresh 0 = Some i_one /\
        nth_error selected_thresh 1 = Some i_two /\
        (-101 <= i_one <= 100)%Z /\ (-101 <= i_two <= 100)%Z /\
        getitem (snd (histogram scores_B)) i_one = Ok thresh_one /\
        getitem (snd (histogram scores_Mono)) i_two = Ok thresh_two) /\
  get_score_threshs selected_thresh scores_B scores_Mono
  = get_score_threshs (firstn 2 selected_thresh) scores_B scores_Mono.
Proof.
  split.
  - intros thresh_one thresh_two H.
    destruct (get_score_threshs_inv _ _ _ _ _ H) as (i_one & i_two & H0 & H1 & E1 & E2).
    exists i_one, i_two. do 2 (split; [assumption|]).
    assert (R1 := getitem_Ok_range _ _ _ E1). assert (R2 := getitem_Ok_range _ _ _ E2).
    rewrite edges_length in R1, R2.
    repeat split; try assumption; lia.
  - destruct selected_thresh as [|a [|b rest]]; reflexivity.
Qed.

Lemma get_score_threshs_reads_two_indices_witness :
  (exists i_one i_two,
      nth_error [17%Z; (-1)%Z; 5%Z] 0 = Some i_one /\
      nth_error [17%Z; (-1)%Z; 5%Z] 1 = Some i_two /\
      (-101 <= i_one <= 100)%Z /\ (-101 <= i_two <= 100)%Z /\
      getitem (snd (histogram [9 # 10; 1 # 10])) i_one = Ok (23600 # 100000) /\
      getitem (snd (histogram [1 # 10; 9 # 10])) i_two = Ok (9 # 10)) /\
  get_score_threshs [17%Z; (-1)%Z; 5%Z] [9 # 10; 1 # 10] [1 # 10; 9 # 10]
  = get_score_threshs [17%Z; (-1)%Z] [9 # 10; 1 # 10] [1 # 10; 9 # 10].
Proof.
  destruct (get_score_threshs_reads_two_indices [17%Z; (-1)%Z; 5%Z]
              [9 # 10; 1 # 10] [1 # 10; 9 # 10]) as [Honly Hsame].
  split; [|exact Hsame].
  apply Honly. vm_compute. reflexivity.
Defined.

(** The bin edges in closed form. *)
Lemma edges_nth (scores : Series) (i : nat) :
  (i <= 100)%nat ->
  nth i (snd (histogram scores)) 0
  == inject_Z (Z.of_nat i)
     * ((snd (Numpy.outer_edges scores) - fst (Numpy.outer_edges scores)) / 100)
     + fst (Numpy.outer_edges scores).
Proof.
  intro Hi. unfold histogram, Numpy.histogram_bins.
  destruct (Numpy.outer_edges scores) as [lo hi]. cbn [fst snd].
  rewrite linspace_nth by lia. reflexivity.
Qed.

Lemma bin_edges_increase_and_enclose_aux (scores : Series) :
  (forall i j, (i < j <= 100)%nat ->
               nth i (snd (histogram scores)) 0 < nth j (snd (histogram scores)) 0) /\
  (forall x, In x scores ->
             nth 0 (snd (histogram scores)) 0 <= x /\
             x <= nth 100 (snd (histogram scores)) 0).
Proof.
  destruct (Numpy.outer_edges scores) as [lo hi] eqn:E.
  destruct (outer_edges_enclose scores lo hi E) as [Hlt Hin].
  assert (Hstep : 0 < (hi - lo) / 100).
  { apply Qlt_shift_div_l; [reflexivity|]. ring_simplify.
    apply Qplus_lt_l with (z := lo). ring_simplify. exact Hlt. }
  split.
  - intros i j Hij. rewrite !edges_nth by lia. rewrite E. cbn [fst snd].
    apply Qplus_lt_l. apply Qmult_lt_compat_r; [exact Hstep|].
    rewrite <- Zlt_Qlt. lia.
  - intros x Hx. destruct (Hin x Hx) as [H1 H2].
    rewrite !edges_nth by lia. rewrite E. cbn [fst snd]. split.
    + setoid_replace (inject_Z (Z.of_nat 0) * ((hi - lo) / 100) + lo) with lo
        by (cbn; ring).
      exact H1.
    + setoid_replace (inject_Z (Z.of_nat 100) * ((hi - lo) / 100) + lo) with hi
        by (cbn; field).
      exact H2.
Qed.


Lemma fold_qmin_In (l : list Q) (x : Q) : In (fold_left Numpy.qmin l x) (x :: l).
Proof.
  revert x. induction l as [|y l IH]; intro x; [now left|].
  cbn [fold_left]. destruct (IH (Numpy.qmin x y)) as [H|H].
  - rewrite <- H. unfold Numpy.qmin. destruct (Qltb y x); [right; now left | now left].
  - right. now right.
Qed.

Lemma fold_qmax_In (l : list Q) (x : Q) : In (fold_left Numpy.qmax l x) (x :: l).
Proof.
  revert x. induction l as [|y l IH]; intro x; [now left|].
  cbn [fold_left]. destruct (IH (Numpy.qmax x y)) as [H|H].
  - rewrite <- H. unfold Numpy.qmax. destruct (Qltb x y); [right; now left | now left].
  - right. now right.
Qed.

(** The range of a column with two different scores runs from a score to a
    score. *)
Lemma outer_edges_attained (scores : Series) :
  (exists x y, In x scores /\ In y scores /\ ~ x == y) ->
  In (fst (Numpy.outer_edges scores)) scores /\
  In (snd (Numpy.outer_edges scores)) scores.
Proof.
  intros (x & y & Hx & Hy & Hxy).
  destruct scores as [|x0 a]; [destruct Hx|].
  unfold Numpy.outer_edges.
  destruct (fold_qmin_le a x0) as [Hm0 Hm].
  destruct (fold_qmax_ge a x0) as [HM0 HM].
  assert (Hin : forall z, In z (x0 :: a) ->
                  fold_left Numpy.qmin a x0 <= z /\ z <= fold_left Numpy.qmax a x0).
  { intros z [<-|Hz]; split; auto. }
  destruct (Qeq_bool (fold_left Numpy.qmin a x0) (fold_left Numpy.qmax a x0)) eqn:E.
  - exfalso. apply Qeq_bool_iff in E. apply Hxy.
    destruct (Hin x Hx) as [H1 H2]. destruct (Hin y Hy) as [H3 H4].
    rewrite <- E in H2, H4. apply Qle_antisym.
    + eapply Qle_trans; [exact H2 | exact H3].
    + eapply Qle_trans; [exact H4 | exact H1].
  - cbn [fst snd]. split; [apply fold_qmin_In | apply fold_qmax_In].
Qed.

(** Every bin edge lies between the first and the last one. *)
Lemma edge_between_outer_edges (scores : Series) (i : Z) (t : Q) :
  getitem (snd (histogram scores)) i = Ok t ->
  fst (Numpy.outer_edges scores) <= t /\ t <= snd (Numpy.outer_edges scores).
Proof.
  intro H. apply getitem_In in H.
  destruct (In_nth _ _ 0 H) as (k & Hk & <-).
  assert (Hlen : List.length (snd (histogram scores)) = 101%nat).
  { unfold histogram. exact (proj2 (histogram_bins_length 100 scores)). }
  rewrite Hlen in Hk.
  destruct (bin_edges_increase_and_enclose_aux scores) as [Hinc _].
  assert (H0 : nth 0 (snd (histogram scores)) 0 == fst (Numpy.outer_edges scores)).
  { rewrite edges_nth by lia. cbn [Z.of_nat inject_Z]. ring. }
  assert (H100 : nth 100 (snd (histogram scores)) 0 == snd (Numpy.outer_edges scores)).
  { rewrite edges_nth by lia. cbn [Z.of_nat inject_Z]. field. }
  rewrite <- H0, <- H100. split.
  - destruct k as [|k]; [apply Qle_refl|]. apply Qlt_le_weak, Hinc. lia.
  - destruct (Nat.eq_dec k 100) as [->|Hne]; [apply Qle_refl|].
    apply Qlt_le_weak, Hinc. lia.
Qed.

(** X4.  A threshold that [get_score_threshs] returns for a column with two
    different scores never leaves the scores of that column: some score of
    the column is not above it and some score is not below it, whatever
    index was selected. *)
Theorem thresholds_lie_between_scores
  (selected_thresh : list Z) (scores_B scores_Mono : Series)
  (thresh_one thresh_two : Q) :
  get_score_threshs selected_thresh scores_B scores_Mono
  = Ok (thresh_one, thresh_two) ->
  ((exists x y, In x scores_B /\ In y scores_B /\ ~ x == y) ->
   exists lo hi, In lo scores_B /\ In hi scores_B /\
                 lo <= thresh_one /\ thresh_one <= hi) /\
  ((exists x y, In x scores_Mono /\ In y scores_Mono /\ ~ x == y) ->
   exists lo hi, In lo scores_Mono /\ In hi scores_Mono /\
                 lo <= thresh_two /\ thresh_two <= hi).
Proof.
  intro H.
  destruct (get_score_threshs_inv _ _ _ _ _ H) as (i_one & i_two & _ & _ & E1 & E2).
  split; intro Hdiff.
  - destruct (outer_edges_attained scores_B Hdiff) as [Hlo Hhi].
    destruct (edge_between_outer_edges _ _ _ E1) as [H1 H2]. eauto 6.
  - destruct (outer_edges_attained scores_Mono Hdiff) as [Hlo Hhi].
    destruct (edge_between_outer_edges _ _ _ E2) as [H1 H2]. eauto 6.
Qed.

Lemma thresholds_lie_between_scores_witness :
  exists lo hi, In lo [9 # 10; 1 # 10; 5 # 100; 8 # 10] /\
                In hi [9 # 10; 1 # 10; 5 # 100; 8 # 10] /\
                lo <= 1945000 # 10000000 /\ 1945000 # 10000000 <= hi.
Proof.
  apply (proj1 (thresholds_lie_between_scores [17%Z; 18%Z]
                  [9 # 10; 1 # 10; 5 # 100; 8 # 10] [1 # 10; 9 # 10; 5 # 100; 75 # 100]
                  (1945000 # 10000000) (2030000 # 10000000)
                  ltac:(vm_compute; reflexivity))).
  exists (9 # 10), (1 # 10). simpl. repeat split; auto. discriminate.
Defined.

Lemma getitem_nth {A : Type} (l : list A) (i : Z) (a d : A) :
  (0 <= i)%Z -> getitem l i = Ok a -> nth (Z.to_nat i) l d = a.
Proof.
  intros Hi H. rewrite <- (Z2Nat.id i Hi) in H. apply getitem_nat in H.
  now apply nth_error_nth.
Qed.

(** One turn of the two-signature scores loop, entity by entity. *)
Lemma step_rest_spec
  (obs : Frame) (scoring_names_3_sigs : list string) (i : nat) (threshs : list Z)
  (B_thresh M_thresh : Q) (labels : list string) :
  scores_HL_2sigs_step obs (scoring_names_2_sigs scoring_names_3_sigs) i threshs
  = Ok (B_thresh, M_thresh, labels) ->
  exists name_B name_M B_scores M_scores i_one i_two,
    nth_error (scoring_names_2_sigs scoring_names_3_sigs) i = Some name_B /\
    nth_error (scoring_names_2_sigs scoring_names_3_sigs) (S i) = Some name_M /\
    column obs name_B = Ok B_scores /\
    column obs name_M = Ok M_scores /\
    nth_error threshs 0 = Some i_one /\
    nth_error threshs 1 = Some i_two /\
    getitem (snd (histogram B_scores)) i_one = Ok B_thresh /\
    getitem (snd (histogram M_scores)) i_two = Ok M_thresh /\
    List.length labels = List.length B_scores /\
    forall e l, nth_error labels e = Some l ->
    exists b m,
      nth_error B_scores e = Some b /\ nth_error M_scores e = Some m /\
      (l = rest_label <-> b < B_thresh /\ m < M_thresh).
Proof.
  intro H. apply step_inv in H.
  destruct H as (name_B & name_M & B_scores & M_scores & HnB & HnM & HB & HM & Hth & H).
  destruct (get_score_threshs_inv _ _ _ _ _ Hth) as (i_one & i_two & H0 & H1 & E1 & E2).
  destruct (label_with_rest_nth _ _ _ _ _ _ _ _ _ HB HM H) as (curr_val & Hcurr & Hnth).
  exists name_B, name_M, B_scores, M_scores, i_one, i_two.
  do 8 (split; [assumption|]).
  assert (Hlen : List.length labels = List.length obs).
  { unfold label_with_rest in H. inv_bind H. injection H as <-.
    rewrite loc_set_length. exact (hard_label_length _ _ _ _ Hx). }
  split.
  { rewrite Hlen. unfold column in HB. apply mapM_length in HB. congruence. }
  intros e l Hl.
  destruct (nth_error obs e) as [row|] eqn:Hrow.
  2:{ apply nth_error_None in Hrow.
      assert (e < List.length labels)%nat by (apply nth_error_Some; congruence). lia. }
  destruct (Hnth e row Hrow) as (b & m & a & Lb & Lm & Ha & Hl').
  rewrite Hl in Hl'. injection Hl' as ->.
  destruct (column_nth _ _ _ HB e row Hrow) as (b' & Hb' & Lb').
  destruct (column_nth _ _ _ HM e row Hrow) as (m' & Hm' & Lm').
  assert (b' = b) by congruence. assert (m' = m) by congruence. subst b' m'.
  exists b, m. do 2 (split; [assumption|]).
  assert (Hne : a <> rest_label).
  { destruct (hard_label_In _ _ _ _ Hcurr a (nth_error_In _ _ Ha)) as (c & Hc & Hsig).
    apply slice_In in Hc. exact (two_sigs_name_not_rest _ _ _ _ _ Hc Hsig). }
  destruct (Qltb b B_thresh) eqn:Eb; simpl.
  - apply Qltb_lt in Eb. destruct (Qltb m M_thresh) eqn:Em.
    + apply Qltb_lt in Em. tauto.
    + apply Qltb_ge in Em. split; [tauto|].
      intros [_ Hm]. exfalso. exact (Qle_not_lt _ _ Em Hm).
  - apply Qltb_ge in Eb. split; [tauto|].
    intros [Hb _]. exfalso. exact (Qle_not_lt _ _ Eb Hb).
Qed.

(** X5.  When the selected index of either signature is 0, the threshold is
    the lowest bin edge, no score is below it, and the turn labels no entity
    with the remaining class. *)
Theorem lowest_index_leaves_no_rest
  (obs : Frame) (scoring_names_3_sigs : list string) (i : nat) (threshs : list Z)
  (B_thresh M_thresh : Q) (labels : list string) :
  scores_HL_2sigs_step obs (scoring_names_2_sigs scoring_names_3_sigs) i threshs
  = Ok (B_thresh, M_thresh, labels) ->
  nth_error threshs 0 = Some 0%Z \/ nth_error threshs 1 = Some 0%Z ->
  ~ In rest_label labels.
Proof.
  intros H Hzero Hin. apply step_rest_spec in H.
  destruct H as (name_B & name_M & B_scores & M_scores & i_one & i_two
                 & _ & _ & _ & _ & H0 & H1 & E1 & E2 & _ & Hl).
  apply In_nth_error in Hin. destruct Hin as [e He].
  destruct (Hl e rest_label He) as (b & m & Hb & Hm & Hiff).
  apply nth_error_In in Hb, Hm.
  destruct (proj1 Hiff eq_refl) as [Hlb Hlm].
  destruct Hzero as [Hz|Hz].
  - assert (i_one = 0%Z) by congruence. subst i_one.
    apply (getitem_nth _ _ _ 0) in E1; [|lia]. cbn [Z.to_nat] in E1.
    destruct (proj2 (bin_edges_increase_and_enclose_aux B_scores) b Hb) as [Hle _].
    rewrite E1 in Hle. exact (Qle_not_lt _ _ Hle Hlb).
  - assert (i_two = 0%Z) by congruence. subst i_two.
    apply (getitem_nth _ _ _ 0) in E2; [|lia]. cbn [Z.to_nat] in E2.
    destruct (proj2 (bin_edges_increase_and_enclose_aux M_scores) m Hm) as [Hle _].
    rewrite E2 in Hle. exact (Qle_not_lt _ _ Hle Hlm).
Qed.

Lemma lowest_index_leaves_no_rest_witness :
  ~ In rest_label ["B"; "Mono"; "B"; "B"]%string.
Proof.
  apply (lowest_index_leaves_no_rest obs4 names3 0 [0%Z; 18%Z]
           (500000 # 10000000) (2030000 # 10000000)).
  - vm_compute. reflexivity.
  - left. reflexivity.
Defined.

Lemma edge_le_of_index_le (scores : Series) (i j : Z) (t t' : Q) :
  (0 <= i <= j)%Z ->
  getitem (snd (histogram scores)) i = Ok t ->
  getitem (snd (histogram scores)) j = Ok t' ->
  t <= t'.
Proof.
  intros Hij Hi Hj.
  assert (Hjr : (j < 101)%Z).
  { destruct (Z_lt_dec j 101) as [H|H]; [exact H|].
    rewrite getitem_out_of_range in Hj; [discriminate|].
    rewrite edges_length. lia. }
  apply (getitem_nth _ _ _ 0) in Hi; [|lia].
  apply (getitem_nth _ _ _ 0) in Hj; [|lia].
  subst t t'. destruct (Z.eq_dec i j) as [->|Hne]; [apply Qle_refl|].
  apply Qlt_le_weak.
  apply (proj1 (bin_edges_increase_and_enclose_aux scores)). lia.
Qed.

(** X6.  Raising the selected indices never takes an entity out of the
    remaining class: with both indices at least as high (counted from the
    left end), every entity labelled with the remaining class is still
    labelled so. *)
Theorem higher_indices_keep_rest
  (obs : Frame) (scoring_names_3_sigs : list string) (i : nat)
  (threshs threshs' : list Z) (i_one i_two i_one' i_two' : Z)
  (B_thresh M_thresh B_thresh' M_thresh' : Q) (labels labels' : list string) :
  scores_HL_2sigs_step obs (scoring_names_2_sigs scoring_names_3_sigs) i threshs
  = Ok (B_thresh, M_thresh, labels) ->
  scores_HL_2sigs_step obs (scoring_names_2_sigs scoring_names_3_sigs) i threshs'
  = Ok (B_thresh', M_thresh', labels') ->
  nth_error threshs 0 = Some i_one -> nth_error threshs 1 = Some i_two ->
  nth_error threshs' 0 = Some i_one' -> nth_error threshs' 1 = Some i_two' ->
  (0 <= i_one <= i_one')%Z -> (0 <= i_two <= i_two')%Z ->
  forall e, nth_error labels e = Some rest_label ->
            nth_error labels' e = Some rest_label.
Proof.
  intros H H' S0 S1 S0' S1' R1 R2 e He.
  apply step_rest_spec in H, H'.
  destruct H as (name_B & name_M & B_scores & M_scores & j_one & j_two
                 & NB & NM & CB & CM & T0 & T1 & E1 & E2 & Hlen & Hl).
  destruct H' as (name_B' & name_M' & B_scores' & M_scores' & j_one' & j_two'
                  & NB' & NM' & CB' & CM' & T0' & T1' & E1' & E2' & Hlen' & Hl').
  assert (name_B' = name_B) by congruence. assert (name_M' = name_M) by congruence.
  subst name_B' name_M'.
  assert (B_scores' = B_scores) by congruence. assert (M_scores' = M_scores) by congruence.
  subst B_scores' M_scores'.
  assert (j_one = i_one) by congruence. assert (j_two = i_two) by congruence.
  assert (j_one' = i_one') by congruence. assert (j_two' = i_two') by congruence.
  subst j_one j_two j_one' j_two'.
  destruct (Hl e rest_label He) as (b & m & Hb & Hm & Hiff).
  destruct (proj1 Hiff eq_refl) as [Hlb Hlm].
  destruct (nth_error labels' e) as [l'|] eqn:El'.
  2:{ apply nth_error_None in El'.
      assert (e < List.length labels)%nat by (apply nth_error_Some; congruence). lia. }
  destruct (Hl' e l' El') as (b' & m' & Hb' & Hm' & Hiff').
  assert (b' = b) by congruence. assert (m' = m) by congruence. subst b' m'.
  f_equal. apply Hiff'. split.
  - eapply Qlt_le_trans; [exact Hlb|].
    exact (edge_le_of_index_le B_scores i_one i_one' _ _ R1 E1 E1').
  - eapply Qlt_le_trans; [exact Hlm|].
    exact (edge_le_of_index_le M_scores i_two i_two' _ _ R2 E2 E2').
Qed.

Lemma higher_indices_keep_rest_witness :
  nth_error ["B"; "Mono"; "NK"; "B"]%string 2 = Some rest_label.
Proof.
  apply (higher_indices_keep_rest obs4 names3 0 [17%Z; 18%Z] [30%Z; 40%Z]
           17 18 30 40
           (1945000 # 10000000) (2030000 # 10000000)
           (3050000 # 10000000) (3900000 # 10000000)
           ["B"; "Mono"; "NK"; "B"]%string ["B"; "Mono"; "NK"; "B"]%string).
  - vm_compute. reflexivity.
  - vm_compute. reflexivity.
  - reflexivity.
  - reflexivity.
  - reflexivity.
  - reflexivity.
  - lia.
  - lia.
  - reflexivity.
Defined.

(** ** What the distribution plot draws *)

Lemma loop_var_last (e : option nat) (x_min : list nat) :
  x_min <> [] -> loop_var e x_min = Some (last x_min 0%nat).
Proof.
  unfold loop_var. revert e.
  induction x_min as [|x x_min IH]; intros e Hne; [congruence|].
  cbn [fold_left]. destruct x_min as [|y x_min]; [reflexivity|].
  rewrite IH by discriminate. reflexivity.
Qed.

Lemma last_app_cons {A : Type} (l l' : list A) (y d : A) :
  last (l ++ y :: l') d = last (y :: l') d.
Proof.
  induction l as [|x l IH]; [reflexivity|].
  cbn [app]. rewrite <- IH. destruct (l ++ y :: l') eqn:E; [|reflexivity].
  destruct l; discriminate.
Qed.

Lemma draw_minima_In (c : string) (top : Q) (x_min : list nat) (cmd : plot_cmd) :
  In cmd (draw_minima c top x_min) <->
  exists e, In e x_min /\ (cmd = axvline e c None \/ cmd = text e top e).
Proof.
  unfold draw_minima. rewrite in_flat_map. split.
  - intros (e & He & [ <- | [ <- | [] ] ]); eauto.
  - intros (e & He & [ -> | -> ]); exists e; simpl; auto.
Qed.

(** X8.  [plot_score_distributions] ends normally exactly when the B
    histogram has a candidate minimum.  It then draws one unlabelled red line
    per B minimum and one unlabelled green line per Mono minimum and nothing
    else unlabelled; the labelled red line is at the last B minimum, and the
    labelled green line is at the last Mono minimum or, when the Mono
    histogram has none, at the last B minimum. *)
Theorem plot_score_distributions_outcome
  (method : string) (scores_B scores_Mono : Series) :
  exists x_min_B x_min_Mono,
    density_minima scores_B = Ok x_min_B /\
    density_minima scores_Mono = Ok x_min_Mono /\
    (x_min_B = [] ->
     plot_score_distributions method scores_B scores_Mono = Raise UnboundLocalError) /\
    (x_min_B <> [] ->
     exists cmds,
       plot_score_distributions method scores_B scores_Mono = Ok cmds /\
       (forall e c, In (axvline e c None) cmds <->
                    (c = "r"%string /\ In e x_min_B) \/
                    (c = "g"%string /\ In e x_min_Mono)) /\
       (forall e c label, In (axvline e c (Some label)) cmds <->
                    (c = "r"%string /\ label = "mins B scores dist"%string /\
                     e = last x_min_B 0%nat) \/
                    (c = "g"%string /\ label = "mins Mono scores dist"%string /\
                     e = last (x_min_B ++ x_min_Mono) 0%nat))).
Proof.
  destruct (density_minima_candidates scores_B) as (x_min_B & HB & _).
  destruct (density_minima_candidates scores_Mono) as (x_min_Mono & HM & _).
  exists x_min_B, x_min_Mono. do 2 (split; [assumption|]).
  unfold plot_score_distributions. unfold density_minima in HB, HM.
  rewrite HB. cbn [bind]. split.
  - intros ->. reflexivity.
  - intro Hne. rewrite (loop_var_last None x_min_B Hne). cbn [of_option bind].
    rewrite HM. cbn [bind].
    assert (Hlast : loop_var (Some (last x_min_B 0%nat)) x_min_Mono
                    = Some (last (x_min_B ++ x_min_Mono) 0%nat)).
    { destruct x_min_Mono as [|y l].
      - rewrite app_nil_r. reflexivity.
      - rewrite loop_var_last by discriminate.
        rewrite last_app_cons. reflexivity. }
    rewrite Hlast. cbn [of_option bind].
    eexists. split; [reflexivity|]. split.
    + intros e c. rewrite !in_app_iff, !draw_minima_In. cbn [In]. split.
      * intros [[H|[H|[]]]|[(e' & He' & [H|H])|[[H|[H|[H|[]]]]|[(e' & He' & [H|H])|[H|[H|[H|[]]]]]]]];
          try discriminate; injection H as <- <-; auto.
      * intros [[-> H]|[-> H]].
        -- right. left. eauto.
        -- right. right. right. left. eauto.
    + intros e c label. rewrite !in_app_iff, !draw_minima_In. cbn [In]. split.
      * intros [[H|[H|[]]]|[(e' & He' & [H|H])|[[H|[H|[H|[]]]]|[(e' & He' & [H|H])|[H|[H|[H|[]]]]]]]];
          try discriminate; injection H as <- <- <-; auto.
      * intros [(-> & -> & ->)|(-> & -> & ->)].
        -- right. right. left. left. reflexivity.
        -- right. right. right. right. left. reflexivity.
Qed.

Lemma plot_score_distributions_outcome_witness :
  plot_score_distributions "ANS" spike_scores valley_scores = Raise UnboundLocalError /\
  exists cmds,
    plot_score_distributions "ANS" valley_scores spike_scores = Ok cmds /\
    In (axvline 3 "g" (Some "mins Mono scores dist"%string)) cmds.
Proof.
  split.
  - destruct (plot_score_distributions_outcome "ANS" spike_scores valley_scores)
      as (x_min_B & x_min_Mono & HB & _ & Hraise & _).
    apply Hraise. vm_compute in HB. injection HB as <-. reflexivity.
  - destruct (plot_score_distributions_outcome "ANS" valley_scores spike_scores)
      as (x_min_B & x_min_Mono & HB & HM & _ & Hok).
    vm_compute in HB. injection HB as <-.
    vm_compute in HM. injection HM as <-.
    destruct (Hok ltac:(discriminate)) as (cmds & Hcmds & _ & Hlab).
    exists cmds. split; [exact Hcmds|].
    apply Hlab. right. repeat split.
Defined.

(** ** How the loops pair columns, groups and methods *)

(** X9.  The two-signature scores cell pairs methods and columns by position
    only: its k-th label column is named after the k-th key of the selection
    and labels the entities from the pair of columns at positions 2k and
    2k+1 with the thresholds of that key, whatever method these columns are
    named after; keys beyond the number of column pairs, and column pairs
    beyond the number of keys, give no label column. *)
Theorem scores_HL_2sigs_pairs_by_position
  (obs : Frame) (scoring_names : list string)
  (selected_thresh : list (string * list Z)) (cols : list (string * list string)) :
  scores_HL_2sigs obs scoring_names selected_thresh = Ok cols ->
  List.length cols
  = Nat.min (List.length selected_thresh) ((List.length scoring_names + 1) / 2) /\
  forall k col labels,
    nth_error cols k = Some (col, labels) ->
    exists method threshs B_thresh M_thresh,
      nth_error selected_thresh k = Some (method, threshs) /\
      col = String.append method "_scores_HL_2sigs" /\
      scores_HL_2sigs_step obs scoring_names (k * 2) threshs
      = Ok (B_thresh, M_thresh, labels).
Proof.
  unfold scores_HL_2sigs. intro H. split.
  - apply mapM_length in H. rewrite H, length_combine, range_length. reflexivity.
  - intros k col labels Hk. apply mapM_Forall2 in H.
    destruct (Forall2_nth_error_r _ _ _ H k _ Hk) as ([[method threshs] i] & Hi & Hstep).
    apply combine_nth_error in Hi. destruct Hi as [Hsel Hrange].
    apply range_nth in Hrange. subst i.
    inv_bind Hstep. destruct x as [[B_thresh M_thresh] labels'].
    injection Hstep as <- <-.
    exists method, threshs, B_thresh, M_thresh. auto.
Qed.

Lemma scores_HL_2sigs_pairs_by_position_witness :
  List.length [("Scanpy_scores_HL_2sigs", ["B"; "Mono"; "NK"; "B"])]%string
  = Nat.min (List.length [("Scanpy", [17%Z; 18%Z]); ("Seurat", [3%Z; 4%Z])]%string)
            ((List.length names4 + 1) / 2) /\
  forall k col labels,
    nth_error [("Scanpy_scores_HL_2sigs", ["B"; "Mono"; "NK"; "B"])]%string k
    = Some (col, labels) ->
    exists method threshs B_thresh M_thresh,
      nth_error [("Scanpy", [17%Z; 18%Z]); ("Seurat", [3%Z; 4%Z])]%string k
      = Some (method, threshs) /\
      col = String.append method "_scores_HL_2sigs" /\
      scores_HL_2sigs_step obs4 names4 (k * 2) threshs
      = Ok (B_thresh, M_thresh, labels).
Proof.
  apply (scores_HL_2sigs_pairs_by_position obs4 names4
           [("Scanpy", [17%Z; 18%Z]); ("Seurat", [3%Z; 4%Z])]%string).
  vm_compute. reflexivity.
Defined.

Lemma chunks_concat {A : Type} (m : nat) (l : list A) :
  (List.length l <= 3 * m)%nat ->
  List.concat (map (fun k => firstn 3 (skipn (k * 3) l)) (seq 0 m)) = l.
Proof.
  revert l. induction m as [|m IH]; intros l Hlen.
  - destruct l; [reflexivity | simpl in Hlen; lia].
  - rewrite <- cons_seq, <- seq_shift. cbn [map List.concat]. rewrite map_map.
    change (skipn (0 * 3) l) with l.
    transitivity (firstn 3 l ++ skipn 3 l); [|apply firstn_skipn]. f_equal.
    etransitivity; [|apply (IH (skipn 3 l)); rewrite length_skipn; lia].
    f_equal. apply map_ext. intro k.
    rewrite skipn_skipn. replace (S k * 3)%nat with (k * 3 + 3)%nat by lia.
    reflexivity.
Qed.

(** X10.  The argmax cells cut the list of column names into consecutive
    groups of three, the last one shorter when the count is not a multiple of
    three: the groups put end to end are the whole list, there is one label
    column per group, and the k-th label column holds the labels of the
    group that starts at position 3k. *)
Theorem HL_loop_groups_cover_names
  (maxsplit : nat) (suffix : string) (obs : Frame) (scoring_names : list string)
  (cols : list (string * list string)) :
  HL_loop maxsplit suffix obs scoring_names = Ok cols ->
  List.concat (map (fun i => slice scoring_names i (i + 3))
              (range 0 (List.length scoring_names) 3)) = scoring_names /\
  List.length cols = ((List.length scoring_names + 2) / 3)%nat /\
  forall k col labels,
    nth_error cols k = Some (col, labels) ->
    hard_label maxsplit obs (slice scoring_names (k * 3) (k * 3 + 3)) = Ok labels.
Proof.
  intro H. split; [|split].
  - unfold range. rewrite map_map.
    etransitivity;
      [|apply (chunks_concat ((List.length scoring_names - 0 + (3 - 1)) / 3)
                 scoring_names)].
    + f_equal. apply map_ext. intro k. unfold slice.
      replace (0 + k * 3 + 3 - (0 + k * 3))%nat with 3%nat by lia. reflexivity.
    + assert (Hd := Nat.div_mod_eq (List.length scoring_names - 0 + (3 - 1)) 3).
      assert (Hm := Nat.mod_upper_bound (List.length scoring_names - 0 + (3 - 1)) 3).
      lia.
  - unfold HL_loop in H. apply mapM_length in H. rewrite H, range_length. reflexivity.
  - intros k col labels Hk. unfold HL_loop in H. apply mapM_Forall2 in H.
    destruct (Forall2_nth_error_r _ _ _ H k _ Hk) as (i & Hi & Hbody).
    apply range_nth in Hi. subst i.
    inv_bind Hbody. inv_bind Hbody. inv_bind Hbody. injection Hbody as _ <-.
    assumption.
Qed.

Lemma HL_loop_groups_cover_names_witness :
  List.concat (map (fun i => slice names3 i (i + 3))
              (range 0 (List.length names3) 3)) = names3 /\
  List.length [("ANS_scores_HL_3sigs", ["NK"; "B"; "Mono"])]%string
  = ((List.length names3 + 2) / 3)%nat /\
  forall k col labels,
    nth_error [("ANS_scores_HL_3sigs", ["NK"; "B"; "Mono"])]%string k = Some (col, labels) ->
    hard_label 1 obs3 (slice names3 (k * 3) (k * 3 + 3)) = Ok labels.
Proof.
  apply (HL_loop_groups_cover_names 1 "_scores_HL_3sigs" obs3 names3).
  vm_compute. reflexivity.
Defined.

(** ** Columns written into the table *)

Lemma row_set_lookup (name n : string) (v : Q) (r : Row) :
  lookup n (row_set name v r) = if String.eqb name n then Some v else lookup n r.
Proof.
  induction r as [|[m x] r IH]; cbn [row_set lookup].
  - reflexivity.
  - destruct (String.eqb_spec m name) as [->|Hne]; cbn [lookup].
    + destruct (String.eqb name n); reflexivity.
    + rewrite IH. destruct (String.eqb_spec m n) as [->|_]; [|reflexivity].
      destruct (String.eqb_spec name n) as [->|_]; [congruence | reflexivity].
Qed.

Lemma setitem_column_same (obs obs' : Frame) (name : string) (values : Series) :
  setitem obs name values = Ok obs' -> column obs' name = Ok values.
Proof.
  revert values obs'. induction obs as [|r obs IH]; intros [|v values] obs' H;
    cbn [setitem] in H; try discriminate.
  - injection H as <-. reflexivity.
  - inv_bind H. injection H as <-. unfold column in *. cbn [mapM].
    rewrite row_set_lookup, String.eqb_refl. cbn [of_option bind].
    rewrite (IH _ _ Hx). reflexivity.
Qed.

Lemma setitem_column_other (obs obs' : Frame) (name n : string) (values : Series) :
  setitem obs name values = Ok obs' -> n <> name -> column obs' n = column obs n.
Proof.
  intros H Hne. revert values obs' H.
  induction obs as [|r obs IH]; intros [|v values] obs' H;
    cbn [setitem] in H; try discriminate.
  - injection H as <-. reflexivity.
  - inv_bind H. injection H as <-. unfold column in *. cbn [mapM].
    rewrite row_set_lookup.
    destruct (String.eqb_spec name n) as [->|_]; [congruence|].
    rewrite (IH _ _ Hx). reflexivity.
Qed.

Lemma setitem_total (obs : Frame) (name : string) (values : Series) :
  List.length values = List.length obs -> exists obs', setitem obs name values = Ok obs'.
Proof.
  revert values. induction obs as [|r obs IH]; intros [|v values] H;
    simpl in H; try discriminate.
  - simpl. eauto.
  - destruct (IH values ltac:(lia)) as [obs' Hobs']. cbn [setitem].
    rewrite Hobs'. cbn [bind]. eauto.
Qed.

(** X11.  After [obs[new] = obs[src].copy()] the column [new] reads as the
    column [src] read before, and every other column reads as before; the
    copy is made whenever the source column can be read, and raises what
    reading the source raises. *)
Theorem copy_column_round_trip (obs : Frame) (new src : string) :
  (forall values, column obs src = Ok values ->
     exists obs',
       copy_column obs new src = Ok obs' /\
       column obs' new = Ok values /\
       forall n, n <> new -> column obs' n = column obs n) /\
  (forall e, column obs src = Raise e -> copy_column obs new src = Raise e).
Proof.
  split.
  - intros values Hsrc. unfold copy_column. rewrite Hsrc. cbn [bind].
    destruct (setitem_total obs new values) as [obs' Hset].
    { unfold column in Hsrc. exact (mapM_length _ _ _ Hsrc). }
    exists obs'. split; [exact Hset|]. split.
    + exact (setitem_column_same _ _ _ _ Hset).
    + intros n Hn. exact (setitem_column_other _ _ _ _ _ Hset Hn).
  - intros e Hsrc. unfold copy_column. rewrite Hsrc. reflexivity.
Qed.

Lemma copy_column_round_trip_witness :
  (exists obs',
      copy_column obs4 "ANS_B_gmm_2sigs" "ANS_B" = Ok obs' /\
      column obs' "ANS_B_gmm_2sigs" = Ok [9 # 10; 1 # 10; 5 # 100; 8 # 10] /\
      forall n, n <> "ANS_B_gmm_2sigs"%string -> column obs' n = column obs4 n) /\
  copy_column obs4 "ANS_B_gmm_2sigs" "ANS_GMM_0" = Raise KeyError.
Proof.
  destruct (copy_column_round_trip obs4 "ANS_B_gmm_2sigs" "ANS_B") as [Hok _].
  destruct (copy_column_round_trip obs4 "ANS_B_gmm_2sigs" "ANS_GMM_0") as [_ Herr].
  split.
  - apply Hok. reflexivity.
  - apply Herr. reflexivity.
Defined.

Lemma copy_column_rows (obs obs' : Frame) (new src : string) :
  copy_column obs new src = Ok obs' ->
  Forall2 (fun row row' => exists v, lookup src row = Some v /\ row' = row_set new v row)
          obs obs'.
Proof.
  unfold copy_column, column. intro H. inv_bind H. rename x into values.
  revert values obs' Hx H. induction obs as [|r obs IH]; intros values obs' Hcol Hset.
  - cbn [mapM] in Hcol. injection Hcol as <-. cbn [setitem] in Hset.
    injection Hset as <-. constructor.
  - cbn [mapM] in Hcol. inv_bind Hcol. rename x into v. inv_bind Hcol.
    injection Hcol as <-. cbn [setitem] in Hset. inv_bind Hset. injection Hset as <-.
    constructor; [|eapply IH; eassumption].
    exists v. split; [|reflexivity].
    destruct (lookup src r); simpl in Hx; congruence.
Qed.

Lemma Forall2_compose {A : Type} (R1 R2 R : A -> A -> Prop) (l1 l2 l3 : list A) :
  (forall a b c, R1 a b -> R2 b c -> R a c) ->
  Forall2 R1 l1 l2 -> Forall2 R2 l2 l3 -> Forall2 R l1 l3.
Proof.
  intros HR H12. revert l3. induction H12 as [|a b l1 l2 Hab _ IH]; intros l3 H23.
  - inversion H23. constructor.
  - inversion H23 as [|? c ? l3' Hbc Hrest]; subst. constructor; eauto.
Qed.

Lemma Forall2_refl_on {A : Type} (R : A -> A -> Prop) (l : list A) :
  (forall a, R a a) -> Forall2 R l l.
Proof.
  intro HR. induction l; constructor; auto.
Qed.

Lemma store_assignments_rows (suffix : string) (assignments : list (string * string))
  (st st' : Frame * list string) :
  store_assignments suffix assignments st = Ok st' ->
  snd st' = snd st ++ map (fun kv => String.append (fst kv) suffix) assignments /\
  Forall2 (copied suffix assignments) (fst st) (fst st').
Proof.
  revert st. induction assignments as [|[key val] rest IH]; intros st H.
  - cbn [store_assignments] in H. injection H as <-. split.
    + now rewrite app_nil_r.
    + apply Forall2_refl_on. intro row. split; [reflexivity|].
      intros _ _ kv [].
  - cbn [store_assignments] in H. inv_bind H. rename x into obs1, Hx into Hcopy.
    apply IH in H. destruct H as [Hnames Hrows]. cbn [fst snd] in *. split.
    + rewrite Hnames, <- app_assoc. reflexivity.
    + apply copy_column_rows in Hcopy.
      eapply Forall2_compose; [|exact Hcopy|exact Hrows].
      intros row row1 row' (v & Hv & ->) [Hother Hcopied]. split.
      * intros n Hn. cbn [map In fst] in Hn.
        rewrite Hother by tauto. rewrite row_set_lookup.
        destruct (String.eqb_spec (String.append key suffix) n) as [<-|_]; tauto.
      * intros Hnd Hvals kv Hkv. cbn [map fst] in Hnd, Hvals.
        inversion Hnd as [|? ? Hnotin Hnd']; subst.
        destruct Hkv as [<-|Hkv]; cbn [fst snd].
        -- exists v. split; [exact Hv|].
           rewrite Hother by exact Hnotin.
           rewrite row_set_lookup, String.eqb_refl. reflexivity.
        -- assert (Hvals' : forall kv', In kv' rest ->
                     ~ In (snd kv')
                          (map (fun kv => String.append (fst kv) suffix) rest)).
           { intros kv' Hkv' Hin. apply (Hvals kv'); [now right | now right]. }
           destruct (Hcopied Hnd' Hvals' kv Hkv) as (w & Hw & Hw').
           exists w. split; [|exact Hw'].
           rewrite row_set_lookup in Hw.
           destruct (String.eqb_spec (String.append key suffix) (snd kv)) as [E|_];
             [|exact Hw].
           exfalso. apply (Hvals kv); [now right | left; exact E].
Qed.

Lemma append_length (a b : string) :
  String.length (String.append a b) = (String.length a + String.length b)%nat.
Proof.
  induction a as [|c a IH]; simpl; [reflexivity|]. now rewrite IH.
Qed.

Lemma append_inj_l (a b s : string) :
  String.append a s = String.append b s -> a = b.
Proof.
  revert b. induction a as [|c a IH]; intros [|d b] H; cbn [String.append] in H.
  - reflexivity.
  - exfalso. apply (f_equal String.length) in H. cbn [String.length] in H.
    rewrite append_length in H. lia.
  - exfalso. apply (f_equal String.length) in H. cbn [String.length] in H.
    rewrite append_length in H. lia.
  - injection H as -> H. f_equal. now apply IH.
Qed.

Lemma new_names_NoDup (suffix : string) (assignments : list (string * string)) :
  NoDup (map fst assignments) ->
  NoDup (map (fun kv => String.append (fst kv) suffix) assignments).
Proof.
  induction assignments as [|[key val] rest IH]; intro H; cbn [map fst] in *.
  - constructor.
  - inversion H as [|? ? Hnotin Hnd]; subst. constructor; [|now apply IH].
    intro Hin. apply Hnotin. apply in_map_iff in Hin.
    destruct Hin as ([k v] & E & Hkv). cbn [fst] in E.
    apply append_inj_l in E. subst k.
    apply in_map_iff. exists (key, v). auto.
Qed.

Lemma column_of_rows (obs obs' : Frame) (a b : string) :
  Forall2 (fun row row' => lookup a row' = lookup b row) obs obs' ->
  column obs' a = column obs b.
Proof.
  unfold column. induction 1 as [|row row' obs obs' E _ IH]; [reflexivity|].
  cbn [mapM]. now rewrite E, IH.
Qed.

(** X12.  The copies of cell [fbfe5384] for a dictionary with distinct keys,
    none of whose probability columns bears one of the new names: the new
    names are appended in the order of the dictionary, every new column reads
    as the probability column assigned to its key read before, and every
    other column reads as before. *)
Theorem store_assignments_copies_assigned_columns
  (suffix : string) (assignments : list (string * string))
  (obs obs' : Frame) (names names' : list string) :
  NoDup (map fst assignments) ->
  (forall kv, In kv assignments ->
              ~ In (snd kv) (map (fun kv => String.append (fst kv) suffix) assignments)) ->
  store_assignments suffix assignments (obs, names) = Ok (obs', names') ->
  names' = names ++ map (fun kv => String.append (fst kv) suffix) assignments /\
  (forall kv, In kv assignments ->
              column obs' (String.append (fst kv) suffix) = column obs (snd kv)) /\
  (forall n, ~ In n (map (fun kv => String.append (fst kv) suffix) assignments) ->
             column obs' n = column obs n).
Proof.
  intros Hkeys Hvals H. apply store_assignments_rows in H. cbn [fst snd] in H.
  destruct H as [Hnames Hrows]. split; [exact Hnames|]. split.
  - intros kv Hkv. apply column_of_rows.
    eapply Forall2_impl; [|exact Hrows]. intros row row' [_ Hc].
    destruct (Hc (new_names_NoDup suffix assignments Hkeys) Hvals kv Hkv) as (v & Hv & Hv').
    congruence.
  - intros n Hn. apply column_of_rows.
    eapply Forall2_impl; [|exact Hrows]. intros row row' [Ho _]. auto.
Qed.

Lemma store_assignments_copies_assigned_columns_witness :
  exists obs',
    store_assignments "_gmm_3sigs" assignments3 (obs_gmm, [])
    = Ok (obs', ["ANS_B_gmm_3sigs"; "ANS_Mono_gmm_3sigs"; "ANS_NK_gmm_3sigs"]%string) /\
    column obs' "ANS_B_gmm_3sigs" = column obs_gmm "ANS_GMM_2" /\
    column obs' "ANS_GMM_2" = column obs_gmm "ANS_GMM_2".
Proof.
  destruct (store_assignments "_gmm_3sigs" assignments3 (obs_gmm, []))
    as [[obs' names']|] eqn:E; [|discriminate].
  assert (Hn : names' = ["ANS_B_gmm_3sigs"; "ANS_Mono_gmm_3sigs"; "ANS_NK_gmm_3sigs"]%string).
  { vm_compute in E. injection E as _ <-. reflexivity. }
  subst names'.
  exists obs'. split; [reflexivity|].
  destruct (store_assignments_copies_assigned_columns
              "_gmm_3sigs" assignments3 obs_gmm obs' []
              ["ANS_B_gmm_3sigs"; "ANS_Mono_gmm_3sigs"; "ANS_NK_gmm_3sigs"]%string)
    as (_ & Hcopy & Hother); [| |exact E|].
  - repeat constructor; simpl; intuition discriminate.
  - intros kv Hkv. simpl in Hkv. simpl.
    intuition (subst; simpl in *; discriminate).
  - split.
    + apply (Hcopy ("ANS_B", "ANS_GMM_2")%string). now left.
    + apply Hother. simpl. intuition discriminate.
Defined.

(** X13.  The labels of the probability cell run on the copies of cell
    [fbfe5384] (distinct keys, no probability column under a new name): each
    entity gets the signature part of the name written for the key whose
    assigned probability column holds the entity's largest probability, and
    among tied keys the one that comes first in the dictionary. *)
Theorem probability_labels_follow_assignments
  (maxsplit : nat) (suffix : string) (assignments : list (string * string))
  (obs obs' : Frame) (names' labels : list string) :
  NoDup (map fst assignments) ->
  (forall kv, In kv assignments ->
              ~ In (snd kv) (map (fun kv => String.append (fst kv) suffix) assignments)) ->
  store_assignments suffix assignments (obs, []) = Ok (obs', names') ->
  hard_label maxsplit obs' names' = Ok labels ->
  forall e row, nth_error obs e = Some row ->
  exists pre kv post x label,
    assignments = pre ++ kv :: post /\
    lookup (snd kv) row = Some x /\
    rsplit_item maxsplit 1 (String.append (fst kv) suffix) = Ok label /\
    nth_error labels e = Some label /\
    (forall kv', In kv' pre -> exists w, lookup (snd kv') row = Some w /\ w < x) /\
    (forall kv', In kv' post -> exists w, lookup (snd kv') row = Some w /\ w <= x).
Proof.
  intros Hkeys Hvals Hstore Hlab e row He.
  apply store_assignments_rows in Hstore. cbn [fst snd app] in Hstore.
  destruct Hstore as [-> Hrows].
  destruct (Forall2_nth_error_l _ _ _ Hrows e row He) as (row' & He' & _ & Hc).
  specialize (Hc (new_names_NoDup suffix assignments Hkeys) Hvals).
  destruct (hard_label_first_max _ _ _ _ Hlab e row' He')
    as (pre' & c & post' & x & label & Hsplit & Hx & Hsig & Hl & Hpre & Hpost).
  apply map_eq_app in Hsplit. destruct Hsplit as (pre & rest & -> & <- & Hrest).
  apply map_eq_cons in Hrest. destruct Hrest as (kv & post & -> & <- & <-).
  exists pre, kv, post, x, label.
  assert (Hin : forall kv', In kv' (pre ++ kv :: post) ->
                 forall w, lookup (String.append (fst kv') suffix) row' = Some w ->
                           lookup (snd kv') row = Some w).
  { intros kv' Hkv' w Hw. destruct (Hc kv' Hkv') as (v & Hv & Hv'). congruence. }
  split; [reflexivity|]. split.
  { apply Hin; [|exact Hx]. apply in_or_app. right. now left. }
  do 2 (split; [assumption|]). split.
  - intros kv' Hkv'.
    destruct (Hpre (String.append (fst kv') suffix)) as (w & Hw & Hlt).
    { apply in_map_iff. exists kv'. auto. }
    exists w. split; [|exact Hlt]. apply Hin; [|exact Hw].
    apply in_or_app. now left.
  - intros kv' Hkv'.
    destruct (Hpost (String.append (fst kv') suffix)) as (w & Hw & Hle).
    { apply in_map_iff. exists kv'. auto. }
    exists w. split; [|exact Hle]. apply Hin; [|exact Hw].
    apply in_or_app. right. now right.
Qed.

Lemma probability_labels_follow_assignments_witness :
  let row := [("ANS_B", 2 # 10); ("ANS_Mono", 2 # 10); ("ANS_NK", 5 # 10);
              ("ANS_GMM_0", 4 # 10); ("ANS_GMM_1", 4 # 10);
              ("ANS_GMM_2", 2 # 10)]%string in
  exists pre kv post x label,
    assignments3 = pre ++ kv :: post /\
    lookup (snd kv) row = Some x /\
    rsplit_item 3 1 (String.append (fst kv) "_gmm_3sigs") = Ok label /\
    nth_error ["B"; "Mono"]%string 1 = Some label /\
    (forall kv', In kv' pre -> exists w, lookup (snd kv') row = Some w /\ w < x) /\
    (forall kv', In kv' post -> exists w, lookup (snd kv') row = Some w /\ w <= x).
Proof.
  assert (E : exists obs',
             store_assignments "_gmm_3sigs" assignments3 (obs_gmm, [])
             = Ok (obs', ["ANS_B_gmm_3sigs"; "ANS_Mono_gmm_3sigs";
                          "ANS_NK_gmm_3sigs"]%string) /\
             hard_label 3 obs' ["ANS_B_gmm_3sigs"; "ANS_Mono_gmm_3sigs";
                                "ANS_NK_gmm_3sigs"]%string
             = Ok ["B"; "Mono"]%string).
  { eexists. split; vm_compute; reflexivity. }
  destruct E as (obs' & Hstore & Hlab).
  intro row.
  refine (probability_labels_follow_assignments 3 "_gmm_3sigs" assignments3 obs_gmm obs'
            ["ANS_B_gmm_3sigs"; "ANS_Mono_gmm_3sigs"; "ANS_NK_gmm_3sigs"]%string
            ["B"; "Mono"]%string _ _ Hstore Hlab 1%nat row _).
  - repeat constructor; simpl; intuition discriminate.
  - intros kv Hkv. simpl in Hkv. simpl.
    intuition (subst; simpl in *; discriminate).
  - reflexivity.
Defined.

(** ** Names of probability columns *)

Lemma rsplit_one_cases (name : string) :
  (In underscore (chars name) ->
   exists a sig,
     name = String.append a (String underscore sig) /\
     sep_free underscore sig /\ rsplit underscore 1 name = [a; sig]) /\
  (~ In underscore (chars name) -> rsplit underscore 1 name = [name]).
Proof.
  split; intro H.
  - destruct (last_sep _ _ H) as (a & b & E & Hb).
    assert (Hname : name = String.append (str a) (String underscore (str b))).
    { rewrite <- (str_chars name), E, str_app. reflexivity. }
    assert (Hfree : sep_free underscore (str b)).
    { unfold sep_free. now rewrite chars_str. }
    exists (str a), (str b). repeat split; try assumption.
    rewrite Hname at 1. rewrite (rsplit_append underscore 0 _ _ Hfree), rsplit_zero.
    reflexivity.
  - now apply rsplit_free.
Qed.

Lemma rsplit_gmm_name (key scen : string) :
  sep_free underscore scen ->
  rsplit underscore 3
    (String.append key (String underscore (String.append "gmm" (String underscore scen))))
  = rsplit underscore 1 key ++ ["gmm"%string; scen].
Proof.
  intro Hs.
  replace (String.append key
             (String underscore (String.append "gmm" (String underscore scen))))
    with (String.append (String.append key (String underscore "gmm"))
                        (String underscore scen))
    by (rewrite str_append_assoc; reflexivity).
  rewrite (rsplit_append underscore 2 _ scen Hs).
  rewrite (rsplit_append underscore 1 key "gmm"
             ltac:(apply sep_freeb_spec; reflexivity)).
  rewrite <- app_assoc. reflexivity.
Qed.

(** X14.  The probability cells read from a copied column, named key, gmm,
    scenario, the method and the signature that the score cells read from
    the score column key, provided the key has an underscore; for a key
    without underscore they read the key as the method and gmm as the
    signature. *)
Theorem probability_column_names_keep_method_and_signature (key scen : string) :
  sep_free underscore scen ->
  let gmm_name :=
    String.append key (String underscore (String.append "gmm" (String underscore scen))) in
  (In underscore (chars key) ->
   rsplit_item 3 0 gmm_name = rsplit_item 1 0 key /\
   rsplit_item 3 1 gmm_name = rsplit_item 1 1 key) /\
  (~ In underscore (chars key) ->
   rsplit_item 3 0 gmm_name = Ok key /\
   rsplit_item 3 1 gmm_name = Ok "gmm"%string).
Proof.
  intro Hs. cbv zeta. unfold rsplit_item. rewrite (rsplit_gmm_name key scen Hs).
  destruct (rsplit_one_cases key) as [Hwith Hwithout]. split; intro H.
  - destruct (Hwith H) as (a & sig & _ & _ & ->). split; reflexivity.
  - rewrite (Hwithout H). split; reflexivity.
Qed.

Lemma probability_column_names_keep_method_and_signature_witness :
  (rsplit_item 3 0 "Seurat_AG_B_gmm_3sigs" = rsplit_item 1 0 "Seurat_AG_B" /\
   rsplit_item 3 1 "Seurat_AG_B_gmm_3sigs" = rsplit_item 1 1 "Seurat_AG_B") /\
  (rsplit_item 3 0 "B_gmm_3sigs" = Ok "B"%string /\
   rsplit_item 3 1 "B_gmm_3sigs" = Ok "gmm"%string).
Proof.
  split.
  - apply (proj1 (probability_column_names_keep_method_and_signature "Seurat_AG_B" "3sigs"
                    ltac:(apply sep_freeb_spec; reflexivity))).
    vm_compute. auto 10.
  - apply (proj2 (probability_column_names_keep_method_and_signature "B" "3sigs"
                    ltac:(apply sep_freeb_spec; reflexivity))).
    vm_compute. intros [H|[]]. discriminate.
Defined.

(** ** The remaining component in the two-signature scenario *)

Lemma store_signatures_filter (suffix : string) (assignments : list (string * string))
  (st : Frame * list string) :
  store_signatures suffix assignments st
  = store_assignments suffix
      (filter (fun kv => negb (String.eqb (fst kv) "rest")) assignments) st.
Proof.
  revert st. induction assignments as [|[key val] rest IH]; intro st; [reflexivity|].
  cbn [store_signatures filter fst].
  destruct (String.eqb key "rest"); cbn [negb].
  - apply IH.
  - cbn [store_assignments].
    destruct (copy_column (fst st) (String.append key suffix) val); [|reflexivity].
    cbn [bind]. apply IH.
Qed.

Lemma app_singleton_split {A : Type} (l1 l2 l3 : list A) (a c : A) :
  l1 ++ [a] = l2 ++ c :: l3 ->
  (l3 = [] /\ c = a /\ l1 = l2) \/
  (exists l3', l3 = l3' ++ [a] /\ l1 = l2 ++ c :: l3').
Proof.
  intro H. destruct l3 as [|x l3].
  - apply app_inj_tail in H. destruct H as [-> ->]. left. auto.
  - right. destruct (exists_last (l := x :: l3) ltac:(discriminate)) as (l3' & b & E).
    rewrite E in *. rewrite app_comm_cons, app_assoc in H.
    apply app_inj_tail in H. destruct H as [-> ->]. eauto.
Qed.

Lemma gmm_2sigs_signature_not_rest (scoring_names_3_sigs : list string)
  (key label : string) :
  In key (scoring_names_2_sigs scoring_names_3_sigs) ->
  rsplit_item 3 1 (String.append key "_gmm_2sigs") = Ok label ->
  label <> rest_label.
Proof.
  intros Hkey Hlab.
  change (String.append key "_gmm_2sigs")
    with (String.append key
            (String underscore (String.append "gmm" (String underscore "2sigs"))))
    in Hlab.
  unfold rsplit_item in Hlab.
  rewrite (rsplit_gmm_name key "2sigs" ltac:(apply sep_freeb_spec; reflexivity)) in Hlab.
  destruct (rsplit_one_cases key) as [Hwith Hwithout].
  destruct (in_dec ascii_dec underscore (chars key)) as [Hin|Hout].
  - destruct (Hwith Hin) as (a & sig & _ & _ & E). rewrite E in Hlab.
    cbn in Hlab. injection Hlab as <-.
    apply (two_sigs_name_not_rest scoring_names_3_sigs 1 1 key sig Hkey).
    unfold rsplit_item. rewrite E. reflexivity.
  - rewrite (Hwithout Hout) in Hlab. cbn in Hlab. injection Hlab as <-. discriminate.
Qed.

Lemma rest_name_signature (method : string) :
  rsplit_item 3 1 (String.append method "_NK_gmm_2sigs") = Ok rest_label.
Proof.
  unfold rsplit_item.
  change (String.append method "_NK_gmm_2sigs")
    with (String.append method
            (String underscore
               (String.append "NK"
                  (String underscore (String.append "gmm" (String underscore "2sigs")))))).
  rewrite rsplit_four_parts by (apply sep_freeb_spec; reflexivity).
  reflexivity.
Qed.

(** X15.  One turn of cell [cf3ce7fd] followed by the probability cell, for a
    dictionary whose signature keys are score columns of the two-signature
    scenario, with new columns of distinct names that are not probability
    columns themselves: an entity is labelled with the remaining class
    exactly when the probability of the remaining component is strictly
    larger than the probability assigned to every signature; on a tie the
    signature is chosen. *)
Theorem rest_label_needs_strictly_largest_probability
  (scoring_names_3_sigs : list string) (i : nat)
  (assignments : list (string * string)) (rest_col : string)
  (obs obs' : Frame) (names' labels : list string) :
  let sigs := filter (fun kv => negb (String.eqb (fst kv) "rest")) assignments in
  (forall kv, In kv sigs -> In (fst kv) (scoring_names_2_sigs scoring_names_3_sigs)) ->
  store_2sigs (scoring_names_2_sigs scoring_names_3_sigs) i assignments rest_col (obs, [])
  = Ok (obs', names') ->
  NoDup names' ->
  (forall n, In n names' -> n <> rest_col /\ ~ In n (map snd sigs)) ->
  hard_label 3 obs' names' = Ok labels ->
  forall e row, nth_error obs e = Some row ->
  exists r l,
    lookup rest_col row = Some r /\
    nth_error labels e = Some l /\
    (l = rest_label <->
     forall kv, In kv sigs -> exists w, lookup (snd kv) row = Some w /\ w < r).
Proof.
  intros sigs Hkeys Hstore Hnd Hsrc Hlab e row He.
  unfold store_2sigs in Hstore. rewrite store_signatures_filter in Hstore.
  fold sigs in Hstore.
  inv_bind Hstore. destruct x as [obs1 names1]. rename Hx into Hsig.
  inv_bind Hstore. rename x into name.
  inv_bind Hstore. rename Hx0 into Hcopy, x into obs2. injection Hstore as <- <-.
  cbn [fst snd] in *.
  set (rest_name := String.append (curr_name name) "_NK_gmm_2sigs") in *.
  set (news := map (fun kv => String.append (fst kv) "_gmm_2sigs") sigs) in *.
  apply store_assignments_rows in Hsig. cbn [fst snd app] in Hsig.
  destruct Hsig as [-> Hrows]. fold news in Hnd, Hsrc, Hlab.
  apply copy_column_rows in Hcopy.
  (* the names *)
  assert (Hnews : NoDup news /\ ~ In rest_name news).
  { apply NoDup_remove in Hnd. rewrite app_nil_r in Hnd. exact Hnd. }
  destruct Hnews as [Hnd_news Hrest_new].
  assert (Hvals : forall kv, In kv sigs -> ~ In (snd kv) news).
  { intros kv Hkv Hin. destruct (Hsrc (snd kv)) as [_ Hn].
    - apply in_or_app. now left.
    - apply Hn. apply in_map. exact Hkv. }
  (* the entity before and after the copies *)
  destruct (Forall2_nth_error_l _ _ _ Hrows e row He) as (row1 & He1 & Hother & Hc).
  specialize (Hc Hnd_news Hvals).
  destruct (Forall2_nth_error_l _ _ _ Hcopy e row1 He1) as (row' & He' & r & Hr & ->).
  assert (Hr0 : lookup rest_col row = Some r).
  { rewrite <- Hother; [exact Hr|]. intro Hin.
    destruct (Hsrc rest_col) as [Hn _]; [apply in_or_app; now left | congruence]. }
  assert (Hsig_val : forall kv, In kv sigs ->
            exists v, lookup (snd kv) row = Some v /\
                      lookup (String.append (fst kv) "_gmm_2sigs")
                             (row_set rest_name r row1) = Some v).
  { intros kv Hkv. destruct (Hc kv Hkv) as (v & Hv & Hv').
    exists v. split; [exact Hv|]. rewrite row_set_lookup.
    destruct (String.eqb_spec rest_name (String.append (fst kv) "_gmm_2sigs")) as [E|_];
      [|exact Hv'].
    exfalso. apply Hrest_new. rewrite E. unfold news.
    apply in_map_iff. exists kv. auto. }
  assert (Hrest_val : lookup rest_name (row_set rest_name r row1) = Some r).
  { rewrite row_set_lookup, String.eqb_refl. reflexivity. }
  (* the argmax *)
  destruct (hard_label_first_max _ _ _ _ Hlab e _ He')
    as (pre' & c & post' & x & label & Hsplit & Hxval & Hlabel & Hl & Hpre & Hpost).
  exists r, label. do 2 (split; [assumption|]).
  apply app_singleton_split in Hsplit.
  destruct Hsplit as [(-> & -> & Hnewseq)|(post'' & -> & Hnewseq)].
  - (* the remaining component is the argmax *)
    assert (x = r) by congruence. subst x.
    assert (label = rest_label).
    { unfold rest_name in Hlabel. rewrite rest_name_signature in Hlabel. congruence. }
    subst label. split; [|reflexivity]. intros _ kv Hkv.
    destruct (Hsig_val kv Hkv) as (v & Hv & Hv').
    destruct (Hpre (String.append (fst kv) "_gmm_2sigs")) as (w & Hw & Hlt).
    { rewrite <- Hnewseq. unfold news. apply in_map_iff. exists kv. auto. }
    exists v. split; [exact Hv|]. congruence.
  - (* a signature is the argmax *)
    assert (Hc_in : In c news).
    { rewrite Hnewseq. apply in_or_app. right. now left. }
    unfold news in Hc_in. apply in_map_iff in Hc_in.
    destruct Hc_in as (kv & <- & Hkv).
    assert (Hne : label <> rest_label).
    { exact (gmm_2sigs_signature_not_rest _ _ _ (Hkeys kv Hkv) Hlabel). }
    split; [intro E; contradiction|]. intro Hall. exfalso.
    destruct (Hall kv Hkv) as (w & Hw & Hlt).
    destruct (Hsig_val kv Hkv) as (v & Hv & Hv').
    assert (v = x) by congruence. assert (w = v) by congruence. subst v w.
    destruct (Hpost rest_name) as (r' & Hr' & Hle).
    { apply in_or_app. right. now left. }
    assert (r' = r) by congruence. subst r'.
    exact (Qle_not_lt _ _ Hle Hlt).
Qed.

Lemma rest_label_needs_strictly_largest_probability_witness :
  let row := [("ANS_B", 2 # 10); ("ANS_Mono", 2 # 10); ("ANS_NK", 5 # 10);
              ("ANS_GMM_0", 4 # 10); ("ANS_GMM_1", 4 # 10);
              ("ANS_GMM_2", 2 # 10)]%string in
  exists r l,
    lookup "ANS_GMM_1" row = Some r /\
    nth_error ["B"; "Mono"]%string 1 = Some l /\
    (l = rest_label <->
     forall kv, In kv assignments2 -> exists w, lookup (snd kv) row = Some w /\ w < r).
Proof.
  assert (E : exists obs',
             store_2sigs (scoring_names_2_sigs names3) 0 assignments2 "ANS_GMM_1"
                         (obs_gmm, [])
             = Ok (obs', ["ANS_B_gmm_2sigs"; "ANS_Mono_gmm_2sigs";
                          "ANS_NK_gmm_2sigs"]%string) /\
             hard_label 3 obs' ["ANS_B_gmm_2sigs"; "ANS_Mono_gmm_2sigs";
                                "ANS_NK_gmm_2sigs"]%string
             = Ok ["B"; "Mono"]%string).
  { eexists. split; vm_compute; reflexivity. }
  destruct E as (obs' & Hstore & Hlab).
  intro row.
  refine (rest_label_needs_strictly_largest_probability names3 0 assignments2
            "ANS_GMM_1" obs_gmm obs'
            ["ANS_B_gmm_2sigs"; "ANS_Mono_gmm_2sigs"; "ANS_NK_gmm_2sigs"]%string
            ["B"; "Mono"]%string _ Hstore _ _ Hlab 1%nat row _).
  - intros kv Hkv. simpl in Hkv. vm_compute.
    intuition (subst; simpl; auto).
  - repeat constructor; simpl; intuition discriminate.
  - intros n Hn. simpl in Hn. simpl.
    intuition (subst; discriminate).
  - reflexivity.
Defined.

(** ** Dropping the columns of the fit *)

Lemma lookup_filter (p : string -> bool) (n : string) (r : Row) :
  lookup n (filter (fun c => p (fst c)) r) = if p n then lookup n r else None.
Proof.
  induction r as [|[m x] r IH]; cbn [filter lookup fst].
  - destruct (p n); reflexivity.
  - destruct (p m) eqn:Em; cbn [lookup].
    + destruct (String.eqb_spec m n) as [->|_]; [now rewrite Em | exact IH].
    + rewrite IH. destruct (String.eqb_spec m n) as [->|_]; [now rewrite Em|].
      reflexivity.
Qed.

Lemma lower_app (a b : string) :
  lower (String.append a b) = String.append (lower a) (lower b).
Proof.
  induction a as [|c a IH]; cbn [String.append lower]; [reflexivity|]. now rewrite IH.
Qed.

(** X16.  Cell [893b5cf0] keeps every column that the later cells read: a
    column whose name ends in sigs, and a column whose lower-case name has no
    gmm, reads after the drop as before; a column whose lower-case name has
    gmm and no sigs can no longer be read from a table with an entity. *)
Theorem drop_unused_keeps_label_inputs (obs : Frame) :
  (forall x, column (drop_unused obs) (String.append x "sigs")
             = column obs (String.append x "sigs")) /\
  (forall name, contains "gmm" (lower name) = false ->
                column (drop_unused obs) name = column obs name) /\
  (forall name, contains "gmm" (lower name) = true ->
                contains "sigs" (lower name) = false ->
                obs <> [] ->
                column (drop_unused obs) name = Raise KeyError).
Proof.
  assert (Hkept : forall name, unused name = false ->
                    column (drop_unused obs) name = column obs name).
  { intros name Hname. unfold column, drop_unused. rewrite mapM_map.
    induction obs as [|r obs IH]; [reflexivity|]. cbn [mapM].
    rewrite (lookup_filter (fun n => negb (unused n))), Hname. cbn [negb].
    now rewrite IH. }
  split; [|split].
  - intro x. apply Hkept. unfold unused.
    rewrite lower_app. change (lower "sigs") with "sigs"%string.
    replace (contains "sigs" (String.append (lower x) "sigs")) with true
      by (symmetry; apply (contains_append "sigs" (lower x) "")).
    cbn [negb]. apply andb_false_r.
  - intros name Hname. apply Hkept. unfold unused. now rewrite Hname.
  - intros name Hg Hs Hne. destruct obs as [|r obs]; [congruence|].
    unfold column, drop_unused. cbn [map mapM].
    rewrite (lookup_filter (fun n => negb (unused n))).
    unfold unused. rewrite Hg, Hs. reflexivity.
Qed.

Lemma drop_unused_keeps_label_inputs_witness :
  column (drop_unused obs_gmm) "ANS_B" = column obs_gmm "ANS_B" /\
  column (drop_unused obs_gmm) "ANS_GMM_0" = Raise KeyError.
Proof.
  destruct (drop_unused_keeps_label_inputs obs_gmm) as (_ & Hkeep & Hdrop).
  split.
  - apply Hkeep. reflexivity.
  - apply Hdrop; [reflexivity | reflexivity | discriminate].
Defined.

(** ** Range of the weighted F1 score *)

From Stdlib Require Import Lqa.

Lemma tp_sum_le_true (c : string) (y_true y_pred : list string) :
  (Sklearn.tp_sum c y_true y_pred <= Sklearn.support c y_true)%Z.
Proof.
  unfold Sklearn.support. revert y_pred.
  induction y_true as [|t y_true IH]; intros [|p y_pred]; cbn [Sklearn.tp_sum];
    try lia.
  specialize (IH y_pred).
  destruct (String.eqb_spec t c) as [->|Hne].
  - rewrite count_occ_cons_eq by reflexivity.
    destruct (String.eqb p c); cbn [andb]; lia.
  - rewrite count_occ_cons_neq by exact Hne. cbn [andb]. lia.
Qed.

Lemma prf_divide_range (n d : Z) :
  (0 <= n <= d)%Z -> 0 <= Sklearn.prf_divide n d /\ Sklearn.prf_divide n d <= 1.
Proof.
  intro H. unfold Sklearn.prf_divide.
  destruct (Z.eqb_spec d 0) as [|Hd]; [split; discriminate|].
  assert (Hpos : 0 < inject_Z d).
  { change 0 with (inject_Z 0). rewrite <- Zlt_Qlt. lia. }
  split.
  - apply Qle_shift_div_l; [exact Hpos|]. rewrite Qmult_0_l.
    change 0 with (inject_Z 0). rewrite <- Zle_Qle. lia.
  - apply Qle_shift_div_r; [exact Hpos|]. rewrite Qmult_1_l.
    rewrite <- Zle_Qle. lia.
Qed.

Lemma precision_range (c : string) (y_true y_pred : list string) :
  0 <= Sklearn.precision c y_true y_pred /\ Sklearn.precision c y_true y_pred <= 1.
Proof.
  apply prf_divide_range. exact (tp_sum_bounds c y_true y_pred).
Qed.

Lemma recall_range (c : string) (y_true y_pred : list string) :
  0 <= Sklearn.recall c y_true y_pred /\ Sklearn.recall c y_true y_pred <= 1.
Proof.
  apply prf_divide_range. split.
  - exact (proj1 (tp_sum_bounds c y_true y_pred)).
  - exact (tp_sum_le_true c y_true y_pred).
Qed.

Lemma harmonic_range (p r : Q) :
  0 <= p -> p <= 1 -> 0 <= r -> r <= 1 -> ~ p + r == 0 ->
  0 <= 2 * p * r / (p + r) /\ 2 * p * r / (p + r) <= 1.
Proof.
  intros Hp0 Hp1 Hr0 Hr1 Hne.
  assert (Hpos : 0 < p + r).
  { apply Qle_lt_or_eq in Hp0. apply Qle_lt_or_eq in Hr0.
    destruct Hp0 as [Hp0|Hp0]; destruct Hr0 as [Hr0|Hr0]; lra. }
  split.
  - apply Qle_shift_div_l; [exact Hpos|]. nra.
  - apply Qle_shift_div_r; [exact Hpos|]. nra.
Qed.

Lemma f_score_range (c : string) (y_true y_pred : list string) :
  0 <= Sklearn.f_score c y_true y_pred /\ Sklearn.f_score c y_true y_pred <= 1.
Proof.
  unfold Sklearn.f_score.
  destruct (precision_range c y_true y_pred) as [Hp0 Hp1].
  destruct (recall_range c y_true y_pred) as [Hr0 Hr1].
  destruct (Qeq_bool _ 0) eqn:E; [split; discriminate|].
  apply Qeq_bool_neq in E. now apply harmonic_range.
Qed.

Lemma weighted_sum_range (labels y_true y_pred : list string) :
  0 <= Sklearn.weighted_sum labels y_true y_pred /\
  Sklearn.weighted_sum labels y_true y_pred
  <= inject_Z (Sklearn.total_support labels y_true).
Proof.
  induction labels as [|c labels [IH0 IH1]]; cbn [Sklearn.weighted_sum
    Sklearn.total_support fold_right].
  - split; discriminate.
  - fold (Sklearn.weighted_sum labels y_true y_pred) in *.
    fold (Sklearn.total_support labels y_true) in *.
    destruct (f_score_range c y_true y_pred) as [Hf0 Hf1].
    assert (Hw : 0 <= inject_Z (Sklearn.support c y_true)).
    { change 0 with (inject_Z 0). rewrite <- Zle_Qle. apply support_nonneg. }
    rewrite inject_Z_plus. split; nra.
Qed.

Lemma total_support_nonneg (labels y : list string) :
  (0 <= Sklearn.total_support labels y)%Z.
Proof.
  induction labels as [|x l IH]; simpl; [lia|].
  assert (H := support_nonneg x y). lia.
Qed.

(** X17.  For a ground truth with at least one entity, whenever the
    evaluator returns a score, the score lies between zero and one. *)
Theorem evaluate_between_zero_and_one (gt pred : list string) (q : Q) :
  gt <> [] -> evaluate gt pred = Ok q -> 0 <= q /\ q <= 1.
Proof.
  intro Hgt. unfold evaluate, Sklearn.f1_score.
  destruct (List.length gt =? List.length pred)%nat; [|discriminate].
  assert (Htotal : Sklearn.total_support (Sklearn.unique_labels gt pred) gt
                   = Z.of_nat (List.length gt)).
  { apply total_support_all.
    - apply NoDup_nodup.
    - intros c Hc. apply nodup_In, in_or_app. now left. }
  destruct (Z.eqb_spec (Sklearn.total_support (Sklearn.unique_labels gt pred) gt) 0)
    as [Hzero|Hne]; intro H.
  - exfalso. rewrite Htotal in Hzero. destruct gt; [congruence | simpl in Hzero; lia].
  - injection H as <-.
    assert (Hpos : 0 < inject_Z (Sklearn.total_support (Sklearn.unique_labels gt pred) gt)).
    { change 0 with (inject_Z 0). rewrite <- Zlt_Qlt.
      rewrite Htotal. destruct gt; [congruence | simpl; lia]. }
    destruct (weighted_sum_range (Sklearn.unique_labels gt pred) gt pred) as [H0 H1].
    split.
    + apply Qle_shift_div_l; [exact Hpos|]. now rewrite Qmult_0_l.
    + apply Qle_shift_div_r; [exact Hpos|]. now rewrite Qmult_1_l.
Qed.

Lemma evaluate_between_zero_and_one_witness :
  0 <= 28 # 36 /\ 28 # 36 <= 1.
Proof.
  apply (evaluate_between_zero_and_one ["B"; "B"; "Mono"]%string ["B"; "NK"; "Mono"]%string).
  - discriminate.
  - vm_compute. reflexivity.
Defined.

(** ** A score of one *)

Lemma sum_eq_termwise {A : Type} (a b : A -> Q) (l : list A) :
  (forall c, In c l -> a c <= b c) ->
  fold_right (fun c acc => a c + acc) 0 l == fold_right (fun c acc => b c + acc) 0 l ->
  forall c, In c l -> a c == b c.
Proof.
  induction l as [|x l IH]; intros Hle Hsum c Hc; [destruct Hc|].
  cbn [fold_right] in Hsum.
  assert (Hx : a x <= b x) by (apply Hle; now left).
  assert (Hrest : fold_right (fun c acc => a c + acc) 0 l
                  <= fold_right (fun c acc => b c + acc) 0 l).
  { clear IH Hsum Hc. induction l as [|y l IHl]; cbn [fold_right]; [apply Qle_refl|].
    assert (a y <= b y) by (apply Hle; right; now left).
    assert (fold_right (fun c acc => a c + acc) 0 l
            <= fold_right (fun c acc => b c + acc) 0 l).
    { apply IHl. intros z [Hz|Hz]; apply Hle; [now left | right; now right]. }
    lra. }
  destruct Hc as [<-|Hc].
  - lra.
  - apply IH; [intros z Hz; apply Hle; now right | lra | exact Hc].
Qed.

Lemma prf_divide_one (n d : Z) :
  Sklearn.prf_divide n d == 1 -> n = d.
Proof.
  unfold Sklearn.prf_divide. destruct (Z.eqb_spec d 0) as [|Hd]; [discriminate|].
  intro H. apply inject_Z_injective.
  rewrite <- (Qmult_1_l (inject_Z d)), <- H. field.
  now apply inject_Z_nonzero.
Qed.

Lemma f_score_one_recall (c : string) (y_true y_pred : list string) :
  Sklearn.f_score c y_true y_pred == 1 ->
  Sklearn.tp_sum c y_true y_pred = Sklearn.support c y_true.
Proof.
  unfold Sklearn.f_score.
  destruct (precision_range c y_true y_pred) as [Hp0 Hp1].
  destruct (recall_range c y_true y_pred) as [Hr0 Hr1].
  destruct (Qeq_bool _ 0) eqn:E; [discriminate|].
  apply Qeq_bool_neq in E. intro H.
  apply prf_divide_one. fold (Sklearn.recall c y_true y_pred).
  set (p := Sklearn.precision c y_true y_pred) in *.
  set (r := Sklearn.recall c y_true y_pred) in *.
  assert (Hpos : 0 < p + r).
  { apply Qle_lt_or_eq in Hp0. apply Qle_lt_or_eq in Hr0.
    destruct Hp0 as [Hp0|Hp0]; destruct Hr0 as [Hr0|Hr0]; lra. }
  assert (Heq : 2 * p * r == p + r).
  { rewrite <- (Qmult_1_l (p + r)), <- H. field. lra. }
  assert (Hprod : p * (1 - r) + r * (1 - p) == 0) by lra.
  assert (H1 : 0 <= p * (1 - r)) by nra.
  assert (H2 : 0 <= r * (1 - p)) by nra.
  assert (H3 : p * (1 - r) == 0) by lra.
  assert (H4 : r * (1 - p) == 0) by lra.
  apply Qmult_integral in H3. destruct H3 as [H3|H3]; [|lra].
  apply Qmult_integral in H4. destruct H4 as [H4|H4]; lra.
Qed.

Lemma all_true_positive (y_true y_pred : list string) :
  List.length y_true = List.length y_pred ->
  (forall c, In c y_true -> Sklearn.tp_sum c y_true y_pred = Sklearn.support c y_true) ->
  y_pred = y_true.
Proof.
  revert y_pred. induction y_true as [|t y_true IH]; intros [|p y_pred] Hlen Hall;
    simpl in Hlen; try discriminate; [reflexivity|].
  assert (Ht := Hall t (or_introl eq_refl)).
  cbn [Sklearn.tp_sum] in Ht. unfold Sklearn.support in Ht.
  rewrite count_occ_cons_eq in Ht by reflexivity.
  rewrite String.eqb_refl in Ht. cbn [andb] in Ht.
  assert (Hb := tp_sum_le_true t y_true y_pred). unfold Sklearn.support in Hb.
  destruct (String.eqb_spec p t) as [->|Hne]; [|lia].
  f_equal. apply IH; [lia|].
  intros c Hc. assert (Hcc := Hall c (or_intror Hc)).
  cbn [Sklearn.tp_sum] in Hcc. unfold Sklearn.support in *.
  destruct (String.eqb_spec t c) as [->|Hne].
  - rewrite count_occ_cons_eq in Hcc by reflexivity. cbn [andb] in Hcc. lia.
  - rewrite count_occ_cons_neq in Hcc by exact Hne. cbn [andb] in Hcc. lia.
Qed.

(** X18.  A score of one certifies the prediction: when the evaluator returns
    a score equal to one, the predicted label column is the ground truth. *)
Theorem score_one_only_for_ground_truth (gt pred : list string) (q : Q) :
  evaluate gt pred = Ok q -> q == 1 -> pred = gt.
Proof.
  unfold evaluate, Sklearn.f1_score.
  destruct (Nat.eqb_spec (List.length gt) (List.length pred)) as [Hlen|]; [|discriminate].
  set (labels := Sklearn.unique_labels gt pred).
  destruct (Z.eqb_spec (Sklearn.total_support labels gt) 0) as [_|Hne];
    intro H; injection H as <-; intro H1; [discriminate|].
  assert (Hsum : Sklearn.weighted_sum labels gt pred
                 == inject_Z (Sklearn.total_support labels gt)).
  { rewrite <- (Qmult_1_l (inject_Z _)), <- H1. field. now apply inject_Z_nonzero. }
  assert (Hterm : forall c, In c labels ->
            Sklearn.f_score c gt pred * inject_Z (Sklearn.support c gt)
            == inject_Z (Sklearn.support c gt)).
  { apply (sum_eq_termwise
             (fun c => Sklearn.f_score c gt pred * inject_Z (Sklearn.support c gt))
             (fun c => inject_Z (Sklearn.support c gt))).
    - intros c _. destruct (f_score_range c gt pred) as [Hf0 Hf1].
      assert (Hw : 0 <= inject_Z (Sklearn.support c gt)).
      { change 0 with (inject_Z 0). rewrite <- Zle_Qle. apply support_nonneg. }
      nra.
    - unfold Sklearn.weighted_sum in Hsum. rewrite Hsum.
      clear. induction labels as [|x l IH]; cbn [Sklearn.total_support fold_right];
        [reflexivity|].
      fold (Sklearn.total_support l gt). rewrite inject_Z_plus, IH. reflexivity. }
  apply all_true_positive; [exact Hlen|].
  intros c Hc. apply f_score_one_recall.
  assert (Hin : In c labels).
  { unfold labels, Sklearn.unique_labels. apply nodup_In, in_or_app. now left. }
  specialize (Hterm c Hin).
  assert (Hw : 0 < inject_Z (Sklearn.support c gt)).
  { change 0 with (inject_Z 0). rewrite <- Zlt_Qlt. now apply support_pos. }
  apply (Qmult_inj_r _ _ (inject_Z (Sklearn.support c gt))); [lra|].
  rewrite Hterm. ring.
Qed.

Lemma score_one_only_for_ground_truth_witness :
  ["B"; "Mono"; "NK"; "B"]%string = ["B"; "Mono"; "NK"; "B"]%string.
Proof.
  apply (score_one_only_for_ground_truth ["B"; "Mono"; "NK"; "B"]%string
           ["B"; "Mono"; "NK"; "B"]%string (512 # 512)).
  - vm_compute. reflexivity.
  - reflexivity.
Defined.

(** ** How the argmax labeling fails *)






